(** * Command-execution interception: sudo's preload builder and exec shim

    A shallow embedding of [src/exec_preload.c] ([sudo_preload_dso]) and
    [src/sudo_intercept.c] ([resolve_path], [exec_wrapper],
    [execl_wrapper], [sudo_shl_get_next] and the exec replacements),
    followed by the properties proved about them.

    Conventions of the embedding.
    - A [char *] is a [cell]: [None] is the NULL pointer, [Some s] points
      to the NUL-terminated string [s].
    - A [char **] array is the list of its cells, terminator included;
      cells past the first NULL are part of the array but not of the
      environment it denotes ([env_of]).
    - Preprocessor symbols that come from [config.h] and [pathnames.h]
      are fields of a record; an [#ifdef] becomes a match on an option.
    - [int] indices that use -1 for "not found" are [option nat].
    - Allocation may fail: every allocation site asks an oracle.
    - What lies outside the two files (the policy oracle, the real
      [execve], [stat], the allocator) is a field of a record the
      functions take; objects compared by address carry their address.
    - [errno] and the calls made are the state of a small monad; the
      debug macros and [free] leave [errno] alone.
    - A [va_list] is the list of the arguments still to be read; reading
      past its end, or reading an argument at the wrong type, is
      undefined. *)

From Stdlib Require Import ZArith Lia Bool Ascii String DecimalString.
From stdpp Require Import base option list strings.

Local Open Scope string_scope.
Local Open Scope list_scope.

(** ** Strings *)

(** [s + n] on a [char *]: the string that starts [n] characters in. *)
Fixpoint skip (n : nat) (s : string) : string :=
  match n, s with
  | O, _ => s
  | S n', String _ s' => skip n' s'
  | S _, EmptyString => EmptyString
  end.

(** [strncmp(entry, VAR "=", sizeof(VAR)) == 0]: [sizeof(VAR)] counts the
    characters of [VAR] and one more, so the comparison covers ["VAR="]. *)
Definition has_key (var entry : string) : bool :=
  String.prefix (var ++ "=") entry.

(** [entry + sizeof(VAR)]: what follows ["VAR="]. *)
Definition value_of (var entry : string) : string :=
  skip (String.length (var ++ "=")) entry.

(** [strchr(s, c) != NULL]. *)
Fixpoint contains_char (c : ascii) (s : string) : bool :=
  match s with
  | EmptyString => false
  | String c' s' => Ascii.eqb c' c || contains_char c s'
  end.

(** ** Environment arrays *)

Definition cell := option string.

(** [a[i]]; a read outside the array yields NULL (it does not happen on
    an array that holds a NULL at or after the index, see
    [terminated_inside] and [scan_step_terminated]). *)
Definition rd (a : list cell) (i : nat) : cell := default None (a !! i).

(** [a[i] = v], refused outside the array. *)
Definition store (a : list cell) (i : nat) (v : cell) : option (list cell) :=
  if decide (i < length a) then Some (<[i:=v]> a) else None.

(** The environment an array denotes: the strings before the first NULL. *)
Fixpoint env_of (a : list cell) : list string :=
  match a with
  | Some s :: a' => s :: env_of a'
  | _ => []
  end.

(** The array of an environment: its strings and the terminator. *)
Definition array_of (E : list string) : list cell := map Some E ++ [None].

(** ** [sudo_preload_dso] *)

(** What [config.h] decides, and the one helper the function calls. *)
Record platform := {
  RTLD_PRELOAD_VAR : string;
  RTLD_PRELOAD_DELIM : ascii;
  RTLD_PRELOAD_ENABLE_VAR : option string;
  RTLD_PRELOAD_DEFAULT : option string;
  PATH_ASAN_LIB : option string;
  (** [sudo_strtonum(s, min, max, &errstr)]: the value, and whether
      [errstr] is NULL afterwards. *)
  sudo_strtonum : string -> Z -> Z -> Z * bool
}.

Definition INT_MAX : Z := 2147483647.

(** The allocations of one call. *)
Inductive alloc_site := A_dso_buf | A_nenvp | A_preload | A_fdstr.

Global Instance alloc_site_eq_dec : EqDecision alloc_site.
Proof. solve_decision. Defined.

(** Which pointer the call returns. *)
Inductive retptr := Ret_NULL | Ret_envp | Ret_nenvp.

Record preload_out := {
  out_ret : retptr;
  (** the caller's array when the call is over *)
  out_envp : list cell;
  (** the array the call allocated, when it did *)
  out_nenvp : option (list cell);
  out_allocated : list alloc_site;
  out_freed : list alloc_site
}.

(** The environment the caller gets back, if any. *)
Definition returned_env (o : preload_out) : option (list string) :=
  match out_ret o with
  | Ret_NULL => None
  | Ret_envp => Some (env_of (out_envp o))
  | Ret_nenvp => env_of <$> out_nenvp o
  end.

(** The locals of the counting loop. *)
Record scan := {
  envp : list cell;
  env_len : nat;
  preload_idx : option nat;
  intercept_idx : option nat;
  fd_present : bool;
  dso_present : bool;
  dso_enabled : bool
}.

Definition set_envp (a : list cell) (s : scan) : scan :=
  {| envp := a; env_len := env_len s; preload_idx := preload_idx s;
     intercept_idx := intercept_idx s; fd_present := fd_present s;
     dso_present := dso_present s; dso_enabled := dso_enabled s |}.

Definition set_env_len (n : nat) (s : scan) : scan :=
  {| envp := envp s; env_len := n; preload_idx := preload_idx s;
     intercept_idx := intercept_idx s; fd_present := fd_present s;
     dso_present := dso_present s; dso_enabled := dso_enabled s |}.

Definition set_preload_idx (i : option nat) (s : scan) : scan :=
  {| envp := envp s; env_len := env_len s; preload_idx := i;
     intercept_idx := intercept_idx s; fd_present := fd_present s;
     dso_present := dso_present s; dso_enabled := dso_enabled s |}.

Definition set_intercept_idx (i : option nat) (s : scan) : scan :=
  {| envp := envp s; env_len := env_len s; preload_idx := preload_idx s;
     intercept_idx := i; fd_present := fd_present s;
     dso_present := dso_present s; dso_enabled := dso_enabled s |}.

Definition set_fd_present (b : bool) (s : scan) : scan :=
  {| envp := envp s; env_len := env_len s; preload_idx := preload_idx s;
     intercept_idx := intercept_idx s; fd_present := b;
     dso_present := dso_present s; dso_enabled := dso_enabled s |}.

Definition set_dso_present (b : bool) (s : scan) : scan :=
  {| envp := envp s; env_len := env_len s; preload_idx := preload_idx s;
     intercept_idx := intercept_idx s; fd_present := fd_present s;
     dso_present := b; dso_enabled := dso_enabled s |}.

Definition set_dso_enabled (b : bool) (s : scan) : scan :=
  {| envp := envp s; env_len := env_len s; preload_idx := preload_idx s;
     intercept_idx := intercept_idx s; fd_present := fd_present s;
     dso_present := dso_present s; dso_enabled := b |}.

(** [for (i = env_len; envp[i] != NULL; i++) envp[i] = envp[i + 1];]
    on the cells from [env_len] on: each cell up to the first NULL takes
    the value of its right neighbour. *)
Fixpoint shift_down (cells : list cell) : list cell :=
  match cells with
  | Some _ :: rest => rd rest 0 :: shift_down rest
  | _ => cells
  end.

Definition remove_entry (a : list cell) (i : nat) : list cell :=
  take i a ++ shift_down (drop i a).

(** [fd == intercept_fd && errstr == NULL] *)
Definition fd_matches (P : platform) (cp : string) (intercept_fd : Z) : bool :=
  let '(fd, ok) := sudo_strtonum P cp 0 INT_MAX in
  Z.eqb fd intercept_fd && ok.

(** [strncmp(cp, dso_file, dso_len) == 0 &&
     (cp[dso_len] == '\0' || cp[dso_len] == RTLD_PRELOAD_DELIM)] *)
Definition dso_is_first (P : platform) (dso_file cp : string) : bool :=
  String.prefix dso_file cp &&
  match String.get (String.length dso_file) cp with
  | None => true
  | Some c => Ascii.eqb c (RTLD_PRELOAD_DELIM P)
  end.

(** The body of the counting loop for the entry at [env_len]; the
    increment of [env_len] is in [scan_loop]. *)
Definition scan_entry (P : platform) (dso_file : string) (intercept_fd : Z)
    (s : scan) (entry : string) : scan :=
  if has_key (RTLD_PRELOAD_VAR P) entry then
    match preload_idx s with
    | None =>
        let cp := value_of (RTLD_PRELOAD_VAR P) entry in
        let s := if dso_is_first P dso_file cp then set_dso_present true s else s in
        set_preload_idx (Some (env_len s)) s
    | Some _ => set_envp (remove_entry (envp s) (env_len s)) s
    end
  else if negb (Z.eqb intercept_fd (-1)) && has_key "SUDO_INTERCEPT_FD" entry then
    match intercept_idx s with
    | None =>
        let cp := value_of "SUDO_INTERCEPT_FD" entry in
        let s := if fd_matches P cp intercept_fd then set_fd_present true s else s in
        set_intercept_idx (Some (env_len s)) s
    | Some _ => set_envp (remove_entry (envp s) (env_len s)) s
    end
  else
    match RTLD_PRELOAD_ENABLE_VAR P with
    | Some var => if has_key var entry then set_dso_enabled true s else s
    | None => s
    end.

(** [for (env_len = 0; envp[env_len] != NULL; env_len++) { ... }],
    entered with [env_len] already set; [fuel] bounds the iterations. *)
Fixpoint scan_loop (P : platform) (dso_file : string) (intercept_fd : Z)
    (fuel : nat) (s : scan) : scan :=
  match fuel with
  | O => s
  | S fuel' =>
      match rd (envp s) (env_len s) with
      | None => s
      | Some entry =>
          let s' := scan_entry P dso_file intercept_fd s entry in
          scan_loop P dso_file intercept_fd fuel' (set_env_len (S (env_len s')) s')
      end
  end.

Definition scan_init (P : platform) (a : list cell) : scan :=
  {| envp := a; env_len := 0; preload_idx := None; intercept_idx := None;
     fd_present := false; dso_present := false;
     dso_enabled := match RTLD_PRELOAD_ENABLE_VAR P with Some _ => false | None => true end |}.

(** The whole counting loop; the array is at least as long as the loop
    can run (see [scan_loop_exits]). *)
Definition scan_envp (P : platform) (dso_file : string) (intercept_fd : Z)
    (a : list cell) : scan :=
  scan_loop P dso_file intercept_fd (length a) (scan_init P a).

(** [asprintf(&preload, "%s=%s%c%s", RTLD_PRELOAD_VAR, dso_file,
    RTLD_PRELOAD_DELIM, rest)] *)
Definition fmt_preload (P : platform) (dso_file rest : string) : string :=
  RTLD_PRELOAD_VAR P ++ "=" ++ dso_file ++ String (RTLD_PRELOAD_DELIM P) rest.

(** C's ["%d"]. *)
Definition fmt_d (n : Z) : string :=
  NilZero.string_of_int (Z.to_int n).

(** [asprintf(&fdstr, "SUDO_INTERCEPT_FD=%d", intercept_fd)] *)
Definition fmt_fd (intercept_fd : Z) : string :=
  "SUDO_INTERCEPT_FD=" ++ fmt_d intercept_fd.

(** Modelled from the spec: [sudo_new_key_val] is defined outside the
    files under [src/]; the builder's new entry is the preload variable
    set to the library path, so the helper yields ["var=val"]. *)
Definition sudo_new_key_val (var val : string) : string := var ++ "=" ++ val.

(** The second half of the function works on the array [envp] points to
    at that time, with [env_len] and the allocations made so far. *)
Record build := {
  b_cur : list cell;
  b_len : nat;
  b_allocated : list alloc_site
}.

(** Where control goes after a step: on, or to the [oom] label. *)
Inductive flow := Next (b : build) | Goto_oom (b : build).

(** [envp[env_len++] = v; envp[env_len] = NULL;] *)
Definition append_entry (v : string) (extra : list alloc_site) (b : build)
    : option build :=
  a1 ← store (b_cur b) (b_len b) (Some v);
  a2 ← store a1 (S (b_len b)) None;
  Some {| b_cur := a2; b_len := S (b_len b); b_allocated := b_allocated b ++ extra |}.

(** [envp[idx] = v;] *)
Definition overwrite_entry (idx : nat) (v : string) (extra : list alloc_site)
    (b : build) : option build :=
  a1 ← store (b_cur b) idx (Some v);
  Some {| b_cur := a1; b_len := b_len b; b_allocated := b_allocated b ++ extra |}.

(** [if (!dso_present) { ... }] *)
Definition add_preload (P : platform) (alloc_ok : alloc_site -> bool)
    (dso_file : string) (s : scan) (b : build) : option flow :=
  if dso_present s then Some (Next b) else
  match preload_idx s with
  | None =>
      let preload :=
        match RTLD_PRELOAD_DEFAULT P with
        | Some dflt => fmt_preload P dso_file dflt
        | None => sudo_new_key_val (RTLD_PRELOAD_VAR P) dso_file
        end in
      if alloc_ok A_preload
      then Next <$> append_entry preload [A_preload] b
      else Some (Goto_oom b)
  | Some idx =>
      match rd (b_cur b) idx with
      | None => None
      | Some entry =>
          let old_val := value_of (RTLD_PRELOAD_VAR P) entry in
          if alloc_ok A_preload
          then Next <$> overwrite_entry idx (fmt_preload P dso_file old_val) [A_preload] b
          else Some (Goto_oom b)
      end
  end.

(** [#ifdef RTLD_PRELOAD_ENABLE_VAR if (!dso_enabled) { ... } #endif] *)
Definition add_enable (P : platform) (s : scan) (b : build) : option build :=
  match RTLD_PRELOAD_ENABLE_VAR P with
  | Some var =>
      if dso_enabled s then Some b else append_entry (var ++ "=") [] b
  | None => Some b
  end.

(** [if (!fd_present && intercept_fd != -1) { ... }] *)
Definition add_intercept_fd (alloc_ok : alloc_site -> bool) (intercept_fd : Z)
    (s : scan) (b : build) : option flow :=
  if negb (fd_present s) && negb (Z.eqb intercept_fd (-1)) then
    if alloc_ok A_fdstr then
      match intercept_idx s with
      | Some idx => Next <$> overwrite_entry idx (fmt_fd intercept_fd) [A_fdstr] b
      | None => Next <$> append_entry (fmt_fd intercept_fd) [A_fdstr] b
      end
    else Some (Goto_oom b)
  else Some (Next b).

Definition b2n (b : bool) : nat := if b then 1 else 0.

(** [preload_idx == -1 || !dso_enabled || intercept_idx == -1] *)
Definition needs_copy (s : scan) : bool :=
  bool_decide (preload_idx s = None) || negb (dso_enabled s)
  || bool_decide (intercept_idx s = None).

(** [env_len + 1 + (preload_idx == -1) + dso_enabled + (intercept_idx == -1)] *)
Definition env_size (s : scan) : nat :=
  env_len s + 1 + b2n (bool_decide (preload_idx s = None)) + b2n (dso_enabled s)
  + b2n (bool_decide (intercept_idx s = None)).

(** [memcpy] of the first [env_len] cells of [envp] into [nenvp], then
    [nenvp[env_len] = NULL],
    on [env_size] fresh cells; what [reallocarray] left in the others is
    [junk]. *)
Definition copy_envp (junk : cell) (s : scan) : list cell :=
  take (env_len s) (envp s) ++ None :: replicate (env_size s - S (env_len s)) junk.

(** What the [oom] label frees: [dso_buf], [preload] and [nenvp], each
    when it was allocated ([free(NULL)] does nothing). *)
Definition frees_at_oom (allocated : list alloc_site) : list alloc_site :=
  filter (fun x => x ∈ allocated) [A_dso_buf; A_preload; A_nenvp].

Definition oom_out (copied : bool) (s : scan) (b : build) : preload_out :=
  {| out_ret := Ret_NULL;
     out_envp := if copied then envp s else b_cur b;
     out_nenvp := None;
     out_allocated := b_allocated b;
     out_freed := frees_at_oom (b_allocated b) |}.

Definition done_out (P : platform) (copied : bool) (s : scan) (b : build) : preload_out :=
  {| out_ret := if copied then Ret_nenvp else Ret_envp;
     out_envp := if copied then envp s else b_cur b;
     out_nenvp := if copied then Some (b_cur b) else None;
     out_allocated := b_allocated b;
     out_freed := match PATH_ASAN_LIB P with Some _ => [A_dso_buf] | None => [] end |}.

(** Everything after the copy of the array. *)
Definition finish (P : platform) (alloc_ok : alloc_site -> bool)
    (dso_file : string) (intercept_fd : Z) (copied : bool) (s : scan)
    (b : build) : option preload_out :=
  f1 ← add_preload P alloc_ok dso_file s b;
  match f1 with
  | Goto_oom b1 => Some (oom_out copied s b1)
  | Next b1 =>
      b2 ← add_enable P s b1;
      f3 ← add_intercept_fd alloc_ok intercept_fd s b2;
      match f3 with
      | Goto_oom b3 => Some (oom_out copied s b3)
      | Next b3 => Some (done_out P copied s b3)
      end
  end.

(** Everything after the address-sanitizer prefix. *)
Definition preload_from_scan (P : platform) (alloc_ok : alloc_site -> bool)
    (junk : cell) (allocated : list alloc_site) (envp0 : list cell)
    (dso_file : string) (intercept_fd : Z) : option preload_out :=
  let s := scan_envp P dso_file intercept_fd envp0 in
  if needs_copy s then
    if alloc_ok A_nenvp then
      finish P alloc_ok dso_file intercept_fd true s
        {| b_cur := copy_envp junk s; b_len := env_len s;
           b_allocated := allocated ++ [A_nenvp] |}
    else
      (* [debug_return_ptr(NULL)], not [goto oom] *)
      Some {| out_ret := Ret_NULL; out_envp := envp s; out_nenvp := None;
              out_allocated := allocated; out_freed := [] |}
  else
    finish P alloc_ok dso_file intercept_fd false s
      {| b_cur := envp s; b_len := env_len s; b_allocated := allocated |}.

(** [char **sudo_preload_dso(char *envp[], const char *dso_file,
    int intercept_fd)].  [None] is a write outside the allocated array;
    [Some o] describes the return. *)
Definition sudo_preload_dso (P : platform) (alloc_ok : alloc_site -> bool)
    (junk : cell) (envp0 : list cell) (dso_file : string) (intercept_fd : Z)
    : option preload_out :=
  match PATH_ASAN_LIB P with
  | Some asan =>
      if alloc_ok A_dso_buf then
        preload_from_scan P alloc_ok junk [A_dso_buf] envp0
          (asan ++ String (RTLD_PRELOAD_DELIM P) dso_file) intercept_fd
      else
        Some {| out_ret := Ret_NULL; out_envp := envp0; out_nenvp := None;
                out_allocated := []; out_freed := [] |}
  | None => preload_from_scan P alloc_ok junk [] envp0 dso_file intercept_fd
  end.

(** Modelled from the spec: [sudo_strtonum] is defined outside the files
    under [src/]; the side-channel value "must round-trip as a base-10
    integer with no surrounding whitespace", so this instance reads an
    unsigned run of decimal digits and rejects anything else and any
    value outside [minval, maxval]. *)
Fixpoint digits_value (acc : Z) (s : string) : option Z :=
  match s with
  | EmptyString => Some acc
  | String c s' =>
      let n := (Z.of_nat (nat_of_ascii c) - 48)%Z in
      if (0 <=? n)%Z && (n <=? 9)%Z then digits_value (10 * acc + n)%Z s' else None
  end.

Definition strtonum_dec (s : string) (minval maxval : Z) : Z * bool :=
  match s with
  | EmptyString => (0%Z, false)
  | _ =>
      match digits_value 0 s with
      | Some n => if (minval <=? n)%Z && (n <=? maxval)%Z then (n, true) else (0%Z, false)
      | None => (0%Z, false)
      end
  end.

(** The configuration of an ELF system such as Linux: [LD_PRELOAD],
    colon-separated, no enable toggle, no default, no sanitizer. *)
Definition elf : platform :=
  {| RTLD_PRELOAD_VAR := "LD_PRELOAD"; RTLD_PRELOAD_DELIM := ":"%char;
     RTLD_PRELOAD_ENABLE_VAR := None; RTLD_PRELOAD_DEFAULT := None;
     PATH_ASAN_LIB := None; sudo_strtonum := strtonum_dec |}.

(** A configuration with an enable toggle, as on macOS. *)
Definition dyld : platform :=
  {| RTLD_PRELOAD_VAR := "DYLD_INSERT_LIBRARIES"; RTLD_PRELOAD_DELIM := ":"%char;
     RTLD_PRELOAD_ENABLE_VAR := Some "DYLD_FORCE_FLAT_NAMESPACE";
     RTLD_PRELOAD_DEFAULT := None;
     PATH_ASAN_LIB := None; sudo_strtonum := strtonum_dec |}.

Definition always (_ : alloc_site) : bool := true.
Definition fails_at (x : alloc_site) (y : alloc_site) : bool := negb (bool_decide (x = y)).

(** ** [sudo_intercept.c] *)

(** The values of [errno] the shim tells apart, and all the others. *)
Inductive errno_t :=
| ENOENT | EACCES | ENAMETOOLONG | ELOOP | ENOTDIR | ENOEXEC | ENOMEM
| EOTHER (code : Z).

Global Instance errno_eq_dec : EqDecision errno_t.
Proof. solve_decision. Defined.

(** Objects the shim compares by address: a string and a NULL-terminated
    vector of strings, each with the address it lives at. *)
Definition addr := nat.

Record cstr := { str_addr : addr; str_val : string }.
Record cvec := { vec_addr : addr; vec_items : list string }.

(** The "real" [execve]: [None] when the process image was replaced (the
    call does not return), [Some e] when it returned -1 with [errno = e].
    Path, argument array and environment may each be NULL. *)
Definition sudo_fn_execve_t : Type :=
  option string -> option (list cell) -> option cvec -> option errno_t.

(** The process and the collaborators of one call. *)
Record host := {
  PATH_MAX : nat;
  PATH_SUDO_BSHELL : string;
  (** [extern char **environ] *)
  environ : cvec;
  (** [stat(path, &sb)]: [None] for 0, [Some e] for -1 with [errno = e] *)
  stat : string -> option errno_t;
  (** [command_allowed(cmnd, argv, envp, &ncmnd, &nargv, &nenvp)]: the
      verdict and what the three out-parameters hold afterwards *)
  command_allowed : cstr -> cvec -> cvec -> bool * (option cstr * option cvec * option cvec);
  (** what [fn] is set to: [execve] itself under [HAVE___INTERPOSE],
      the result of [dlsym] or of [sudo_shl_get_next] otherwise *)
  next_execve : option sudo_fn_execve_t;
  (** [reallocarray(NULL, nmemb, sizeof(char * ))]: the new block, if any *)
  reallocarray : nat -> option addr;
  (** where [cmnd_buf] lives *)
  cmnd_buf : addr
}.

Inductive event :=
| Ev_command_allowed (cmnd : cstr) (argv envp : cvec) (allowed : bool)
| Ev_execve (path : option string) (argv : option (list cell)) (envp : option cvec)
| Ev_alloc (a : addr)
| Ev_free (a : addr).

Global Instance cstr_eq_dec : EqDecision cstr.
Proof. solve_decision. Defined.
Global Instance cvec_eq_dec : EqDecision cvec.
Proof. solve_decision. Defined.
Global Instance event_eq_dec : EqDecision event.
Proof. solve_decision. Defined.

(** What a call can change: [errno], and the calls it makes. *)
Record world := { errno : errno_t; trace : list event }.

Definition set_errno (e : errno_t) (w : world) : world :=
  {| errno := e; trace := trace w |}.

Definition log (ev : event) (w : world) : world :=
  {| errno := errno w; trace := trace w ++ [ev] |}.

(** How a call ends: it returns, or the process image was replaced, or
    it read outside an array. *)
Inductive outcome (A : Type) :=
| Returns (a : A)
| Replaced
| Undefined.
Arguments Returns {A} a.
Arguments Replaced {A}.
Arguments Undefined {A}.

Definition M (A : Type) : Type := world -> outcome A * world.

Global Instance M_ret : MRet M := fun A a w => (Returns a, w).
Global Instance M_bind : MBind M := fun A B k m w =>
  match m w with
  | (Returns a, w') => k a w'
  | (Replaced, w') => (Replaced, w')
  | (Undefined, w') => (Undefined, w')
  end.

Definition put_errno (e : errno_t) : M unit := fun w => (Returns tt, set_errno e w).
Definition get_errno : M errno_t := fun w => (Returns (errno w), w).
Definition emit (ev : event) : M unit := fun w => (Returns tt, log ev w).
Definition undefined {A} : M A := fun w => (Undefined, w).

(** [free(p)]; [free(NULL)] does nothing. *)
Definition free (p : option addr) : M unit :=
  match p with
  | Some a => emit (Ev_free a)
  | None => mret tt
  end.

(** [((sudo_fn_execve_t)fn)(path, argv, envp)] *)
Definition call_execve (fn : sudo_fn_execve_t) (path : option string)
    (argv : option (list cell)) (envp : option cvec) : M unit :=
  fun w =>
    let w' := log (Ev_execve path argv envp) w in
    match fn path argv envp with
    | None => (Replaced, w')
    | Some e => (Returns tt, set_errno e w')
    end.

(** [strchr(cp, ':')]: the characters before the first colon, and what
    follows that colon when there is one. *)
Fixpoint split_colon (cp : string) : string * option string :=
  match cp with
  | EmptyString => (EmptyString, None)
  | String c cp' =>
      if Ascii.eqb c ":" then (EmptyString, Some cp')
      else let '(dir, rest) := split_colon cp' in (String c dir, rest)
  end.

(** [snprintf(path, sizeof(path), ...)] for one PATH component: the
    whole text, of which [path] holds at most [PATH_MAX - 1] characters. *)
Definition candidate (dir cmnd : string) : string :=
  match dir with
  | EmptyString => "./" ++ cmnd
  | _ => dir ++ "/" ++ cmnd
  end.

(** [while (cp < endp) { ... } errno = errval; return false;] *)
Fixpoint path_loop (H : host) (cmnd : string) (out_size : nat) (fuel : nat)
    (cp : string) (errval : errno_t) (w : world) : option string * world :=
  match fuel with
  | O => (None, w)
  | S fuel' =>
      match cp with
      | EmptyString => (None, set_errno errval w)
      | _ =>
          let '(dir, colon) := split_colon cp in
          let path := candidate dir cmnd in
          let cp' := match colon with Some rest => rest | None => EmptyString end in
          if (PATH_MAX H <=? String.length path)%nat then
            (* skip too long path *)
            path_loop H cmnd out_size fuel' cp' ENAMETOOLONG w
          else
            match stat H path with
            | None =>
                if (out_size <=? String.length path)%nat
                then (None, set_errno ENAMETOOLONG w)
                else (Some path, w)
            | Some e =>
                let w' := set_errno e w in
                match e with
                | EACCES => path_loop H cmnd out_size fuel' cp' EACCES w'
                | ELOOP | ENOTDIR | ENOENT => path_loop H cmnd out_size fuel' cp' errval w'
                | _ => (None, w')
                end
            end
      end
  end.

(** The first [for] loop: the value of the first [PATH=] entry. *)
Fixpoint find_PATH (p : list string) : option string :=
  match p with
  | [] => None
  | cp :: p' => if has_key "PATH" cp then Some (value_of "PATH" cp) else find_PATH p'
  end.

(** [static bool resolve_path(const char *cmnd, char *out_cmnd,
    size_t out_size)]: [Some path] for [true] with [out_cmnd] filled. *)
Definition resolve_path (H : host) (cmnd : string) (out_size : nat)
    (w : world) : option string * world :=
  match find_PATH (vec_items (environ H)) with
  | None => (None, set_errno ENOENT w)
  | Some cp => path_loop H cmnd out_size (S (String.length cp)) cp ENOENT w
  end.

(** The cells [memcpy(dst, src + from, n * sizeof(char * ))] reads, when
    they all lie inside [src]. *)
Definition memcpy_cells (src : option (list cell)) (from n : nat) : option (list cell) :=
  match n with
  | O => Some []
  | _ =>
      match src with
      | None => None
      | Some cells =>
          if decide (from + n <= length cells) then Some (take n (drop from cells)) else None
      end
  end.

(** The block after [if (errno == ENOEXEC && is_execvp)]; [None] stands
    for the [return -1] inside it, [Some tt] for falling out of it. *)
Definition shell_fallback (H : host) (fn : sudo_fn_execve_t) (argv : cvec)
    (ncmnd : option cstr) (nargv nenvp : option cvec) : M (option unit) :=
  let argc := length (vec_items argv) in
  match reallocarray H (argc + 2) with
  | None =>
      _ ← put_errno ENOMEM;
      mret None
  | Some shargv =>
      _ ← emit (Ev_alloc shargv);
      match memcpy_cells (array_of <$> (vec_items <$> nargv)) 1 argc with
      | None => undefined
      | Some copied =>
          _ ← call_execve fn (Some (PATH_SUDO_BSHELL H))
                (Some (Some "sh" :: (str_val <$> ncmnd) :: copied)) nenvp;
          _ ← free (Some shargv);
          mret (Some tt)
      end
  end.

(** The first block of [exec_wrapper]: the command the rest of the
    function works with, [None] standing for its [return -1].
    "Only check PATH for the command for execlp/execvp/execvpe." *)
Definition resolve_cmnd (H : host) (cmnd : cstr) (is_execvp : bool) : M (option cstr) :=
  if contains_char "/" (str_val cmnd) then mret (Some cmnd)
  else if negb is_execvp then
    _ ← put_errno ENOENT;
    mret None
  else fun w =>
    match resolve_path H (str_val cmnd) (PATH_MAX H) w with
    | (Some path, w') => (Returns (Some {| str_addr := cmnd_buf H; str_val := path |}), w')
    | (None, w') => (Returns None, w')
    end.

(** [static int exec_wrapper(const char *cmnd, char * const argv[],
    char * const envp[], bool is_execvp)] *)
Definition exec_wrapper (H : host) (cmnd : cstr) (argv envp : cvec)
    (is_execvp : bool) : M Z :=
  resolved ← resolve_cmnd H cmnd is_execvp;
  match resolved with
  | None => mret (-1)%Z
  | Some cmnd =>
      match next_execve H with
      | None =>
          _ ← put_errno EACCES;
          mret (-1)%Z
      | Some fn =>
          let '(allowed, (ncmnd, nargv, nenvp)) := command_allowed H cmnd argv envp in
          _ ← emit (Ev_command_allowed cmnd argv envp allowed);
          early ←
            (if allowed then
               (* Execute the command using the "real" execve() function. *)
               _ ← call_execve fn (str_val <$> ncmnd)
                     (array_of <$> (vec_items <$> nargv)) nenvp;
               (* Fall back to exec via shell for execvp and friends. *)
               e ← get_errno;
               if bool_decide (e = ENOEXEC) && is_execvp
               then shell_fallback H fn argv ncmnd nargv nenvp
               else mret (Some tt)
             else
               _ ← put_errno EACCES;
               mret (Some tt));
          match early with
          | None => mret (-1)%Z
          | Some _ =>
              _ ← (if bool_decide (str_addr <$> ncmnd = Some (str_addr cmnd))
                   then mret tt else free (str_addr <$> ncmnd));
              _ ← (if bool_decide (vec_addr <$> nargv = Some (vec_addr argv))
                   then mret tt else free (vec_addr <$> nargv));
              _ ← (if bool_decide (vec_addr <$> nenvp = Some (vec_addr envp))
                   then mret tt else free (vec_addr <$> nenvp));
              mret (-1)%Z
          end
      end
  end.

(** [execve(cmnd, argv, envp)], the replacement (and [my_execve] under
    [HAVE___INTERPOSE], which has the same body). *)
Definition execve (H : host) (cmnd : cstr) (argv envp : cvec) : M Z :=
  exec_wrapper H cmnd argv (environ H) false.

Definition my_execve (H : host) (cmnd : cstr) (argv envp : cvec) : M Z :=
  exec_wrapper H cmnd argv (environ H) false.

(** [execv(cmnd, argv)], the replacement. *)
Definition execv (H : host) (cmnd : cstr) (argv : cvec) : M Z :=
  execve H cmnd argv (environ H).

(** [execvpe(cmnd, argv, envp)], the replacement (and [my_execvpe]). *)
Definition execvpe (H : host) (cmnd : cstr) (argv envp : cvec) : M Z :=
  exec_wrapper H cmnd argv envp true.

(** [execvp(cmnd, argv)], the replacement (and [my_execvp]). *)
Definition execvp (H : host) (cmnd : cstr) (argv : cvec) : M Z :=
  exec_wrapper H cmnd argv (environ H) true.

(** A call seen from outside: it starts with some [errno] and an empty
    record of calls. *)
Definition run {A} (m : M A) (e0 : errno_t) : outcome A * world :=
  m {| errno := e0; trace := [] |}.

Definition is_execve_event (ev : event) : bool :=
  match ev with Ev_execve _ _ _ => true | _ => false end.

Definition is_free_event (ev : event) : bool :=
  match ev with Ev_free _ => true | _ => false end.

(** The specification's reading of the replacement [execve]: the release of
    the environment the oracle returned is decided by comparing it with
    [envp].  Stated for any [envp], to be tried with the caller's and
    with [environ]. *)
Definition env_release_decided_by (envp nenvp : cvec) (t : list event) : Prop :=
  In (Ev_free (vec_addr nenvp)) t <-> vec_addr nenvp <> vec_addr envp.

(** The cells [exec_wrapper] puts into [shargv]: ["sh"], [ncmnd], and
    [argc] cells of [nargv] from index 1, [argc] counted on [argv]. *)
Definition shargv_cells (argv : cvec) (ncmnd : cstr) (nargv : cvec) : list cell :=
  Some "sh" :: Some (str_val ncmnd)
    :: take (length (vec_items argv)) (drop 1 (array_of (vec_items nargv))).

(** ** Hosts for the examples *)

Definition sample_environ : cvec :=
  {| vec_addr := 100; vec_items := ["HOME=/root"; "PATH=/missing:/noperm:/ok"] |}.

(** A file system with [/ok/cmd] and [/usr/bin/script], and a directory
    [/noperm] that may not be searched. *)
Definition sample_stat (path : string) : option errno_t :=
  if String.eqb path "/ok/cmd" then None
  else if String.eqb path "/usr/bin/script" then None
  else if String.prefix "/noperm/" path then Some EACCES
  else if String.prefix "/broken/" path then Some (EOTHER 5)
  else Some ENOENT.

(** An oracle that allows and hands back what it was given. *)
Definition oracle_keep (cmnd : cstr) (argv envp : cvec)
    : bool * (option cstr * option cvec * option cvec) :=
  (true, (Some cmnd, Some argv, Some envp)).

(** An oracle that denies and leaves the out-parameters alone. *)
Definition oracle_deny (cmnd : cstr) (argv envp : cvec)
    : bool * (option cstr * option cvec * option cvec) :=
  (false, (None, None, None)).

(** An oracle that allows and returns fresh copies. *)
Definition oracle_copy (cmnd : cstr) (argv envp : cvec)
    : bool * (option cstr * option cvec * option cvec) :=
  (true, (Some {| str_addr := 11; str_val := str_val cmnd |},
          Some {| vec_addr := 12; vec_items := vec_items argv |},
          Some {| vec_addr := 13; vec_items := vec_items envp |})).

(** An oracle that allows and substitutes command and arguments. *)
Definition oracle_rewrite (cmnd : cstr) (argv envp : cvec)
    : bool * (option cstr * option cvec * option cvec) :=
  (true, (Some {| str_addr := 11; str_val := "/opt/policy/script" |},
          Some {| vec_addr := 12; vec_items := ["script"; "--checked"; "y"] |},
          Some envp)).

(** A kernel that takes nothing but the shell for an executable, and
    cannot run the shell either. *)
Definition execve_scripts_only : sudo_fn_execve_t :=
  fun path _ _ =>
    match path with
    | Some p => if String.eqb p "/bin/sh" then Some EACCES else Some ENOEXEC
    | None => Some (EOTHER 14)
    end.

Definition sample_host
    (oracle : cstr -> cvec -> cvec -> bool * (option cstr * option cvec * option cvec))
    (alloc : nat -> option addr) : host :=
  {| PATH_MAX := 4096; PATH_SUDO_BSHELL := "/bin/sh";
     environ := sample_environ; stat := sample_stat;
     command_allowed := oracle;
     next_execve := Some execve_scripts_only;
     reallocarray := alloc; cmnd_buf := 50 |}.

Definition alloc_at (a : addr) (nmemb : nat) : option addr := Some a.
Definition alloc_none (nmemb : nat) : option addr := None.

Definition script_cmnd : cstr := {| str_addr := 1; str_val := "/usr/bin/script" |}.
Definition script_argv : cvec := {| vec_addr := 2; vec_items := ["script"; "x"; "y"] |}.
Definition caller_envp : cvec := {| vec_addr := 200; vec_items := ["LANG=C"] |}.

(** What the three tests at the end of [exec_wrapper] free, in order,
    for the objects the oracle returned. *)
Definition release_events (cmnd : cstr) (argv envp : cvec)
    (ncmnd : option cstr) (nargv nenvp : option cvec) : list event :=
  (if bool_decide (str_addr <$> ncmnd = Some (str_addr cmnd)) then [] else
     match ncmnd with Some c => [Ev_free (str_addr c)] | None => [] end)
  ++ (if bool_decide (vec_addr <$> nargv = Some (vec_addr argv)) then [] else
     match nargv with Some c => [Ev_free (vec_addr c)] | None => [] end)
  ++ (if bool_decide (vec_addr <$> nenvp = Some (vec_addr envp)) then [] else
     match nenvp with Some c => [Ev_free (vec_addr c)] | None => [] end).

(** The one path on which [exec_wrapper] returns from inside the
    fallback block: the array for the shell could not be allocated. *)
Definition fallback_alloc_fails (H : host) (fn : sudo_fn_execve_t) (argv : cvec)
    (is_execvp : bool) (allowed : bool) (ncmnd : option cstr)
    (nargv nenvp : option cvec) : Prop :=
  allowed = true /\ is_execvp = true
  /\ fn (str_val <$> ncmnd) (array_of <$> (vec_items <$> nargv)) nenvp = Some ENOEXEC
  /\ reallocarray H (length (vec_items argv) + 2) = None.

(** ** The PATH search, component by component *)

(** The directories the [while] loop of [resolve_path] visits, in the
    order it visits them: the same splitting as [path_loop], without the
    [stat]. *)
Fixpoint path_dirs_fuel (fuel : nat) (cp : string) : list string :=
  match fuel with
  | O => []
  | S fuel' =>
      match cp with
      | EmptyString => []
      | _ =>
          let '(dir, colon) := split_colon cp in
          dir :: path_dirs_fuel fuel'
                   (match colon with Some rest => rest | None => EmptyString end)
      end
  end.

Definition path_dirs (cp : string) : list string :=
  path_dirs_fuel (S (String.length cp)) cp.

(** The body of the loop of [resolve_path], run over a list of
    directories. *)
Fixpoint try_dirs (H : host) (cmnd : string) (out_size : nat)
    (dirs : list string) (errval : errno_t) (w : world) : option string * world :=
  match dirs with
  | [] => (None, set_errno errval w)
  | dir :: dirs' =>
      let path := candidate dir cmnd in
      if (PATH_MAX H <=? String.length path)%nat then
        try_dirs H cmnd out_size dirs' ENAMETOOLONG w
      else
        match stat H path with
        | None =>
            if (out_size <=? String.length path)%nat
            then (None, set_errno ENAMETOOLONG w)
            else (Some path, w)
        | Some e =>
            let w' := set_errno e w in
            match e with
            | EACCES => try_dirs H cmnd out_size dirs' EACCES w'
            | ELOOP | ENOTDIR | ENOENT => try_dirs H cmnd out_size dirs' errval w'
            | _ => (None, w')
            end
        end
  end.

(** ["d1:d2:...:dn"] *)
Fixpoint join_colon (dirs : list string) : string :=
  match dirs with
  | [] => EmptyString
  | [d] => d
  | d :: ds => d ++ String ":" (join_colon ds)
  end.

(** The candidate for [dir] is longer than [path] can hold. *)
Definition too_long (H : host) (cmnd dir : string) : bool :=
  (PATH_MAX H <=? String.length (candidate dir cmnd))%nat.

(** [stat] refuses the candidate for [dir] with [EACCES]. *)
Definition denied (H : host) (cmnd dir : string) : bool :=
  negb (too_long H cmnd dir)
  && bool_decide (stat H (candidate dir cmnd) = Some EACCES).

(** The loop goes on to the next directory: the candidate is too long,
    or [stat] fails with one of the four values the [switch] lets
    through. *)
Definition passed_over (H : host) (cmnd dir : string) : bool :=
  too_long H cmnd dir
  || bool_decide (stat H (candidate dir cmnd) ∈
                    [Some EACCES; Some ELOOP; Some ENOTDIR; Some ENOENT]).

(** What [errval] holds after the loop has passed over [dir]. *)
Definition remembered (H : host) (cmnd : string) (errval : errno_t) (dir : string) : errno_t :=
  if too_long H cmnd dir then ENAMETOOLONG
  else if denied H cmnd dir then EACCES
  else errval.

(** The specification's reading of a search without a match: the error is
    picked by priority among the conditions met, too-long before
    permission-denied before not-found. *)
Definition errno_by_priority (H : host) (cmnd : string) (dirs : list string) : errno_t :=
  if existsb (too_long H cmnd) dirs then ENAMETOOLONG
  else if existsb (denied H cmnd) dirs then EACCES
  else ENOENT.

(** A string of [n] times the character [c]. *)
Fixpoint pad (n : nat) (c : ascii) : string :=
  match n with
  | O => EmptyString
  | S n' => String c (pad n' c)
  end.

(** A process whose PATH is [value], on the sample file system. *)
Definition path_host (value : string) : host :=
  {| PATH_MAX := 4096; PATH_SUDO_BSHELL := "/bin/sh";
     environ := {| vec_addr := 100; vec_items := ["HOME=/root"; ("PATH=" ++ value)%string] |};
     stat := sample_stat;
     command_allowed := oracle_keep;
     next_execve := Some execve_scripts_only;
     reallocarray := alloc_none; cmnd_buf := 50 |}.

(** A directory name of 4096 characters. *)
Definition long_dir : string := String "/" (pad 4095 "d").

(** ** The counting loop, entry by entry *)

(** An entry the loop takes for the preload variable. *)
Definition is_preload (P : platform) (entry : string) : bool :=
  has_key (RTLD_PRELOAD_VAR P) entry.

(** An entry of the side-channel variable. *)
Definition is_intercept_fd (entry : string) : bool :=
  has_key "SUDO_INTERCEPT_FD" entry.

(** An entry the loop takes for the side-channel variable: it is not a
    preload entry (that test comes first) and a descriptor was given. *)
Definition is_checked_fd (P : platform) (intercept_fd : Z) (entry : string) : bool :=
  negb (is_preload P entry) && negb (Z.eqb intercept_fd (-1)) && is_intercept_fd entry.

Definition seen (idx : option nat) : bool :=
  match idx with Some _ => true | None => false end.

(** An environment without the later occurrences of the two variables:
    what removing every duplicate would leave. [seenP] and [seenF] tell
    whether an occurrence came before. *)
Fixpoint dedup (P : platform) (intercept_fd : Z) (seenP seenF : bool)
    (E : list string) : list string :=
  match E with
  | [] => []
  | e :: t =>
      if is_preload P e then
        if seenP then dedup P intercept_fd seenP seenF t
        else e :: dedup P intercept_fd true seenF t
      else if is_checked_fd P intercept_fd e then
        if seenF then dedup P intercept_fd seenP seenF t
        else e :: dedup P intercept_fd seenP true t
      else e :: dedup P intercept_fd seenP seenF t
  end.

(** The entry at the head of [E], if any, is neither a preload entry nor
    a side-channel entry the loop would act on. *)
Definition next_unmanaged (P : platform) (intercept_fd : Z) (E : list string) : bool :=
  match E with
  | [] => true
  | r :: _ => negb (is_preload P r) && negb (is_checked_fd P intercept_fd r)
  end.

(** No duplicate of either variable is directly followed by an entry of
    either variable. *)
Fixpoint spaced (P : platform) (intercept_fd : Z) (seenP seenF : bool)
    (E : list string) : bool :=
  match E with
  | [] => true
  | e :: t =>
      if is_preload P e then
        if seenP then next_unmanaged P intercept_fd t && spaced P intercept_fd seenP seenF t
        else spaced P intercept_fd true seenF t
      else if is_checked_fd P intercept_fd e then
        if seenF then next_unmanaged P intercept_fd t && spaced P intercept_fd seenP seenF t
        else spaced P intercept_fd seenP true t
      else spaced P intercept_fd seenP seenF t
  end.

(** What the loop knows about the preload variable, against the entries
    [K] it has kept so far. *)
Definition preload_known (P : platform) (dso_file : string) (s : scan)
    (K : list string) : Prop :=
  match preload_idx s with
  | Some p =>
      exists e, K !! p = Some e /\ filter (is_preload P) K = [e]
                /\ dso_present s = dso_is_first P dso_file (value_of (RTLD_PRELOAD_VAR P) e)
  | None => filter (is_preload P) K = [] /\ dso_present s = false
  end.

(** The same for the side-channel variable. *)
Definition fd_known (P : platform) (intercept_fd : Z) (s : scan)
    (K : list string) : Prop :=
  match intercept_idx s with
  | Some q =>
      exists e, K !! q = Some e /\ filter (is_checked_fd P intercept_fd) K = [e]
                /\ fd_present s = fd_matches P (value_of "SUDO_INTERCEPT_FD" e) intercept_fd
  | None => filter (is_checked_fd P intercept_fd) K = [] /\ fd_present s = false
  end.

(** What holds when the counting loop is over, against the entries [K]
    it has kept: the array holds [K] and then only NULLs, [env_len] is
    the number of kept entries or one more, and the two indices point at
    the one entry of their variable. *)
Definition scan_post (P : platform) (dso_file : string) (intercept_fd : Z)
    (K : list string) (k : nat) (s : scan) : Prop :=
  exists oc,
    envp s = map Some K ++ replicate (S k) None
    /\ env_len s = length K + oc /\ oc <= 1
    /\ preload_known P dso_file s K /\ fd_known P intercept_fd s K.

(** ** The second half of the builder, against the kept entries *)

(** The array [envp] points to holds the entries [K], then a NULL, and
    [env_len] is not below the number of entries. *)
Definition cur_ok (K : list string) (b : build) : Prop :=
  exists rest, b_cur b = map Some K ++ None :: rest /\ length K <= b_len b.

(** [K'] has the entries that satisfy [f] exactly where [K] has them,
    and no others. *)
Definition keeps (f : string -> bool) (K K' : list string) : Prop :=
  filter f K' = filter f K
  /\ forall i x, K !! i = Some x -> f x = true -> K' !! i = Some x.

(** The names the builder manages cannot be taken for one another. *)
Definition keys_ok (P : platform) : bool :=
  negb (has_key (RTLD_PRELOAD_VAR P) "SUDO_INTERCEPT_FD=")
  && negb (has_key "SUDO_INTERCEPT_FD" (RTLD_PRELOAD_VAR P ++ "="))
  && match RTLD_PRELOAD_ENABLE_VAR P with
     | Some var =>
         negb (has_key (RTLD_PRELOAD_VAR P) (var ++ "="))
         && negb (has_key "SUDO_INTERCEPT_FD" (var ++ "="))
     | None => true
     end.

(** The library path the entry is built from: [dso_file], behind the
    sanitizer's library where one is configured. *)
Definition effective_dso (P : platform) (dso_file : string) : string :=
  match PATH_ASAN_LIB P with
  | Some asan => asan ++ String (RTLD_PRELOAD_DELIM P) dso_file
  | None => dso_file
  end.

(** The array the caller gets back, if any. *)
Definition returned_array (o : preload_out) : option (list cell) :=
  match out_ret o with
  | Ret_NULL => None
  | Ret_envp => Some (out_envp o)
  | Ret_nenvp => out_nenvp o
  end.

(** The builder applied to what the builder returned, with the same
    library and descriptor. *)
Definition build_twice (P : platform) (alloc_ok : alloc_site -> bool) (junk : cell)
    (E : list string) (dso_file : string) (intercept_fd : Z) : option preload_out :=
  o1 ← sudo_preload_dso P alloc_ok junk (array_of E) dso_file intercept_fd;
  a1 ← returned_array o1;
  sudo_preload_dso P alloc_ok junk a1 dso_file intercept_fd.

(** ** Environments for the examples *)

Definition env_two_each : list string :=
  ["LD_PRELOAD=a"; "HOME=/"; "LD_PRELOAD=b"; "TERM=x";
   "SUDO_INTERCEPT_FD=4"; "SUDO_INTERCEPT_FD=5"].

Definition env_five_preloads : list string :=
  ["LD_PRELOAD=a"; "LD_PRELOAD=b"; "LD_PRELOAD=c"; "LD_PRELOAD=d"; "LD_PRELOAD=e"].

(** ** Events by kind *)

Definition is_oracle_event (ev : event) : bool :=
  match ev with Ev_command_allowed _ _ _ _ => true | _ => false end.

Definition is_alloc_event (ev : event) : bool :=
  match ev with Ev_alloc _ => true | _ => false end.

(** A [stat] failure the loop of [resolve_path] does not pass over: the
    [default] of its [switch]. *)
Definition hard_error (e : errno_t) : bool :=
  match e with
  | EACCES | ELOOP | ENOTDIR | ENOENT => false
  | _ => true
  end.

(** ** The variadic entry points *)

(** execl flavors *)
Definition SUDO_EXECL : Z := 0.
Definition SUDO_EXECLE : Z := 1.
Definition SUDO_EXECLP : Z := 2.

(** One argument of a variadic call as [va_arg] finds it: a [char *],
    or the [char **] a caller of [execle] passes after the terminator. *)
Inductive va_item := VA_str (c : cell) | VA_env (e : cvec).

(** [while (va_arg(ap2, char * ) != NULL) argc++;] entered with [argc];
    [None] when the arguments end before a NULL is met. *)
Fixpoint va_count (ap2 : list va_item) (argc : nat) : option nat :=
  match ap2 with
  | VA_str (Some _) :: ap2' => va_count ap2' (S argc)
  | VA_str None :: _ => Some argc
  | _ => None
  end.

(** [while ((argv[argc] = va_arg(ap, char * )) != NULL) argc++;] entered
    with [argc]: the array, and what is left of [ap].  [None] is a write
    outside the array or a read past the arguments. *)
Fixpoint va_fill (ap : list va_item) (argv : list cell) (argc : nat)
    : option (list cell * list va_item) :=
  match ap with
  | VA_str c :: ap' =>
      argv' ← store argv argc c;
      match c with
      | Some _ => va_fill ap' argv' (S argc)
      | None => Some (argv', ap')
      end
  | _ => None
  end.

(** [static int execl_wrapper(int type, const char *name, const char *arg,
    va_list ap)]; [junk] is what [reallocarray] left in the new cells. *)
Definition execl_wrapper (H : host) (junk : cell) (type : Z) (name : cstr)
    (arg : cell) (ap : list va_item) : M Z :=
  match va_count ap 1 with
  | None => undefined
  | Some argc =>
      match reallocarray H (argc + 1) with
      | None =>
          _ ← put_errno ENOMEM;
          mret (-1)%Z
      | Some block =>
          _ ← emit (Ev_alloc block);
          match store (replicate (argc + 1) junk) 0 arg
                  ≫= (fun argv => va_fill ap argv 1) with
          | None => undefined
          | Some (cells, ap') =>
              let argv := {| vec_addr := block; vec_items := env_of cells |} in
              let envp :=
                if Z.eqb type SUDO_EXECLE
                then match ap' with VA_env e :: _ => Some e | _ => None end
                else Some (environ H) in
              match envp with
              | None => undefined
              | Some envp =>
                  _ ← exec_wrapper H name argv envp (Z.eqb type SUDO_EXECLP);
                  _ ← free (Some block);
                  mret (-1)%Z
              end
          end
      end
  end.

(** [execl(name, arg, ...)], the replacement (and [my_execl]). *)
Definition execl (H : host) (junk : cell) (name : cstr) (arg : cell)
    (ap : list va_item) : M Z :=
  _ ← execl_wrapper H junk SUDO_EXECL name arg ap;
  mret (-1)%Z.

(** [execle(name, arg, ...)], the replacement (and [my_execle]). *)
Definition execle (H : host) (junk : cell) (name : cstr) (arg : cell)
    (ap : list va_item) : M Z :=
  _ ← execl_wrapper H junk SUDO_EXECLE name arg ap;
  mret (-1)%Z.

(** [execlp(name, arg, ...)], the replacement (and [my_execlp]). *)
Definition execlp (H : host) (junk : cell) (name : cstr) (arg : cell)
    (ap : list va_item) : M Z :=
  _ ← execl_wrapper H junk SUDO_EXECLP name arg ap;
  mret (-1)%Z.

(** The variadic arguments of a well-formed call: strings, the
    terminator, and what follows it. *)
Definition va_args (args : list string) (tail : list va_item) : list va_item :=
  map (fun s => VA_str (Some s)) args ++ VA_str None :: tail.

(** [my_execv] under [HAVE___INTERPOSE]: [return execve(cmnd, argv,
    environ);].  That build defines no [execve] of its own: the name is
    the libc function, the one [exec_wrapper] stores in [fn]. *)
Definition my_execv (H : host) (libc_execve : sudo_fn_execve_t) (cmnd : cstr)
    (argv : cvec) : M Z :=
  _ ← call_execve libc_execve (Some (str_val cmnd))
        (Some (array_of (vec_items argv))) (Some (environ H));
  mret (-1)%Z.

(** ** [sudo_shl_get_next] *)

(** What [shl_get] reports for one loaded library: its file name, and
    through its handle what [shl_findsym] answers for a symbol and a
    type ([None] for a failure, which leaves [fn] as it was). *)
Record shl_descriptor := {
  filename : string;
  shl_findsym : string -> Z -> option sudo_fn_execve_t
}.

(** The process as [sudo_shl_get_next] sees it. *)
Record shl_host := {
  PATH_SUDO_INTERCEPT : string;
  sudo_basename : string -> string;
  (** the libraries [shl_get] numbers 0, 1, ...; it fails past the last *)
  shl_libs : list shl_descriptor
}.

(** [while (shl_get(idx++, &desc) == 0) { ... }] over the libraries from
    [idx] on, with what [fn] holds so far. *)
Fixpoint shl_loop (S : shl_host) (myname symbol : string) (type : Z)
    (libs : list shl_descriptor) (fn : option sudo_fn_execve_t)
    : option sudo_fn_execve_t :=
  match libs with
  | [] => fn
  | desc :: libs' =>
      let name := sudo_basename S (filename desc) in
      if String.eqb name myname then shl_loop S myname symbol type libs' fn
      else
        match shl_findsym desc symbol type with
        | Some f => Some f
        | None => shl_loop S myname symbol type libs' fn
        end
  end.

(** [static void *sudo_shl_get_next(const char *symbol, short type)] *)
Definition sudo_shl_get_next (S : shl_host) (symbol : string) (type : Z)
    : option sudo_fn_execve_t :=
  shl_loop S (sudo_basename S (PATH_SUDO_INTERCEPT S)) symbol type (shl_libs S) None.

(** A library other than the intercept library, by base name. *)
Definition other_library (S : shl_host) (desc : shl_descriptor) : bool :=
  negb (String.eqb (sudo_basename S (filename desc))
                   (sudo_basename S (PATH_SUDO_INTERCEPT S))).

(** ** The builder on any environment *)

(** An entry of the enable toggle, where the platform has one. *)
Definition is_enable (P : platform) (entry : string) : bool :=
  match RTLD_PRELOAD_ENABLE_VAR P with
  | Some var => has_key var entry
  | None => false
  end.

(** An entry the builder neither looks for nor writes. *)
Definition unmanaged (P : platform) (entry : string) : bool :=
  negb (is_preload P entry) && negb (is_intercept_fd entry) && negb (is_enable P entry).

(** An entry the counting loop may take out of the array. *)
Definition managed (P : platform) (intercept_fd : Z) (entry : string) : bool :=
  is_preload P entry || is_checked_fd P intercept_fd entry.

(** [l'] is [l] without some of its entries, each of which satisfies [m]. *)
Inductive removes (m : string -> bool) : list string -> list string -> Prop :=
| removes_nil : removes m [] []
| removes_keep x l l' : removes m l l' -> removes m (x :: l) (x :: l')
| removes_drop x l l' : m x = true -> removes m l l' -> removes m (x :: l) l'.

(** What the two indices and the two flags of the loop say, against the
    entries [K] the array holds. *)
Definition idx_ok (P : platform) (intercept_fd : Z) (s : scan) (K : list string) : Prop :=
  (forall p, preload_idx s = Some p ->
     exists e, K !! p = Some e /\ is_preload P e = true)
  /\ (forall q, intercept_idx s = Some q ->
     exists e, K !! q = Some e /\ is_checked_fd P intercept_fd e = true)
  /\ (dso_present s = true -> preload_idx s <> None)
  /\ (fd_present s = true -> intercept_idx s <> None).

(** The counting loop from a state [s] whose array holds [pre], the
    entries [suf] still to visit and [S k] NULLs, to the state [s'] it
    ends in: for every environment, whatever its duplicates.  The array
    then holds [pre], what is left of [suf] and only NULLs; [env_len] is
    the number of entries or one more. *)
Definition scan_any (P : platform) (intercept_fd : Z) (pre suf : list string)
    (k : nat) (s s' : scan) : Prop :=
  exists K' k' oc,
    envp s' = map Some (pre ++ K') ++ replicate (S k') None
    /\ env_len s' = length (pre ++ K') + oc /\ oc <= 1 /\ oc + k <= k'
    /\ length K' + k' = length suf + k
    /\ removes (managed P intercept_fd) suf K'
    /\ idx_ok P intercept_fd s' (pre ++ K')
    /\ (dso_enabled s = true -> dso_enabled s' = true)
    /\ (dso_enabled s' = true ->
        dso_enabled s = true \/ existsb (is_enable P) suf = true).

(** The cells below [n] hold entries. *)
Definition filled (n : nat) (a : list cell) : Prop := forall i, i < n -> rd a i <> None.

(** The entries the second half of the builder appends: the cells it
    needs behind [env_len], the terminator apart. *)
Definition appends (P : platform) (intercept_fd : Z) (s : scan) : nat :=
  b2n (bool_decide (preload_idx s = None))
  + match RTLD_PRELOAD_ENABLE_VAR P with
    | Some _ => b2n (negb (dso_enabled s))
    | None => 0
    end
  + b2n (bool_decide (intercept_idx s = None) && negb (Z.eqb intercept_fd (-1))).

(** [K'] has every entry of [K] where [K] has it. *)
Definition extends (K K' : list string) : Prop :=
  forall i x, K !! i = Some x -> K' !! i = Some x.

(** The new preload entry, written when the environment has none. *)
Definition new_preload (P : platform) (dso : string) : string :=
  match RTLD_PRELOAD_DEFAULT P with
  | Some dflt => fmt_preload P dso dflt
  | None => sudo_new_key_val (RTLD_PRELOAD_VAR P) dso
  end.

(** The state of the counting loop [n] entries of other variables
    later. *)
Definition advance (n : nat) (en : bool) (s : scan) : scan :=
  {| envp := envp s; env_len := env_len s + n; preload_idx := preload_idx s;
     intercept_idx := intercept_idx s; fd_present := fd_present s;
     dso_present := dso_present s; dso_enabled := dso_enabled s || en |}.

(** ** More hosts and inputs for the examples *)

(** A process in which no other [execve] can be found. *)
Definition host_without_execve : host :=
  {| PATH_MAX := 4096; PATH_SUDO_BSHELL := "/bin/sh";
     environ := sample_environ; stat := sample_stat;
     command_allowed := oracle_keep;
     next_execve := None;
     reallocarray := alloc_none; cmnd_buf := 50 |}.

(** A kernel that runs whatever it is given. *)
Definition execve_runs : sudo_fn_execve_t := fun _ _ _ => None.

(** A process whose oracle rewrites the request, on that kernel. *)
Definition running_host : host :=
  {| PATH_MAX := 4096; PATH_SUDO_BSHELL := "/bin/sh";
     environ := sample_environ; stat := sample_stat;
     command_allowed := oracle_rewrite;
     next_execve := Some execve_runs;
     reallocarray := alloc_none; cmnd_buf := 50 |}.

Definition shell_cmnd : cstr := {| str_addr := 3; str_val := "/bin/sh" |}.
Definition bare_cmnd : cstr := {| str_addr := 4; str_val := "cmd" |}.

(** Entries of other variables between duplicates of the two
    variables. *)
Definition env_mixed : list string :=
  ["HOME=/"; "LD_PRELOAD=a"; "LD_PRELOAD=b"; "TERM=x"; "SUDO_INTERCEPT_FD=4";
   "LD_PRELOAD=c"; "LD_PRELOAD=d"; "SHELL=/bin/sh"].

(** * Properties *)

(** ** The exec gatekeeper *)

Section Exec.
Context (H : host).

(** The search along PATH makes no call the record keeps. *)
Lemma path_loop_trace cmnd out_size fuel : forall cp errval w,
  trace (path_loop H cmnd out_size fuel cp errval w).2 = trace w.
Proof.
  induction fuel as [|fuel IH]; intros cp errval w; simpl; [done|].
  destruct cp as [|c cp]; [done|].
  destruct (split_colon (String c cp)) as [dir colon].
  destruct (PATH_MAX H <=? _)%nat; [by rewrite IH|].
  destruct (stat H _) as [e|].
  - destruct e; simpl; try done; by rewrite IH.
  - by destruct (out_size <=? _)%nat.
Qed.

Lemma resolve_path_trace cmnd out_size w :
  trace (resolve_path H cmnd out_size w).2 = trace w.
Proof.
  unfold resolve_path. destruct (find_PATH _); [|done].
  apply path_loop_trace.
Qed.

(** The first block of [exec_wrapper] always falls through or returns;
    it makes no recorded call. *)
Lemma resolve_cmnd_returns cmnd is_execvp w :
  exists r w', resolve_cmnd H cmnd is_execvp w = (Returns r, w')
               /\ trace w' = trace w.
Proof.
  unfold resolve_cmnd.
  destruct (contains_char _ _); [by eexists _, _|].
  destruct is_execvp; simpl.
  - pose proof (resolve_path_trace (str_val cmnd) (PATH_MAX H) w) as Ht.
    destruct (resolve_path _ _ _ _) as [[p|] w']; by eexists _, _.
  - by eexists _, _.
Qed.

End Exec.

Ltac exec_unfold :=
  unfold run, exec_wrapper, shell_fallback, call_execve, free, emit, put_errno,
    get_errno, undefined, mbind, M_bind, mret, M_ret in *.

(** C1. In every call of [exec_wrapper] in which the policy oracle
    answered with a denial, the real exec implementation is not invoked,
    the call returns -1 and [errno] is [EACCES]. *)
Theorem exec_wrapper_denied (H : host) cmnd argv envp is_execvp e0 c a e :
  In (Ev_command_allowed c a e false)
     (trace (run (exec_wrapper H cmnd argv envp is_execvp) e0).2) ->
  (run (exec_wrapper H cmnd argv envp is_execvp) e0).1 = Returns (-1)%Z
  /\ errno (run (exec_wrapper H cmnd argv envp is_execvp) e0).2 = EACCES
  /\ forall p a' e', ~ In (Ev_execve p a' e')
       (trace (run (exec_wrapper H cmnd argv envp is_execvp) e0).2).
Proof.
  exec_unfold.
  destruct (resolve_cmnd_returns H cmnd is_execvp {| errno := e0; trace := [] |})
    as (r & w1 & -> & Ht).
  destruct w1 as [e1 t1]; simpl in Ht; subst t1.
  destruct r as [c'|]; [|simpl; tauto].
  destruct (next_execve H) as [fn|]; [|simpl; tauto].
  destruct (command_allowed H c' argv envp) as [allowed [[ncmnd nargv] nenvp]].
  destruct allowed; simpl.
  - repeat (case_match; simpl in *; simplify_eq); simpl;
      intuition discriminate.
  - repeat (case_match; simpl in *; simplify_eq); simpl.
    all: intros _; split_and!; try done; intros; intuition discriminate.
Qed.

Lemma exec_wrapper_denied_witness :
  let r := run (exec_wrapper (sample_host oracle_deny alloc_none)
                  script_cmnd script_argv caller_envp true) ENOENT in
  In (Ev_command_allowed script_cmnd script_argv caller_envp false) (trace r.2)
  /\ r.1 = Returns (-1)%Z /\ errno r.2 = EACCES
  /\ forall p a' e', ~ In (Ev_execve p a' e') (trace r.2).
Proof.
  assert (Hin : In (Ev_command_allowed script_cmnd script_argv caller_envp false)
    (trace (run (exec_wrapper (sample_host oracle_deny alloc_none)
                   script_cmnd script_argv caller_envp true) ENOENT).2)).
  { vm_compute. left. reflexivity. }
  split; [exact Hin|].
  exact (exec_wrapper_denied (sample_host oracle_deny alloc_none)
           script_cmnd script_argv caller_envp true ENOENT _ _ _ Hin).
Defined.

Ltac exec_goal :=
  unfold run, exec_wrapper, shell_fallback, call_execve, free, emit, put_errno,
    get_errno, undefined, mbind, M_bind, mret, M_ret.

Ltac in_trace := repeat (rewrite ?in_app_iff; cbn); auto 10.

Lemma array_of_cons x l : array_of (x :: l) = Some x :: array_of l.
Proof. reflexivity. Qed.

Lemma array_of_length l : length (array_of l) = S (length l).
Proof. unfold array_of. rewrite length_app, length_map. simpl. lia. Qed.

Lemma In_None_map_Some (l : list string) : ~ In None (map Some l).
Proof. induction l; simpl; intuition discriminate. Qed.

Lemma memcpy_same_length (l1 l2 : list string) :
  length l2 = length l1 -> l1 <> [] ->
  memcpy_cells (Some (array_of l2)) 1 (length l1) = Some (array_of (tail l2)).
Proof.
  intros Hlen Hne. destruct l1 as [|x l1]; [done|]. destruct l2 as [|y l2]; [done|].
  injection Hlen as Hlen. unfold memcpy_cells. cbn [length tail].
  rewrite !array_of_length, array_of_cons.
  destruct (decide _) as [_|Hn]; [|simpl in Hn; lia].
  cbn [drop]. f_equal.
  rewrite <- Hlen. apply firstn_all2. rewrite array_of_length. lia.
Qed.

(** Where the oracle shows up in the record of a call, the first block
    produced the command it was asked about, the real [execve] had been
    found, and it was asked about the caller's arguments and the
    environment [exec_wrapper] was given. *)
Lemma exec_wrapper_oracle_event (H : host) cmnd argv envp is_execvp e0 c a e v :
  In (Ev_command_allowed c a e v)
     (trace (run (exec_wrapper H cmnd argv envp is_execvp) e0).2) ->
  exists w1 fn,
    resolve_cmnd H cmnd is_execvp {| errno := e0; trace := [] |} = (Returns (Some c), w1)
    /\ next_execve H = Some fn /\ a = argv /\ e = envp
    /\ v = (command_allowed H c argv envp).1.
Proof.
  exec_goal.
  destruct (resolve_cmnd_returns H cmnd is_execvp {| errno := e0; trace := [] |})
    as (r0 & w0 & Heq & Ht).
  rewrite Heq. destruct w0 as [e1 t1]; simpl in Ht; subst t1.
  destruct r0 as [c'|]; [|simpl; tauto].
  destruct (next_execve H) as [fn|]; [|simpl; tauto].
  destruct (command_allowed H c' argv envp) as [allowed [[nc na] ne]] eqn:Hor.
  simpl.
  assert (Hgoal : exists w1 fn0,
    (Returns (Some c'), {| errno := e1; trace := [] |}) = (Returns (Some c'), w1)
    /\ Some fn = Some fn0 /\ argv = argv /\ envp = envp
    /\ allowed = (command_allowed H c' argv envp).1).
  { eexists _, _. rewrite Hor. split_and!; reflexivity. }
  repeat (case_match; simpl in *; simplify_eq); in_trace;
    intuition (simplify_eq; auto).
Qed.

(** The real [execve] is only ever handed the environment the oracle
    returned with an approval. *)
Lemma exec_wrapper_exec_event (H : host) cmnd argv envp is_execvp e0 p a e :
  In (Ev_execve p a e)
     (trace (run (exec_wrapper H cmnd argv envp is_execvp) e0).2) ->
  exists c nc na, command_allowed H c argv envp = (true, (nc, na, e)).
Proof.
  exec_goal.
  destruct (resolve_cmnd_returns H cmnd is_execvp {| errno := e0; trace := [] |})
    as (r0 & w0 & Heq & Ht).
  rewrite Heq. destruct w0 as [e1 t1]; simpl in Ht; subst t1.
  destruct r0 as [c'|]; [|simpl; tauto].
  destruct (next_execve H) as [fn|]; [|simpl; tauto].
  destruct (command_allowed H c' argv envp) as [allowed [[nc na] ne]] eqn:Hor.
  simpl.
  repeat (case_match; simpl in *; simplify_eq); in_trace;
    intuition (simplify_eq; eauto 10).
Qed.

(** Ownership on every return but one: unless the array for the shell
    could not be allocated, a returning call ends with exactly the frees
    of [release_events], preceded by the free of the shell array when
    one was allocated, and frees nothing before that. *)
Lemma exec_wrapper_release (H : host) cmnd argv envp is_execvp e0 c w1 fn
    allowed ncmnd nargv nenvp r w' :
  resolve_cmnd H cmnd is_execvp {| errno := e0; trace := [] |} = (Returns (Some c), w1) ->
  next_execve H = Some fn ->
  command_allowed H c argv envp = (allowed, (ncmnd, nargv, nenvp)) ->
  ~ fallback_alloc_fails H fn argv is_execvp allowed ncmnd nargv nenvp ->
  run (exec_wrapper H cmnd argv envp is_execvp) e0 = (Returns r, w') ->
  exists t shargv,
    trace w' = t ++ map Ev_free shargv ++ release_events c argv envp ncmnd nargv nenvp
    /\ filter is_free_event t = []
    /\ (forall a, In a shargv -> is_execvp = true /\ shargv = [a] /\ In (Ev_alloc a) t).
Proof.
  intros Hres Hfn Hor Hnf. unfold fallback_alloc_fails in Hnf. exec_goal. rewrite Hres.
  destruct (resolve_cmnd_returns H cmnd is_execvp {| errno := e0; trace := [] |})
    as (r0 & w0 & Heq & Ht). rewrite Hres in Heq. simplify_eq.
  destruct w0 as [e1 t1]; simpl in Ht; subst t1.
  rewrite Hfn, Hor. unfold release_events.
  destruct allowed; simpl.
  - destruct (fn _ _ _) as [e|] eqn:Hfn1; simpl; [|discriminate].
    destruct (bool_decide (e = ENOEXEC)) eqn:He; simpl.
    + apply bool_decide_eq_true in He. subst e.
      destruct is_execvp; simpl.
      * destruct (reallocarray H _) as [a|] eqn:Hra; simpl; [|tauto].
        destruct (memcpy_cells _ _ _); simpl; [|discriminate].
        destruct (fn _ _ _) as [e|] eqn:Hfn2; simpl; [|discriminate].
        intros Hrun.
        eexists [_;_;_;_], [a].
        repeat (case_match; simpl in *; simplify_eq); simpl; split_and!; try done;
          intros ? [<-|[]]; split_and!; auto.
      * intros Hrun. eexists [_;_], [].
        repeat (case_match; simpl in *; simplify_eq); simpl; split_and!; try done; auto.
    + intros Hrun. eexists [_;_], [].
        repeat (case_match; simpl in *; simplify_eq); simpl; split_and!; try done; auto.
  - intros Hrun. eexists [_], [].
        repeat (case_match; simpl in *; simplify_eq); simpl; split_and!; try done; auto.
Qed.

Lemma no_free_in (t : list event) a : filter is_free_event t = [] -> ~ In (Ev_free a) t.
Proof.
  intros Hf Hin. apply list_elem_of_In in Hin.
  assert (Ev_free a ∈ filter is_free_event t) as Hin' by (by apply list_elem_of_filter).
  rewrite Hf in Hin'. by apply elem_of_nil in Hin'.
Qed.

(** C4. The failing input: a PATH-searching call whose command the
    kernel rejects with ENOEXEC, an oracle that returned three fresh
    objects, and no memory for the shell's argument array.  The call
    returns -1 and has freed none of the three. *)
Theorem exec_wrapper_skips_release :
  let H := sample_host oracle_copy alloc_none in
  let r := run (exec_wrapper H script_cmnd script_argv caller_envp true) ENOENT in
  command_allowed H script_cmnd script_argv caller_envp =
    (true, (Some {| str_addr := 11; str_val := "/usr/bin/script" |},
            Some {| vec_addr := 12; vec_items := ["script"; "x"; "y"] |},
            Some {| vec_addr := 13; vec_items := ["LANG=C"] |}))
  /\ r.1 = Returns (-1)%Z
  /\ release_events script_cmnd script_argv caller_envp
       (Some {| str_addr := 11; str_val := "/usr/bin/script" |})
       (Some {| vec_addr := 12; vec_items := ["script"; "x"; "y"] |})
       (Some {| vec_addr := 13; vec_items := ["LANG=C"] |})
     = [Ev_free 11; Ev_free 12; Ev_free 13]
  /\ filter is_free_event (trace r.2) = [].
Proof. vm_compute. auto. Qed.

(** C7 as stated fails: when the oracle substitutes the command and the
    arguments, the shell is run on the substituted ones, not on the
    resolved path and the caller's arguments. *)
Lemma shell_fallback_runs_rewritten_request :
  let r := run (exec_wrapper (sample_host oracle_rewrite (alloc_at 500))
                  script_cmnd script_argv caller_envp true) ENOENT in
  filter is_execve_event (trace r.2) =
    [Ev_execve (Some "/opt/policy/script")
       (Some (array_of ["script"; "--checked"; "y"])) (Some caller_envp);
     Ev_execve (Some "/bin/sh")
       (Some (array_of ["sh"; "/opt/policy/script"; "--checked"; "y"])) (Some caller_envp)]
  /\ ~ In (Ev_execve (Some "/bin/sh")
             (Some (array_of ["sh"; "/usr/bin/script"; "x"; "y"])) (Some caller_envp))
          (trace r.2).
Proof. vm_compute. split; [reflexivity|]. intuition discriminate. Qed.

(** C7, amended. After an approved real exec that failed with ENOEXEC:
    a PATH-searching call runs the real exec once more, on the system
    shell, with ["sh"], the command the oracle returned and the
    arguments the oracle returned from index 1 on (the resolved path and
    the caller's arguments 1.. when the oracle changed neither), in the
    environment the oracle returned; any other call makes no second
    attempt and returns -1 with [errno] still ENOEXEC. *)
Theorem exec_wrapper_enoexec (H : host) cmnd argv envp is_execvp e0 c w1 fn nc na nenvp :
  resolve_cmnd H cmnd is_execvp {| errno := e0; trace := [] |} = (Returns (Some c), w1) ->
  next_execve H = Some fn ->
  command_allowed H c argv envp = (true, (Some nc, Some na, nenvp)) ->
  fn (Some (str_val nc)) (Some (array_of (vec_items na))) nenvp = Some ENOEXEC ->
  let r := run (exec_wrapper H cmnd argv envp is_execvp) e0 in
  let first := Ev_execve (Some (str_val nc)) (Some (array_of (vec_items na))) nenvp in
  (is_execvp = true ->
     forall shargv, reallocarray H (length (vec_items argv) + 2) = Some shargv ->
     length (vec_items na) = length (vec_items argv) -> vec_items argv <> [] ->
     filter is_execve_event (trace r.2) =
       [first; Ev_execve (Some (PATH_SUDO_BSHELL H))
                 (Some (array_of ("sh" :: str_val nc :: tail (vec_items na)))) nenvp])
  /\ (is_execvp = false ->
     r.1 = Returns (-1)%Z /\ errno r.2 = ENOEXEC
     /\ filter is_execve_event (trace r.2) = [first]).
Proof.
  intros Hres Hfn Hor Hex. cbv zeta.
  destruct (resolve_cmnd_returns H cmnd is_execvp {| errno := e0; trace := [] |})
    as (r0 & w0 & Heq & Ht). rewrite Hres in Heq. simplify_eq.
  destruct w0 as [e1 t1]; simpl in Ht; subst t1.
  split; intros ->.
  - intros shargv Hra Hlen Hne. exec_goal. rewrite Hres, Hfn, Hor. simpl.
    rewrite Hex. simpl. rewrite Hra. simpl.
    rewrite (memcpy_same_length _ _ Hlen Hne). simpl.
    destruct (fn (Some (PATH_SUDO_BSHELL H)) _ _); simpl; [|done].
    repeat (case_match; simpl in *; simplify_eq); simpl; done.
  - exec_goal. rewrite Hres, Hfn, Hor. simpl. rewrite Hex. simpl.
    repeat (case_match; simpl in *; simplify_eq); simpl; done.
Qed.

Lemma exec_wrapper_enoexec_witness :
  let H := sample_host oracle_keep (alloc_at 500) in
  command_allowed H script_cmnd script_argv caller_envp =
    (true, (Some script_cmnd, Some script_argv, Some caller_envp))
  /\ filter is_execve_event
       (trace (run (exec_wrapper H script_cmnd script_argv caller_envp true) ENOENT).2) =
     [Ev_execve (Some "/usr/bin/script") (Some (array_of ["script"; "x"; "y"]))
        (Some caller_envp);
      Ev_execve (Some "/bin/sh") (Some (array_of ["sh"; "/usr/bin/script"; "x"; "y"]))
        (Some caller_envp)].
Proof.
  split; [reflexivity|].
  refine (proj1 (exec_wrapper_enoexec (sample_host oracle_keep (alloc_at 500))
                   script_cmnd script_argv caller_envp true ENOENT script_cmnd
                   {| errno := ENOENT; trace := [] |} execve_scripts_only
                   script_cmnd script_argv (Some caller_envp) _ _ _ _)
                eq_refl 500 _ _ _); try reflexivity.
  discriminate.
Defined.

(** C9 as stated fails in its last clause: the oracle hands back the
    environment it was given, an object other than the caller's [envp],
    and it is not freed; the comparison is not made with the caller's
    [envp]. *)
Lemma execve_release_ignores_caller_envp :
  let H := sample_host oracle_keep alloc_none in
  let r := run (execve H script_cmnd script_argv caller_envp) ENOENT in
  command_allowed H script_cmnd script_argv (environ H) =
    (true, (Some script_cmnd, Some script_argv, Some sample_environ))
  /\ r.1 = Returns (-1)%Z
  /\ ~ env_release_decided_by caller_envp sample_environ (trace r.2).
Proof.
  cbv zeta. split; [reflexivity|]. split; [reflexivity|].
  unfold env_release_decided_by. intros [_ Hfree].
  assert (Hne : vec_addr sample_environ <> vec_addr caller_envp) by (vm_compute; discriminate).
  apply Hfree in Hne. vm_compute in Hne. intuition discriminate.
Qed.

(** C9, amended. The replacement [execve] (and [my_execve]) does not
    use its [envp] parameter at all: the oracle is asked about
    [environ], the real exec gets the environment the oracle returned
    for [environ], and whether that environment is freed is decided by
    comparing it with [environ]. *)
Theorem execve_uses_environ (H : host) cmnd argv envp :
  (forall envp', execve H cmnd argv envp = execve H cmnd argv envp')
  /\ my_execve H cmnd argv envp = execve H cmnd argv envp
  /\ (forall e0 c a e v,
        In (Ev_command_allowed c a e v) (trace (run (execve H cmnd argv envp) e0).2) ->
        a = argv /\ e = environ H)
  /\ (forall e0 p a e,
        In (Ev_execve p a e) (trace (run (execve H cmnd argv envp) e0).2) ->
        exists c nc na, command_allowed H c argv (environ H) = (true, (nc, na, e)))
  /\ (forall e0 c a e v nc na ne r w',
        run (execve H cmnd argv envp) e0 = (Returns r, w') ->
        In (Ev_command_allowed c a e v) (trace w') ->
        command_allowed H c a e = (v, (nc, na, Some ne)) ->
        str_addr <$> nc <> Some (vec_addr ne) ->
        vec_addr <$> na <> Some (vec_addr ne) ->
        env_release_decided_by (environ H) ne (trace w')).
Proof.
  split; [done|]. split; [done|].
  unfold execve. split_and!.
  - intros e0 c a e v Hin.
    apply exec_wrapper_oracle_event in Hin as (? & ? & ? & ? & ? & ? & ?). done.
  - intros e0 p a e Hin. by apply exec_wrapper_exec_event in Hin.
  - intros e0 c a e v nc na ne r w' Hrun Hin Hor Hnc Hna.
    pose proof Hin as Hin'.
    replace w' with ((run (exec_wrapper H cmnd argv (environ H) false) e0).2) in Hin'
      by (by rewrite Hrun).
    apply exec_wrapper_oracle_event in Hin' as (w1 & fn & Hres & Hfn & -> & -> & Hv).
    destruct (exec_wrapper_release H cmnd argv (environ H) false e0 c w1 fn v nc na
                (Some ne) r w' Hres Hfn Hor) as (t & sh & Ht & Hnofree & Hsh); [|done|].
    { intros (_ & ? & _). done. }
    destruct sh as [|a sh]; [|destruct (Hsh a) as [? _]; [by left|done]].
    unfold env_release_decided_by. rewrite Ht. simpl.
    rewrite in_app_iff. unfold release_events. rewrite !in_app_iff.
    pose proof (no_free_in t (vec_addr ne) Hnofree) as Hnot.
    split.
    + intros [?|[Hc|[Ha|He]]]; [done|..].
      * case_bool_decide; [done|]. destruct nc; simpl in *; [|done].
        destruct Hc as [Hc|[]]. simplify_eq. exfalso. apply Hnc. by f_equal.
      * case_bool_decide; [done|]. destruct na; simpl in *; [|done].
        destruct Ha as [Hc|[]]. simplify_eq. exfalso. apply Hna. by f_equal.
      * case_bool_decide as Hb; [done|]. simpl in Hb. intros Heq. apply Hb. by f_equal.
    + intros Hne. right. right. right. case_bool_decide as Hb; simpl in *; [|by left].
      simplify_eq.
Qed.

Lemma execve_uses_environ_witness :
  let H := sample_host oracle_copy alloc_none in
  let w := (run (execve H script_cmnd script_argv caller_envp) ENOENT).2 in
  In (Ev_command_allowed script_cmnd script_argv (environ H) true) (trace w)
  /\ env_release_decided_by (environ H)
       {| vec_addr := 13; vec_items := vec_items sample_environ |} (trace w).
Proof.
  cbv zeta.
  assert (Hin : In (Ev_command_allowed script_cmnd script_argv
                      (environ (sample_host oracle_copy alloc_none)) true)
    (trace (run (execve (sample_host oracle_copy alloc_none)
                   script_cmnd script_argv caller_envp) ENOENT).2)).
  { vm_compute. left. reflexivity. }
  split; [exact Hin|].
  refine (proj2 (proj2 (proj2 (proj2
            (execve_uses_environ (sample_host oracle_copy alloc_none)
               script_cmnd script_argv caller_envp))))
          ENOENT script_cmnd script_argv _ true
          (Some {| str_addr := 11; str_val := "/usr/bin/script" |})
          (Some {| vec_addr := 12; vec_items := ["script"; "x"; "y"] |})
          _ (-1)%Z _ _ Hin _ _ _); try reflexivity; vm_compute; discriminate.
Defined.

(** C10. In the fallback block the number of copied cells is counted on
    the caller's [argv] while the cells come from the oracle's [nargv],
    from index 1.  The copy stays inside [nargv] and the vector handed
    to the shell holds a terminator only if [nargv] is as long as
    [argv]; with equal lengths and at least one argument both hold. *)
Theorem shell_fallback_bounds (H : host) fn argv nc na nenvp shargv w :
  reallocarray H (length (vec_items argv) + 2) = Some shargv ->
  let r := shell_fallback H fn argv (Some nc) (Some na) nenvp w in
  (r.1 <> Undefined ->
     In (Ev_execve (Some (PATH_SUDO_BSHELL H)) (Some (shargv_cells argv nc na)) nenvp)
        (trace r.2))
  /\ (r.1 <> Undefined /\ In None (shargv_cells argv nc na) <->
      length (vec_items na) = length (vec_items argv) /\ vec_items argv <> []).
Proof.
  intros Hra. unfold shell_fallback, shargv_cells. rewrite Hra.
  exec_goal. simpl.
  destruct argv as [aa argv], na as [ia na]; simpl.
  unfold memcpy_cells.
  destruct argv as [|a0 argv]; simpl.
  { split.
    - intros _. destruct (fn _ _ _); in_trace.
    - split; [intros [_ [?|[?|[]]]]; discriminate|]. intros [_ ?]; done. }
  rewrite array_of_length.
  destruct (decide _) as [Hle|Hgt]; simpl.
  - split.
    + intros _. destruct (fn _ _ _); in_trace.
    + destruct na as [|n0 na]; simpl in Hle; [lia|].
      rewrite array_of_cons. simpl. rewrite drop_0.
      split.
      * intros [_ [?|[?|Hin]]]; try discriminate.
        split; [|done].
        assert (length na = length argv \/ length argv < length na) as [?|Hlt] by lia; [lia|].
        exfalso. unfold array_of in Hin.
        rewrite take_app_le in Hin by (rewrite length_map; lia).
        apply (In_None_map_Some (take (S (length argv)) na)).
        by rewrite <- firstn_map.
      * intros [Hlen _]. split.
        { by destruct (fn _ _ _). }
        right; right. injection Hlen as Hlen. rewrite <- Hlen.
        unfold array_of. rewrite firstn_all2 by (rewrite length_app, length_map; simpl; lia).
        apply in_app_iff. right. by left.
  - split; [done|]. split; [intros [? _]; done|].
    intros [Hlen _]. lia.
Qed.

Lemma shell_fallback_bounds_witness :
  let H := sample_host oracle_keep (alloc_at 500) in
  let r := shell_fallback H execve_scripts_only script_argv (Some script_cmnd)
             (Some script_argv) (Some caller_envp) {| errno := ENOEXEC; trace := [] |} in
  reallocarray H (length (vec_items script_argv) + 2) = Some 500
  /\ (r.1 <> Undefined ->
      In (Ev_execve (Some "/bin/sh")
            (Some (array_of ["sh"; "/usr/bin/script"; "x"; "y"])) (Some caller_envp))
         (trace r.2)).
Proof.
  split; [reflexivity|].
  exact (proj1 (shell_fallback_bounds (sample_host oracle_keep (alloc_at 500))
                  execve_scripts_only script_argv script_cmnd script_argv
                  (Some caller_envp) 500 {| errno := ENOEXEC; trace := [] |} eq_refl)).
Defined.

(** ** The path resolver *)

Section Resolve.
Context (H : host) (cmnd : string) (out_size : nat).

Lemma split_colon_shorter cp dir rest :
  split_colon cp = (dir, Some rest) -> String.length rest < String.length cp.
Proof.
  revert dir rest. induction cp as [|c cp IH]; intros dir rest; simpl; [done|].
  destruct (Ascii.eqb c ":").
  - intros [= <- <-]. lia.
  - destruct (split_colon cp) as [d r]. intros [= <- ->].
    specialize (IH _ _ eq_refl). lia.
Qed.

Lemma path_loop_try_dirs fuel : forall cp errval w,
  String.length cp < fuel ->
  path_loop H cmnd out_size fuel cp errval w =
  try_dirs H cmnd out_size (path_dirs_fuel fuel cp) errval w.
Proof.
  induction fuel as [|fuel IH]; intros cp errval w Hlt; [lia|].
  destruct cp as [|c cp]; [done|].
  cbn [path_loop path_dirs_fuel].
  destruct (split_colon (String c cp)) as [dir colon] eqn:Hsp.
  assert (Hlt' : String.length (match colon with Some rest => rest | None => "" end) < fuel).
  { destruct colon as [rest|]; [|simpl in *; lia].
    apply split_colon_shorter in Hsp. lia. }
  cbn [try_dirs].
  destruct (PATH_MAX H <=? _)%nat; [by apply IH|].
  destruct (stat H _) as [e|]; [|done].
  destruct e; try done; by apply IH.
Qed.

Lemma path_dirs_fuel_irrel f1 : forall f2 cp,
  String.length cp < f1 -> String.length cp < f2 ->
  path_dirs_fuel f1 cp = path_dirs_fuel f2 cp.
Proof.
  induction f1 as [|f1 IH]; intros f2 cp H1 H2; [lia|].
  destruct f2 as [|f2]; [lia|].
  destruct cp as [|c cp]; [done|].
  cbn [path_dirs_fuel].
  destruct (split_colon (String c cp)) as [dir colon] eqn:Hsp.
  f_equal.
  assert (String.length (match colon with Some rest => rest | None => "" end)
          < String.length (String c cp)).
  { destruct colon as [rest|]; [|simpl in *; lia].
    by apply split_colon_shorter in Hsp. }
  apply IH; lia.
Qed.

Lemma path_dirs_fuel_enough fuel cp :
  String.length cp < fuel -> path_dirs_fuel fuel cp = path_dirs cp.
Proof. intros. apply path_dirs_fuel_irrel; lia. Qed.

Lemma path_loop_fuel_enough fuel cp errval w :
  String.length cp < fuel ->
  path_loop H cmnd out_size fuel cp errval w =
  path_loop H cmnd out_size (S (String.length cp)) cp errval w.
Proof.
  intros. rewrite !path_loop_try_dirs by lia.
  by rewrite !path_dirs_fuel_enough by lia.
Qed.

Lemma resolve_path_try_dirs w :
  resolve_path H cmnd out_size w =
  match find_PATH (vec_items (environ H)) with
  | None => (None, set_errno ENOENT w)
  | Some cp => try_dirs H cmnd out_size (path_dirs cp) ENOENT w
  end.
Proof.
  unfold resolve_path. destruct (find_PATH _) as [cp|]; [|done].
  apply path_loop_try_dirs. lia.
Qed.



Lemma try_dirs_no_match dirs : forall errval w,
  forallb (passed_over H cmnd) dirs = true ->
  (try_dirs H cmnd out_size dirs errval w).1 = None
  /\ errno (try_dirs H cmnd out_size dirs errval w).2
     = fold_left (remembered H cmnd) dirs errval.
Proof.
  induction dirs as [|d dirs IH]; intros errval w Hb; [done|].
  cbn [forallb] in Hb. apply andb_prop in Hb as [Hd Hb].
  cbn [try_dirs fold_left]. unfold remembered at 2, denied. unfold passed_over in Hd.
  unfold too_long in *.
  destruct (PATH_MAX H <=? _)%nat; [by apply IH|].
  simpl in Hd. apply bool_decide_eq_true, list_elem_of_In in Hd. simpl in Hd. simpl.
  destruct (stat H (candidate d cmnd)) as [e|].
  + destruct e; try (by apply IH); intuition discriminate.
  + intuition discriminate.
Qed.


Lemma fold_remembered_none dirs : forall errval,
  existsb (too_long H cmnd) dirs = false ->
  existsb (denied H cmnd) dirs = false ->
  fold_left (remembered H cmnd) dirs errval = errval.
Proof.
  induction dirs as [|d dirs IH]; intros errval Ht Hd; [done|].
  cbn [existsb] in Ht, Hd.
  apply orb_false_elim in Ht as [Ht1 Ht2]. apply orb_false_elim in Hd as [Hd1 Hd2].
  cbn [fold_left]. unfold remembered at 2. rewrite Ht1, Hd1. by apply IH.
Qed.

End Resolve.

Lemma string_length_app (s1 s2 : string) :
  String.length (s1 ++ s2) = String.length s1 + String.length s2.
Proof. induction s1 as [|c s1 IH]; simpl; [done|]. by rewrite IH. Qed.

Lemma split_colon_app d rest :
  contains_char ":" d = false ->
  split_colon (d ++ String ":" rest) = (d, Some rest).
Proof.
  induction d as [|c d IH]; simpl; [done|].
  intros Hc. apply orb_false_elim in Hc as [Hc1 Hc2].
  rewrite Hc1, (IH Hc2). done.
Qed.

Lemma split_colon_none d :
  contains_char ":" d = false -> split_colon d = (d, None).
Proof.
  induction d as [|c d IH]; simpl; [done|].
  intros Hc. apply orb_false_elim in Hc as [Hc1 Hc2].
  rewrite Hc1, (IH Hc2). done.
Qed.

Lemma path_dirs_cons d rest :
  contains_char ":" d = false ->
  path_dirs (d ++ String ":" rest) = d :: path_dirs rest.
Proof.
  intros Hc. unfold path_dirs at 1. cbn [path_dirs_fuel].
  rewrite (split_colon_app _ _ Hc).
  assert (Hlen : String.length rest < String.length (d ++ String ":" rest)).
  { rewrite string_length_app. simpl. lia. }
  destruct (d ++ String ":" rest)%string eqn:Hs.
  - destruct d; discriminate.
  - rewrite <- Hs in Hlen |- *. f_equal. apply path_dirs_fuel_enough. exact Hlen.
Qed.

Lemma path_dirs_single d :
  d <> EmptyString -> contains_char ":" d = false -> path_dirs d = [d].
Proof.
  intros Hne Hc. unfold path_dirs. destruct d as [|c d]; [done|].
  cbn [path_dirs_fuel]. rewrite (split_colon_none _ Hc).
  by destruct (String.length (String c d)).
Qed.

(** The loop visits the colon-separated components of PATH in the order
    they are written (a trailing empty component is not visited, which
    is why the last one is taken to be non-empty here). *)
Lemma path_dirs_join_colon dirs :
  forallb (fun d => negb (contains_char ":" d)) dirs = true ->
  last dirs <> Some EmptyString ->
  path_dirs (join_colon dirs) = dirs.
Proof.
  induction dirs as [|d dirs IH]; intros Hc Hl; [done|].
  cbn [forallb] in Hc. apply andb_prop in Hc as [Hd Hc].
  apply negb_true_iff in Hd.
  destruct dirs as [|d2 dirs].
  - simpl. apply path_dirs_single; [|done]. intros ->. by apply Hl.
  - change (join_colon (d :: d2 :: dirs))
      with (d ++ String ":" (join_colon (d2 :: dirs)))%string.
    rewrite (path_dirs_cons _ _ Hd). f_equal. apply IH; [done|].
    by rewrite last_cons_cons in Hl.
Qed.

(** An entry written as [var=x] has the key [var]. *)
Lemma has_key_intro var x : has_key var (var ++ "=" ++ x) = true.
Proof.
  unfold has_key. induction var as [|c var IH]; simpl.
  - destruct (ascii_dec "=" "="); [by destruct x|done].
  - by destruct (ascii_dec c c).
Qed.

(** The first loop stops at the first entry that begins with [PATH=]. *)
Lemma find_PATH_first pre value post :
  forallb (fun e => negb (has_key "PATH" e)) pre = true ->
  find_PATH (pre ++ ("PATH=" ++ value)%string :: post) = Some value.
Proof.
  induction pre as [|e pre IH]; intros Hpre.
  - assert (Hk : has_key "PATH" ("PATH=" ++ value)%string = true)
      by apply (has_key_intro "PATH" value).
    cbn [app find_PATH]. by rewrite Hk.
  - cbn [forallb] in Hpre. apply andb_prop in Hpre as [He Hpre].
    apply negb_true_iff in He. cbn [app find_PATH]. rewrite He. by apply IH.
Qed.




(** C6 as stated fails: a component too long to try followed by one
    that [stat] refuses with permission denied leaves [EACCES], where
    the priority order would pick [ENAMETOOLONG]. *)
Lemma resolve_path_later_condition_overrides :
  let H := path_host (long_dir ++ ":/noperm") in
  let r := resolve_path H "cmd" (PATH_MAX H) {| errno := ENOEXEC; trace := [] |} in
  path_dirs (long_dir ++ ":/noperm") = [long_dir; "/noperm"]
  /\ too_long H "cmd" long_dir = true
  /\ denied H "cmd" "/noperm" = true
  /\ r.1 = None
  /\ errno r.2 = EACCES
  /\ errno_by_priority H "cmd" [long_dir; "/noperm"] = ENAMETOOLONG
  /\ errno r.2 <> errno_by_priority H "cmd" (path_dirs (long_dir ++ ":/noperm")).
Proof. vm_compute. repeat split. discriminate. Qed.

(** C6, amended. When PATH is missing, or when every component is
    passed over, [resolve_path] fails; [errno] is then the condition
    remembered last during the scan: [ENAMETOOLONG] if the last
    component that was too long or permission-denied was too long,
    [EACCES] if it was permission-denied, and [ENOENT] when no component
    was either. *)
Theorem resolve_path_no_match (H : host) cmnd w :
  let r := resolve_path H cmnd (PATH_MAX H) w in
  (find_PATH (vec_items (environ H)) = None -> r.1 = None /\ errno r.2 = ENOENT)
  /\ (forall value,
        find_PATH (vec_items (environ H)) = Some value ->
        forallb (passed_over H cmnd) (path_dirs value) = true ->
        r.1 = None
        /\ errno r.2 = fold_left (remembered H cmnd) (path_dirs value) ENOENT
        /\ (existsb (too_long H cmnd) (path_dirs value) = false ->
            existsb (denied H cmnd) (path_dirs value) = false ->
            errno r.2 = ENOENT)
        /\ (forall before dir after,
              path_dirs value = before ++ dir :: after ->
              too_long H cmnd dir || denied H cmnd dir = true ->
              existsb (too_long H cmnd) after = false ->
              existsb (denied H cmnd) after = false ->
              errno r.2 = if too_long H cmnd dir then ENAMETOOLONG else EACCES)).
Proof.
  cbv zeta. rewrite resolve_path_try_dirs. split.
  - intros ->. done.
  - intros value -> Hall.
    destruct (try_dirs_no_match H cmnd (PATH_MAX H) (path_dirs value) ENOENT w Hall)
      as [Hr He].
    split; [done|]. split; [done|]. split.
    + intros Ht Hd. rewrite He. by apply fold_remembered_none.
    + intros before dir after Hsplit Hdir Ht Hd.
      rewrite He, Hsplit, fold_left_app. cbn [fold_left].
      rewrite fold_remembered_none by done.
      unfold remembered. destruct (too_long H cmnd dir); [done|].
      simpl in Hdir. by rewrite Hdir.
Qed.

Lemma resolve_path_no_match_witness :
  let H := path_host "/a:/b" in
  let r := resolve_path H "cmd" (PATH_MAX H) {| errno := ENOEXEC; trace := [] |} in
  path_dirs "/a:/b" = ["/a"; "/b"]
  /\ r.1 = None /\ errno r.2 = ENOENT.
Proof.
  split; [reflexivity|].
  destruct (proj2 (resolve_path_no_match (path_host "/a:/b") "cmd"
                     {| errno := ENOEXEC; trace := [] |}) "/a:/b" eq_refl eq_refl)
    as (Hr & _ & Hnone & _).
  split; [exact Hr|]. apply Hnone; reflexivity.
Defined.

(** ** The preload environment builder *)

Ltac scan_simpl :=
  cbn [envp env_len preload_idx intercept_idx fd_present dso_present dso_enabled
       set_envp set_env_len set_preload_idx set_intercept_idx set_fd_present
       set_dso_present set_dso_enabled seen] in *.

Section Fuel.
Context (P : platform) (dso_file : string) (intercept_fd : Z).
Local Abbreviation loop := (scan_loop P dso_file intercept_fd).
Local Abbreviation body := (scan_entry P dso_file intercept_fd).

Lemma shift_down_length cells : length (shift_down cells) = length cells.
Proof.
  induction cells as [|c cells IH]; [done|].
  destruct c; simpl; [by rewrite IH|done].
Qed.

Lemma remove_entry_length a i : length (remove_entry a i) = length a.
Proof.
  unfold remove_entry. rewrite length_app, shift_down_length, <- length_app.
  by rewrite take_drop.
Qed.

Lemma scan_entry_shape s e :
  length (envp (body s e)) = length (envp s) /\ env_len (body s e) = env_len s.
Proof.
  unfold scan_entry.
  repeat case_match; cbn; rewrite ?remove_entry_length; done.
Qed.

(** The loop is over when [scan_loop] returns: the fuel [scan_envp]
    gives it is never what stops it. *)
Lemma scan_loop_exits fuel : forall s,
  length (envp s) <= env_len s + fuel ->
  rd (envp (loop fuel s)) (env_len (loop fuel s)) = None.
Proof.
  induction fuel as [|fuel IH]; intros s Hlen.
  - cbn [scan_loop]. unfold rd. rewrite lookup_ge_None_2; [done|]. unfold cell in *. lia.
  - cbn [scan_loop]. destruct (rd (envp s) (env_len s)) as [e|] eqn:Hrd; [|done].
    destruct (scan_entry_shape s e) as [Hl He].
    apply IH. cbn [envp env_len set_env_len]. rewrite Hl, He. lia.
Qed.

Lemma scan_loop_more_fuel fuel extra : forall s,
  length (envp s) <= env_len s + fuel ->
  loop (fuel + extra) s = loop fuel s.
Proof.
  induction fuel as [|fuel IH]; intros s Hlen.
  - cbn [scan_loop Nat.add]. destruct extra; [done|]. cbn [scan_loop].
    unfold rd. rewrite lookup_ge_None_2; [done|]. unfold cell in *. lia.
  - cbn [scan_loop Nat.add]. destruct (rd (envp s) (env_len s)) as [e|] eqn:Hrd; [|done].
    destruct (scan_entry_shape s e) as [Hl He].
    apply IH. cbn [envp env_len set_env_len]. rewrite Hl, He. lia.
Qed.

(** Reads stay inside the array: with a NULL at or after [env_len], the
    cell the loop tests is inside, each cell [shift_down] moves has a
    right neighbour, and the next iteration finds a NULL at or after
    its [env_len] again. *)
Lemma terminated_inside (a : list cell) i : In None (drop i a) -> i < length a.
Proof.
  intros Hin. destruct (decide (i < length a)); [done|].
  rewrite drop_ge in Hin by lia. done.
Qed.

Lemma shift_down_neighbour (cells : list cell) x rest :
  In None cells -> cells = Some x :: rest -> rest <> [].
Proof. intros Hin -> ->. simpl in Hin. intuition discriminate. Qed.

Lemma shift_down_terminated x (rest : list cell) :
  In None rest -> In None (drop 1 (shift_down (Some x :: rest))).
Proof.
  revert x. induction rest as [|c rest IH]; intros x Hin; [done|].
  cbn. rewrite drop_0. destruct c as [y|]; [|by left].
  simpl in Hin. destruct Hin as [?|Hin]; [done|].
  specialize (IH y Hin). cbn in IH. rewrite drop_0 in IH. by right.
Qed.

Lemma scan_step_terminated s e :
  rd (envp s) (env_len s) = Some e ->
  In None (drop (env_len s) (envp s)) ->
  In None (drop (S (env_len (body s e))) (envp (body s e))).
Proof.
  intros Hrd Hin.
  assert (Hdrop : drop (env_len s) (envp s) = Some e :: drop (S (env_len s)) (envp s)).
  { unfold rd in Hrd. destruct (envp s !! env_len s) as [c|] eqn:Hl; [|done].
    cbn in Hrd. subst c. by apply drop_S. }
  assert (Hkeep : In None (drop (S (env_len s)) (envp s))).
  { rewrite Hdrop in Hin. simpl in Hin. intuition discriminate. }
  assert (Hrm : In None (drop (S (env_len s)) (remove_entry (envp s) (env_len s)))).
  { unfold remove_entry. rewrite Hdrop.
    assert (Hi : env_len s <= length (envp s)).
    { apply terminated_inside in Hin. lia. }
    rewrite drop_app_ge by (rewrite length_take; lia).
    rewrite length_take. replace (S (env_len s) - env_len s `min` length (envp s)) with 1 by lia.
    by apply shift_down_terminated. }
  unfold scan_entry. repeat case_match; cbn; done.
Qed.
End Fuel.

Section Scan.
Context (P : platform) (dso_file : string) (intercept_fd : Z).

Local Abbreviation isP := (is_preload P).
Local Abbreviation isF := (is_checked_fd P intercept_fd).
Local Abbreviation loop := (scan_loop P dso_file intercept_fd).
Local Abbreviation PK := (preload_known P dso_file).
Local Abbreviation FK := (fd_known P intercept_fd).

Lemma rd_app_length (pre : list string) (rest : list cell) :
  rd (map Some pre ++ rest) (length pre) = rd rest 0.
Proof.
  unfold rd. rewrite lookup_app_r by (rewrite length_map; lia).
  by rewrite length_map, Nat.sub_diag.
Qed.

(** Removing the entry at [env_len] moves the entries behind it one cell
    down and leaves one more NULL at the end. *)
Lemma shift_down_entries (t : list string) : forall e k,
  shift_down (Some e :: map Some t ++ replicate (S k) None)
  = map Some t ++ replicate (S (S k)) None.
Proof.
  induction t as [|x t IH]; intros e k; simpl; [done|].
  unfold rd at 1. simpl. f_equal. apply (IH x).
Qed.

Lemma remove_entry_entries (pre t : list string) e k :
  remove_entry (map Some pre ++ map Some (e :: t) ++ replicate (S k) None) (length pre)
  = map Some pre ++ map Some t ++ replicate (S (S k)) None.
Proof.
  unfold remove_entry.
  rewrite take_app_length' by (by rewrite length_map).
  rewrite drop_app_length' by (by rewrite length_map).
  f_equal. apply shift_down_entries.
Qed.

Lemma dedup_length sp sf E : length (dedup P intercept_fd sp sf E) <= length E.
Proof.
  revert sp sf. induction E as [|e E IH]; intros sp sf; simpl; [lia|].
  pose proof (IH sp sf). pose proof (IH true sf). pose proof (IH sp true).
  repeat case_match; simpl; lia.
Qed.

Lemma preload_known_snoc s K r :
  isP r = false -> PK s K -> PK s (K ++ [r]).
Proof.
  unfold preload_known. intros Hr. destruct (preload_idx s) as [p|].
  - intros (e & Hl & Hf & Hd). exists e. split_and!.
    + rewrite lookup_app_l; [done|]. by apply lookup_lt_Some in Hl.
    + rewrite filter_app, Hf. rewrite filter_cons_False by (rewrite Hr; exact id). done. 
    + done.
  - intros [Hf Hd]. split; [|done]. rewrite filter_app, Hf.
    rewrite filter_cons_False by (rewrite Hr; exact id). done.
Qed.

Lemma fd_known_snoc s K r :
  isF r = false -> FK s K -> FK s (K ++ [r]).
Proof.
  unfold fd_known. intros Hr. destruct (intercept_idx s) as [p|].
  - intros (e & Hl & Hf & Hd). exists e. split_and!.
    + rewrite lookup_app_l; [done|]. by apply lookup_lt_Some in Hl.
    + rewrite filter_app, Hf. rewrite filter_cons_False by (rewrite Hr; exact id). done. 
    + done.
  - intros [Hf Hd]. split; [|done]. rewrite filter_app, Hf.
    rewrite filter_cons_False by (rewrite Hr; exact id). done.
Qed.

Lemma isP_not_isF e : isP e = true -> isF e = false.
Proof. unfold is_checked_fd. by intros ->. Qed.





Lemma scan_loop_stop fuel s :
  rd (envp s) (env_len s) = None -> loop fuel s = s.
Proof. intros Hrd. destruct fuel; [done|]. cbn [scan_loop]. by rewrite Hrd. Qed.

Lemma scan_loop_step fuel s e :
  rd (envp s) (env_len s) = Some e ->
  loop (S fuel) s =
  loop fuel (set_env_len (S (env_len (scan_entry P dso_file intercept_fd s e)))
               (scan_entry P dso_file intercept_fd s e)).
Proof. intros Hrd. cbn [scan_loop]. by rewrite Hrd. Qed.

Lemma rd_entries_nil (pre : list string) k :
  rd (map Some pre ++ map Some [] ++ replicate (S k) None) (length pre) = None.
Proof. by rewrite rd_app_length. Qed.

Lemma rd_entries_cons (pre : list string) e t k :
  rd (map Some pre ++ map Some (e :: t) ++ replicate (S k) None) (length pre) = Some e.
Proof. by rewrite rd_app_length. Qed.

Lemma rd_past_entries (pre : list string) k :
  rd (map Some pre ++ map Some [] ++ replicate (S (S k)) None) (S (length pre)) = None.
Proof.
  unfold rd. rewrite lookup_app_r by (rewrite length_map; lia).
  rewrite length_map. replace (S (length pre) - length pre) with 1 by lia. done.
Qed.

Lemma snoc_entries (pre : list string) e (t : list string) (rest : list cell) :
  map Some pre ++ map Some (e :: t) ++ rest = map Some (pre ++ [e]) ++ map Some t ++ rest.
Proof. rewrite map_app. simpl. by rewrite <- app_assoc. Qed.


Lemma scan_post_nil (pre : list string) k s fuel :
  envp s = map Some pre ++ map Some [] ++ replicate (S k) None ->
  env_len s = length pre -> PK s pre -> FK s pre ->
  scan_post P dso_file intercept_fd pre k (loop fuel s).
Proof.
  intros Ha Hlen HP HF.
  rewrite scan_loop_stop by (rewrite Ha, Hlen; apply rd_entries_nil).
  exists 0. rewrite Nat.add_0_r. split_and!; auto.
Qed.

Lemma scan_post_eq K K' k k' s :
  K = K' -> k = k' ->
  scan_post P dso_file intercept_fd K k s -> scan_post P dso_file intercept_fd K' k' s.
Proof. by intros -> ->. Qed.

(** The counting loop on an array that holds the kept entries [pre], the
    entries [suf] still to visit and then only NULLs: when no duplicate
    in [suf] is directly followed by an entry of either variable, the
    loop keeps [suf] without its duplicates. *)
Lemma scan_loop_spaced_n (n : nat) : forall suf pre k s fuel,
  length suf <= n ->
  envp s = map Some pre ++ map Some suf ++ replicate (S k) None ->
  env_len s = length pre ->
  spaced P intercept_fd (seen (preload_idx s)) (seen (intercept_idx s)) suf = true ->
  length suf < fuel ->
  PK s pre -> FK s pre ->
  let D := dedup P intercept_fd (seen (preload_idx s)) (seen (intercept_idx s)) suf in
  scan_post P dso_file intercept_fd (pre ++ D) (k + (length suf - length D)) (loop fuel s).
Proof.
  induction n as [|n IH]; intros suf pre k s fuel Hn Ha Hlen Hsp Hfuel HP HF.
  { destruct suf; [|simpl in Hn; lia]. cbn.
    rewrite app_nil_r, Nat.add_0_r. by apply scan_post_nil. }
  destruct suf as [|e t].
  { cbn. rewrite app_nil_r, Nat.add_0_r. by apply scan_post_nil. }
  destruct fuel as [|fuel]; [lia|]. cbn [length] in Hn, Hfuel.
  cbv zeta.
  rewrite (scan_loop_step fuel s e) by (rewrite Ha, Hlen; apply rd_entries_cons).
  unfold scan_entry. fold (is_preload P e).
  assert (Hrm : forall s1, envp s1 = remove_entry (envp s) (env_len s) ->
            env_len s1 = S (length pre) ->
            preload_idx s1 = preload_idx s -> intercept_idx s1 = intercept_idx s ->
            PK s1 pre -> FK s1 pre ->
            next_unmanaged P intercept_fd t
            && spaced P intercept_fd (seen (preload_idx s)) (seen (intercept_idx s)) t = true ->
            let D := dedup P intercept_fd (seen (preload_idx s)) (seen (intercept_idx s)) t in
            scan_post P dso_file intercept_fd (pre ++ D)
              (k + (S (length t) - length D)) (loop fuel s1)).
  { intros s1 Ha1 Hlen1 Hp1 Hf1 HP1 HF1 Hsp1.
    rewrite Ha, Hlen, remove_entry_entries in Ha1.
    apply andb_prop in Hsp1 as [Hnext Hsp1].
    destruct t as [|r t'].
    - cbn. rewrite scan_loop_stop by (rewrite Ha1, Hlen1; apply rd_past_entries).
      exists 1. rewrite app_nil_r. split_and!; auto; try lia.
      rewrite Ha1. simpl. by rewrite Nat.add_1_r.
    - cbn [next_unmanaged] in Hnext. apply andb_prop in Hnext as [HrP HrF].
      apply negb_true_iff in HrP, HrF.
      cbn [spaced dedup] in *. rewrite HrP, HrF in *.
      rewrite snoc_entries in Ha1.
      assert (Hlen1' : env_len s1 = length (pre ++ [r])) by (rewrite length_app; simpl; lia).
      pose proof (dedup_length (seen (preload_idx s)) (seen (intercept_idx s)) t') as Hle.
      eapply scan_post_eq; [| |apply (IH t' (pre ++ [r]) (S k) s1 fuel)].
      + rewrite Hp1, Hf1. by rewrite <- app_assoc.
      + rewrite Hp1, Hf1. cbn [length]. lia.
      + cbn [length] in *; lia.
      + done.
      + done.
      + by rewrite Hp1, Hf1.
      + cbn [length] in *; lia.
      + by apply preload_known_snoc.
      + by apply fd_known_snoc. }
  assert (Hkeep : forall s1 sp sf, envp s1 = envp s ->
            env_len s1 = S (length pre) ->
            seen (preload_idx s1) = sp -> seen (intercept_idx s1) = sf ->
            PK s1 (pre ++ [e]) -> FK s1 (pre ++ [e]) ->
            spaced P intercept_fd sp sf t = true ->
            let D := dedup P intercept_fd sp sf t in
            scan_post P dso_file intercept_fd (pre ++ e :: D)
              (k + (S (length t) - S (length D))) (loop fuel s1)).
  { intros s1 sp sf Ha1 Hlen1 Hp1 Hf1 HP1 HF1 Hsp1.
    rewrite Ha, snoc_entries in Ha1.
    assert (Hlen1' : env_len s1 = length (pre ++ [e])) by (rewrite length_app; simpl; lia).
    eapply scan_post_eq; [| |apply (IH t (pre ++ [e]) k s1 fuel)].
    + rewrite Hp1, Hf1. by rewrite <- app_assoc.
    + rewrite Hp1, Hf1. cbn [length]. lia.
    + lia.
    + done.
    + done.
    + by rewrite Hp1, Hf1.
    + lia.
    + done.
    + done. }
  cbn [spaced dedup] in *.
  destruct (isP e) eqn:HeP.
  - (* a preload entry *)
    destruct (preload_idx s) as [p|] eqn:Hp; cbn [seen] in *.
    + (* a duplicate: removed, and the entry behind it skipped *)
      apply Hrm; unfold preload_known, fd_known in *; scan_simpl;
        rewrite ?Hp in HP |- *; try done; by rewrite Hlen.
    + (* the first one *)
      pose proof (fd_known_snoc s pre e (isP_not_isF _ HeP) HF) as HF'.
      unfold preload_known in HP. rewrite Hp in HP. destruct HP as [HfP Hdso].
      destruct (dso_is_first P dso_file (value_of (RTLD_PRELOAD_VAR P) e)) eqn:Hfirst;
        apply (Hkeep _ true (seen (intercept_idx s))); scan_simpl;
        try done; try (by rewrite Hlen).
      all: unfold preload_known; scan_simpl; exists e; rewrite Hlen.
      all: split_and!; [by apply list_lookup_middle | | congruence].
      all: rewrite filter_app, HfP, filter_cons_True by (by rewrite HeP); done.
  - destruct (isF e) eqn:HeF.
    + (* a side-channel entry the loop acts on *)
      assert (Hfd : negb (intercept_fd =? -1)%Z && has_key "SUDO_INTERCEPT_FD" e = true).
      { unfold is_checked_fd, is_intercept_fd in HeF. rewrite HeP in HeF. exact HeF. }
      rewrite Hfd.
      destruct (intercept_idx s) as [q|] eqn:Hq; cbn [seen] in *.
      * apply Hrm; unfold preload_known, fd_known in *; scan_simpl;
          rewrite ?Hq in HF |- *; try done; by rewrite Hlen.
      * pose proof (preload_known_snoc s pre e HeP HP) as HP'.
        unfold fd_known in HF. rewrite Hq in HF. destruct HF as [HfF Hfdp].
        destruct (fd_matches P (value_of "SUDO_INTERCEPT_FD" e) intercept_fd) eqn:Hmatch;
          apply (Hkeep _ (seen (preload_idx s)) true); scan_simpl;
          try done; try (by rewrite Hlen).
        all: unfold fd_known; scan_simpl; exists e; rewrite Hlen.
        all: split_and!; [by apply list_lookup_middle | | congruence].
        all: rewrite filter_app, HfF, filter_cons_True by (by rewrite HeF); done.
    + (* any other entry *)
      assert (Hfd : negb (intercept_fd =? -1)%Z && has_key "SUDO_INTERCEPT_FD" e = false).
      { unfold is_checked_fd, is_intercept_fd in HeF. rewrite HeP in HeF. exact HeF. }
      rewrite Hfd.
      pose proof (preload_known_snoc s pre e HeP HP) as HP'.
      pose proof (fd_known_snoc s pre e HeF HF) as HF'.
      apply (Hkeep _ (seen (preload_idx s)) (seen (intercept_idx s)));
        repeat case_match; scan_simpl; try done; by rewrite Hlen.
Qed.

Lemma scan_envp_spaced (E : list string) :
  spaced P intercept_fd false false E = true ->
  let D := dedup P intercept_fd false false E in
  scan_post P dso_file intercept_fd D (length E - length D)
    (scan_envp P dso_file intercept_fd (array_of E)).
Proof.
  intros Hsp. unfold scan_envp.
  apply (scan_loop_spaced_n (length E) E [] 0); try done.
  - unfold array_of. rewrite length_app, length_map. simpl. lia.
Qed.
End Scan.

(** Two keys that are prefixes of one string are prefixes of one
    another. *)
Lemma prefix_app (a x : string) : String.prefix a (a ++ x) = true.
Proof.
  induction a as [|c a IH]; simpl; [by destruct x|].
  by destruct (ascii_dec c c).
Qed.

Lemma prefix_both (a b e : string) :
  String.prefix a e = true -> String.prefix b e = true ->
  String.prefix a b = true \/ String.prefix b a = true.
Proof.
  revert b e. induction a as [|c a IH]; intros b e Ha Hb.
  - left. by destruct b.
  - destruct b as [|c' b]; [right; done|].
    destruct e as [|c'' e]; [done|]. simpl in *.
    destruct (ascii_dec c c''); [|done]. destruct (ascii_dec c' c''); [|done].
    subst. destruct (ascii_dec c'' c''); [|done]. eauto.
Qed.

Lemma env_of_entries (K : list string) rest : env_of (map Some K ++ None :: rest) = K.
Proof. induction K as [|x K IH]; simpl; [done|]. by rewrite IH. Qed.

Lemma filter_insert_other (f : string -> bool) (K : list string) i e v :
  K !! i = Some e -> f e = false -> f v = false ->
  filter f (<[i:=v]> K) = filter f K.
Proof.
  intros Hl He Hv.
  rewrite <- (take_drop_middle K i e Hl) at 2.
  rewrite insert_take_drop by (by apply lookup_lt_Some in Hl).
  rewrite !filter_app, !filter_cons_False by (rewrite ?He, ?Hv; exact id). done.
Qed.

Lemma filter_insert_only (f : string -> bool) (K : list string) i e v :
  K !! i = Some e -> filter f K = [e] -> f v = true ->
  filter f (<[i:=v]> K) = [v].
Proof.
  intros Hl Hf Hv.
  assert (He : f e = true).
  { assert (e ∈ filter f K) as Hin by (rewrite Hf; by left).
    apply list_elem_of_filter in Hin as [He _]. by apply Is_true_true in He. }
  rewrite <- (take_drop_middle K i e Hl) in Hf.
  rewrite insert_take_drop by (by apply lookup_lt_Some in Hl).
  rewrite filter_app, filter_cons_True in Hf by (by rewrite He).
  rewrite filter_app, filter_cons_True by (by rewrite Hv).
  destruct (filter f (take i K)) as [|x l1]; simpl in *.
  - injection Hf as Hf. by rewrite Hf.
  - injection Hf as _ Hf. by destruct l1.
Qed.

Lemma map_Some_insert (K : list string) i v :
  map Some (<[i:=v]> K) = <[i:=Some v]> (map Some K).
Proof.
  revert i. induction K as [|x K IH]; intros [|i]; simpl; try done.
  f_equal. apply IH.
Qed.

Lemma keeps_refl f K : keeps f K K.
Proof. by split. Qed.

Lemma keeps_trans f K1 K2 K3 : keeps f K1 K2 -> keeps f K2 K3 -> keeps f K1 K3.
Proof. intros [H1 H1'] [H2 H2']. split; [congruence|]. eauto. Qed.

Lemma keeps_snoc (f : string -> bool) K v : f v = false -> keeps f K (K ++ [v]).
Proof.
  intros Hv. split.
  - rewrite filter_app, filter_cons_False by (rewrite Hv; exact id).
    by rewrite filter_nil, app_nil_r.
  - intros i x Hl _. rewrite lookup_app_l; [done|]. by apply lookup_lt_Some in Hl.
Qed.

Lemma keeps_insert (f : string -> bool) K i e v :
  K !! i = Some e -> f e = false -> f v = false -> keeps f K (<[i:=v]> K).
Proof.
  intros Hl He Hv. split; [by apply (filter_insert_other f K i e)|].
  intros j x Hj Hx. rewrite list_lookup_insert_ne; [done|].
  intros ->. congruence.
Qed.

(** Appending at [env_len] adds an entry, or writes behind the NULL that
    ends the environment when [env_len] is past it. *)
Lemma append_entry_ok K b v extra b' :
  cur_ok K b -> append_entry v extra b = Some b' ->
  exists K', cur_ok K' b' /\ (K' = K \/ K' = K ++ [v])
             /\ b_allocated b' = b_allocated b ++ extra.
Proof.
  intros (rest & Hc & Hle). unfold append_entry, store.
  destruct (decide (b_len b < length (b_cur b))) as [H1|]; [|done]. cbn.
  rewrite length_insert.
  destruct (decide (S (b_len b) < length (b_cur b))) as [H2|]; [|done]. cbn.
  intros [= <-]. cbn.
  rewrite Hc in *. rewrite length_app, length_map in H1, H2. cbn [length] in H1, H2.
  destruct (decide (b_len b = length K)) as [Heq|Hne].
  - exists (K ++ [v]). split; [|by auto].
    destruct rest as [|r0 rest]; [simpl in H2; lia|].
    exists rest. cbn. split; [|rewrite length_app; simpl; lia].
    rewrite Heq.
    rewrite (insert_app_r_alt (map Some K)) by (rewrite length_map; lia).
    rewrite length_map, Nat.sub_diag. cbn.
    rewrite (insert_app_r_alt (map Some K)) by (rewrite length_map; lia).
    rewrite length_map. replace (S (length K) - length K) with 1 by lia. cbn.
    rewrite map_app. cbn. by rewrite <- app_assoc.
  - exists K. split; [|by auto].
    rewrite (insert_app_r_alt (map Some K)) by (rewrite length_map; lia).
    rewrite length_map.
    destruct (b_len b - length K) as [|d] eqn:Hd; [lia|]. cbn.
    rewrite (insert_app_r_alt (map Some K)) by (rewrite length_map; lia).
    rewrite length_map.
    replace (S (b_len b) - length K) with (S (S d)) by lia. cbn.
    eexists. cbn. split; [reflexivity|lia].
Qed.

Lemma overwrite_entry_ok K b idx v extra b' :
  cur_ok K b -> idx < length K -> overwrite_entry idx v extra b = Some b' ->
  cur_ok (<[idx:=v]> K) b' /\ b_allocated b' = b_allocated b ++ extra.
Proof.
  intros (rest & Hc & Hle) Hidx. unfold overwrite_entry, store.
  destruct (decide _) as [H1|]; [|done]. cbn. intros [= <-]. cbn. split; [|done].
  exists rest. rewrite length_insert. split; [|done].
  rewrite Hc, insert_app_l by (by rewrite length_map).
  by rewrite map_Some_insert.
Qed.

Lemma rd_cur_ok K b i e :
  cur_ok K b -> K !! i = Some e -> rd (b_cur b) i = Some e.
Proof.
  intros (rest & Hc & _) Hl. unfold rd. rewrite Hc.
  rewrite lookup_app_l by (rewrite length_map; by apply lookup_lt_Some in Hl).
  change (map Some K) with (Some <$> K). by rewrite list_lookup_fmap, Hl.
Qed.

Lemma filter_singleton_true (f : string -> bool) (K : list string) e :
  filter f K = [e] -> f e = true.
Proof.
  intros Hf. assert (e ∈ filter f K) as Hin by (rewrite Hf; by left).
  apply list_elem_of_filter in Hin as [He _]. by apply Is_true_true in He.
Qed.

Lemma keys_exclusive (P : platform) x :
  keys_ok P = true -> is_preload P x = true -> is_intercept_fd x = true -> False.
Proof.
  unfold keys_ok, is_preload, is_intercept_fd, has_key.
  intros Hk HP HI. apply andb_prop in Hk as [Hk _]. apply andb_prop in Hk as [H1 H2].
  apply negb_true_iff in H1, H2.
  destruct (prefix_both _ _ _ HP HI) as [H|H].
  - change (String.prefix (RTLD_PRELOAD_VAR P ++ "=") "SUDO_INTERCEPT_FD=" = true) in H.
    congruence.
  - congruence.
Qed.

Section Finish.
Context (P : platform) (alloc_ok : alloc_site -> bool) (dso_file : string)
        (intercept_fd : Z).
Hypothesis Hkeys : keys_ok P = true.

Local Abbreviation isP := (is_preload P).
Local Abbreviation isF := (is_checked_fd P intercept_fd).
Local Abbreviation PK := (preload_known P dso_file).
Local Abbreviation FK := (fd_known P intercept_fd).

Lemma preload_known_keeps s K K' : keeps isP K K' -> PK s K -> PK s K'.
Proof.
  intros [Hf Hl]. unfold preload_known. destruct (preload_idx s) as [p|].
  - intros (e & He & Hfe & Hd). exists e. split_and!; [|congruence|done].
    apply Hl; [done|]. by apply (filter_singleton_true _ K).
  - intros [Hfe Hd]. split; [congruence|done].
Qed.

Lemma fd_known_keeps s K K' : keeps isF K K' -> FK s K -> FK s K'.
Proof.
  intros [Hf Hl]. unfold fd_known. destruct (intercept_idx s) as [p|].
  - intros (e & He & Hfe & Hd). exists e. split_and!; [|congruence|done].
    apply Hl; [done|]. by apply (filter_singleton_true _ K).
  - intros [Hfe Hd]. split; [congruence|done].
Qed.

(** The three steps after the copy, each on the environment the array
    denotes: entries of the other variable stay where they are, and the
    one entry of the step's own variable becomes what the step
    writes. *)
Lemma add_preload_spec s b K b1 :
  cur_ok K b -> PK s K ->
  add_preload P alloc_ok dso_file s b = Some (Next b1) ->
  exists K1, cur_ok K1 b1
    /\ (forall f : string -> bool, (forall x, isP x = true -> f x = false) -> keeps f K K1)
    /\ (forall e, filter isP K = [e] ->
          filter isP K1 =
            [if dso_present s then e
             else fmt_preload P dso_file (value_of (RTLD_PRELOAD_VAR P) e)]).
Proof.
  intros Hc HP. unfold add_preload, preload_known in *.
  destruct (dso_present s) eqn:Hd.
  { intros [= <-]. exists K. split_and!; auto using keeps_refl. }
  destruct (preload_idx s) as [p|].
  - destruct HP as (e & Hl & Hf & Hdso).
    rewrite (rd_cur_ok K b p e Hc Hl).
    destruct (alloc_ok A_preload); [|done].
    destruct (overwrite_entry _ _ _ _) as [b'|] eqn:Hov; [|done].
    intros [= <-].
    apply overwrite_entry_ok with (K := K) in Hov as [Hc' _];
      [|done|by apply lookup_lt_Some in Hl].
    pose proof (filter_singleton_true _ _ _ Hf) as HeP.
    assert (Hnew : isP (fmt_preload P dso_file (value_of (RTLD_PRELOAD_VAR P) e)) = true)
      by apply has_key_intro.
    eexists. split; [exact Hc'|]. split.
    + intros f Hf'. apply (keeps_insert f K p e); auto.
    + intros e' He'. rewrite Hf in He'. injection He' as <-.
      by apply (filter_insert_only _ K p e).
  - destruct HP as [Hf _].
    destruct (alloc_ok A_preload); [|done].
    destruct (append_entry _ _ _) as [b'|] eqn:Hap; [|done].
    intros [= <-].
    apply append_entry_ok with (K := K) in Hap as (K' & Hc' & HK' & _); [|done].
    exists K'. split; [done|]. split.
    + intros f Hf'. destruct HK' as [->| ->]; [apply keeps_refl|].
      apply keeps_snoc, Hf'.
      destruct (RTLD_PRELOAD_DEFAULT P); apply has_key_intro.
    + intros e He. congruence.
Qed.

Lemma add_enable_spec s b K b2 :
  cur_ok K b -> add_enable P s b = Some b2 ->
  exists K2, cur_ok K2 b2
    /\ (forall f : string -> bool,
          (forall var, RTLD_PRELOAD_ENABLE_VAR P = Some var -> f (var ++ "=")%string = false) ->
          keeps f K K2).
Proof.
  intros Hc. unfold add_enable.
  destruct (RTLD_PRELOAD_ENABLE_VAR P) as [var|].
  - destruct (dso_enabled s).
    + intros [= <-]. exists K. auto using keeps_refl.
    + intros Hap. apply append_entry_ok with (K := K) in Hap as (K' & Hc' & HK' & _); [|done].
      exists K'. split; [done|]. intros f Hf.
      destruct HK' as [->| ->]; [apply keeps_refl|]. by apply keeps_snoc, Hf.
  - intros [= <-]. exists K. auto using keeps_refl.
Qed.

Lemma add_intercept_fd_spec s b K b3 :
  cur_ok K b -> FK s K ->
  add_intercept_fd alloc_ok intercept_fd s b = Some (Next b3) ->
  exists K3, cur_ok K3 b3
    /\ (forall f : string -> bool,
          (forall x, is_intercept_fd x = true -> f x = false) -> keeps f K K3)
    /\ (forall e, filter isF K = [e] ->
          filter isF K3 = [if fd_present s then e else fmt_fd intercept_fd]).
Proof.
  intros Hc HF. unfold add_intercept_fd, fd_known in *.
  destruct (fd_present s) eqn:Hd; cbn.
  { intros [= <-]. exists K. split_and!; auto using keeps_refl. }
  destruct (intercept_fd =? -1)%Z eqn:Hfd; cbn.
  { intros [= <-]. exists K. split_and!; auto using keeps_refl.
    intros e He. assert (HeF := filter_singleton_true _ _ _ He).
    unfold is_checked_fd in HeF. rewrite Hfd in HeF. cbn in HeF.
    by rewrite andb_false_r in HeF. }
  destruct (alloc_ok A_fdstr); [|done].
  assert (Hnew : is_intercept_fd (fmt_fd intercept_fd) = true)
    by apply (has_key_intro "SUDO_INTERCEPT_FD").
  destruct (intercept_idx s) as [q|].
  - destruct HF as (e & Hl & Hf & Hdso).
    destruct (overwrite_entry _ _ _ _) as [b'|] eqn:Hov; [|done].
    intros [= <-].
    apply overwrite_entry_ok with (K := K) in Hov as [Hc' _];
      [|done|by apply lookup_lt_Some in Hl].
    pose proof (filter_singleton_true _ _ _ Hf) as HeF.
    eexists. split; [exact Hc'|]. split.
    + intros f Hf'. apply (keeps_insert f K q e); auto.
      apply Hf'. unfold is_checked_fd in HeF. by apply andb_prop in HeF as [_ ?].
    + intros e' He'. rewrite Hf in He'. injection He' as <-.
      apply (filter_insert_only _ K q e); [done|done|].
      unfold is_checked_fd. rewrite Hfd, Hnew. cbn.
      destruct (isP (fmt_fd intercept_fd)) eqn:HnP; [|done].
      destruct (keys_exclusive P _ Hkeys HnP Hnew).
  - destruct HF as [Hf _].
    destruct (append_entry _ _ _) as [b'|] eqn:Hap; [|done].
    intros [= <-].
    apply append_entry_ok with (K := K) in Hap as (K' & Hc' & HK' & _); [|done].
    exists K'. split; [done|]. split.
    + intros f Hf'. destruct HK' as [->| ->]; [apply keeps_refl|].
      by apply keeps_snoc, Hf'.
    + intros e He. congruence.
Qed.

Lemma isF_isI x : isF x = true -> is_intercept_fd x = true.
Proof. unfold is_checked_fd. intros H. by apply andb_prop in H as [_ ?]. Qed.

Lemma enable_not_managed var :
  RTLD_PRELOAD_ENABLE_VAR P = Some var ->
  isP (var ++ "=") = false /\ isF (var ++ "=") = false.
Proof.
  intros Hv. unfold keys_ok in Hkeys. rewrite Hv in Hkeys.
  apply andb_prop in Hkeys as [_ Hk]. apply andb_prop in Hk as [H1 H2].
  apply negb_true_iff in H1, H2. split; [exact H1|].
  unfold is_checked_fd, is_intercept_fd. rewrite H2. apply andb_false_r.
Qed.

(** A successful [finish] returns the kept entries with the one preload
    entry and the one side-channel entry brought up to date. *)
Lemma finish_env copied s b K o :
  cur_ok K b -> PK s K -> FK s K ->
  finish P alloc_ok dso_file intercept_fd copied s b = Some o ->
  out_ret o <> Ret_NULL ->
  exists K3, returned_env o = Some K3
    /\ (forall e, filter isP K = [e] ->
          filter isP K3 =
            [if dso_present s then e
             else fmt_preload P dso_file (value_of (RTLD_PRELOAD_VAR P) e)])
    /\ (forall e, filter isF K = [e] ->
          filter isF K3 = [if fd_present s then e else fmt_fd intercept_fd]).
Proof.
  intros Hc HP HF. unfold finish.
  destruct (add_preload _ _ _ _ _) as [[b1|b1]|] eqn:H1; cbn; [|by intros [= <-]|done].
  destruct (add_enable _ _ _) as [b2|] eqn:H2; cbn; [|done].
  destruct (add_intercept_fd _ _ _ _) as [[b3|b3]|] eqn:H3; cbn; [|by intros [= <-]|done].
  intros [= <-] _.
  destruct (add_preload_spec s b K b1 Hc HP H1) as (K1 & Hc1 & Hk1 & HfP).
  assert (HF1 : FK s K1) by (eapply fd_known_keeps; [apply Hk1, isP_not_isF|done]).
  destruct (add_enable_spec s b1 K1 b2 Hc1 H2) as (K2 & Hc2 & Hk2).
  assert (HkP2 : keeps isP K1 K2) by (apply Hk2; intros; by apply enable_not_managed).
  assert (HkF2 : keeps isF K1 K2) by (apply Hk2; intros; by apply enable_not_managed).
  assert (HF2 : FK s K2) by (by eapply fd_known_keeps).
  destruct (add_intercept_fd_spec s b2 K2 b3 Hc2 HF2 H3) as (K3 & Hc3 & Hk3 & HfF).
  assert (HkP3 : keeps isP K2 K3).
  { apply Hk3. intros x Hx. destruct (isP x) eqn:HxP; [|done].
    destruct (keys_exclusive P x Hkeys HxP Hx). }
  exists K3. split_and!.
  - destruct Hc3 as (rest & Hcur & _). unfold returned_env, done_out. cbn.
    destruct copied; cbn; by rewrite Hcur, env_of_entries.
  - intros e He. destruct HkP3 as [-> _]. destruct HkP2 as [-> _]. by apply HfP.
  - intros e He. apply HfF. destruct HkF2 as [-> _].
    destruct (Hk1 isF (isP_not_isF P intercept_fd)) as [-> _]. done.
Qed.
End Finish.

Section Collapse.
Context (P : platform) (intercept_fd : Z).
Local Abbreviation isP := (is_preload P).
Local Abbreviation isF := (is_checked_fd P intercept_fd).

(** Removing duplicates leaves the first entry of each variable and no
    other. *)
Lemma dedup_filter_preload E : forall sp sf,
  filter isP (dedup P intercept_fd sp sf E)
  = if sp then [] else option_list (head (filter isP E)).
Proof.
  induction E as [|e E IH]; intros sp sf; cbn [dedup]; [by destruct sp|].
  destruct (isP e) eqn:HeP.
  - rewrite (filter_cons_True _ e E) by (by rewrite HeP).
    destruct sp; [by rewrite IH|].
    rewrite filter_cons_True by (by rewrite HeP). by rewrite IH.
  - rewrite (filter_cons_False _ e E) by (rewrite HeP; exact id).
    destruct (isF e); [destruct sf|];
      rewrite ?filter_cons_False by (rewrite HeP; exact id); by rewrite IH.
Qed.

Lemma dedup_filter_fd E : forall sp sf,
  filter isF (dedup P intercept_fd sp sf E)
  = if sf then [] else option_list (head (filter isF E)).
Proof.
  induction E as [|e E IH]; intros sp sf; cbn [dedup]; [by destruct sf|].
  destruct (isP e) eqn:HeP.
  - assert (HeF : isF e = false) by (unfold is_checked_fd; by rewrite HeP).
    rewrite (filter_cons_False _ e E) by (rewrite HeF; exact id).
    destruct sp; rewrite ?filter_cons_False by (rewrite HeF; exact id); by rewrite IH.
  - destruct (isF e) eqn:HeF.
    + rewrite (filter_cons_True _ e E) by (by rewrite HeF).
      destruct sf; [by rewrite IH|].
      rewrite filter_cons_True by (by rewrite HeF). by rewrite IH.
    + rewrite (filter_cons_False _ e E) by (rewrite HeF; exact id).
      rewrite filter_cons_False by (rewrite HeF; exact id). by rewrite IH.
Qed.

Lemma filter_ext_bool (f g : string -> bool) (l : list string) :
  (forall x, f x = g x) -> filter f l = filter g l.
Proof.
  intros Hfg. induction l as [|x l IH]; [done|].
  destruct (f x) eqn:Hf.
  - rewrite !filter_cons_True by (by rewrite <- ?Hfg, Hf). by rewrite IH.
  - rewrite !filter_cons_False by (rewrite <- ?Hfg, Hf; exact id). by rewrite IH.
Qed.

End Collapse.


Section Builder.
Context (P : platform) (alloc_ok : alloc_site -> bool) (junk : cell).
Hypothesis Hkeys : keys_ok P = true.

Lemma copy_cur_ok dso_file intercept_fd K k s allocated :
  scan_post P dso_file intercept_fd K k s ->
  cur_ok K {| b_cur := copy_envp junk s; b_len := env_len s; b_allocated := allocated |}.
Proof.
  intros (oc & Ha & Hlen & Hoc & _). unfold cur_ok, copy_envp. cbn.
  rewrite Ha, Hlen.
  rewrite take_app_ge by (rewrite length_map; lia).
  rewrite length_map. replace (length K + oc - length K) with oc by lia.
  destruct oc as [|[|oc]]; [| |lia]; cbn.
  - rewrite app_nil_r. eexists. split; [reflexivity|lia].
  - rewrite <- app_assoc. cbn. eexists. split; [reflexivity|lia].
Qed.

Lemma scan_cur_ok dso_file intercept_fd K k s allocated :
  scan_post P dso_file intercept_fd K k s ->
  cur_ok K {| b_cur := envp s; b_len := env_len s; b_allocated := allocated |}.
Proof.
  intros (oc & Ha & Hlen & Hoc & _). unfold cur_ok. cbn.
  rewrite Ha, Hlen. cbn. eexists. split; [reflexivity|lia].
Qed.

Lemma preload_from_scan_env allocated E dso_file intercept_fd o env :
  spaced P intercept_fd false false E = true ->
  preload_from_scan P alloc_ok junk allocated (array_of E) dso_file intercept_fd = Some o ->
  returned_env o = Some env ->
  (forall e1, head (filter (is_preload P) E) = Some e1 ->
     filter (is_preload P) env =
       [if dso_is_first P dso_file (value_of (RTLD_PRELOAD_VAR P) e1) then e1
        else fmt_preload P dso_file (value_of (RTLD_PRELOAD_VAR P) e1)])
  /\ (forall e1, head (filter (is_checked_fd P intercept_fd) E) = Some e1 ->
     filter (is_checked_fd P intercept_fd) env =
       [if fd_matches P (value_of "SUDO_INTERCEPT_FD" e1) intercept_fd then e1
        else fmt_fd intercept_fd]).
Proof.
  intros Hsp Hrun Henv.
  pose proof (scan_envp_spaced P dso_file intercept_fd E Hsp) as Hpost.
  cbv zeta in Hpost. unfold preload_from_scan in Hrun.
  set (s := scan_envp P dso_file intercept_fd (array_of E)) in *.
  set (D := dedup P intercept_fd false false E) in *.
  assert (Hret : out_ret o <> Ret_NULL).
  { intros Hn. unfold returned_env in Henv. by rewrite Hn in Henv. }
  assert (Hfin : exists copied b, cur_ok D b
            /\ finish P alloc_ok dso_file intercept_fd copied s b = Some o).
  { destruct (needs_copy s).
    - destruct (alloc_ok A_nenvp).
      + eexists _, _. split; [|exact Hrun]. by eapply copy_cur_ok.
      + injection Hrun as <-. by cbn in Hret.
    - eexists _, _. split; [|exact Hrun]. by eapply scan_cur_ok. }
  destruct Hfin as (copied & b & Hc & Hfin).
  destruct Hpost as (oc & _ & _ & _ & HP & HF).
  destruct (finish_env P alloc_ok dso_file intercept_fd Hkeys copied s b D o
              Hc HP HF Hfin Hret) as (K3 & HK3 & HfP & HfF).
  rewrite Henv in HK3. injection HK3 as ->.
  split.
  - intros e1 He1.
    assert (HD : filter (is_preload P) D = [e1]).
    { unfold D. rewrite dedup_filter_preload, He1. done. }
    rewrite (HfP e1 HD). unfold preload_known in HP.
    destruct (preload_idx s).
    + destruct HP as (e & _ & He & ->). rewrite HD in He. by injection He as <-.
    + destruct HP as [He _]. congruence.
  - intros e1 He1.
    assert (HD : filter (is_checked_fd P intercept_fd) D = [e1]).
    { unfold D. rewrite dedup_filter_fd, He1. done. }
    rewrite (HfF e1 HD). unfold fd_known in HF.
    destruct (intercept_idx s).
    + destruct HF as (e & _ & He & ->). rewrite HD in He. by injection He as <-.
    + destruct HF as [He _]. congruence.
Qed.

(** C3, amended. When no duplicate of the preload variable or of
    SUDO_INTERCEPT_FD is directly followed by an entry of either
    variable, the environment a successful call returns has exactly one
    preload entry: the first one of the input when the library already
    heads its value, and otherwise the library, the delimiter and the
    value of that first one.  With a descriptor given it likewise has
    exactly one SUDO_INTERCEPT_FD entry: the first one of the input when
    it already reads as the descriptor, the descriptor otherwise. *)
Theorem preload_duplicates_collapse E dso_file intercept_fd o env :
  spaced P intercept_fd false false E = true ->
  sudo_preload_dso P alloc_ok junk (array_of E) dso_file intercept_fd = Some o ->
  returned_env o = Some env ->
  (forall e1, head (filter (is_preload P) E) = Some e1 ->
     let dso := effective_dso P dso_file in
     filter (is_preload P) env =
       [if dso_is_first P dso (value_of (RTLD_PRELOAD_VAR P) e1) then e1
        else fmt_preload P dso (value_of (RTLD_PRELOAD_VAR P) e1)])
  /\ (intercept_fd <> (-1)%Z ->
      forall e1, head (filter is_intercept_fd E) = Some e1 ->
      filter is_intercept_fd env =
       [if fd_matches P (value_of "SUDO_INTERCEPT_FD" e1) intercept_fd then e1
        else fmt_fd intercept_fd]).
Proof.
  intros Hsp Hrun Henv.
  assert (Hfrom : exists allocated,
    preload_from_scan P alloc_ok junk allocated (array_of E)
      (effective_dso P dso_file) intercept_fd = Some o).
  { unfold sudo_preload_dso, effective_dso in *.
    destruct (PATH_ASAN_LIB P) as [asan|]; [|by eexists].
    destruct (alloc_ok A_dso_buf); [by eexists|].
    injection Hrun as <-. done. }
  destruct Hfrom as (allocated & Hfrom).
  destruct (preload_from_scan_env allocated E _ intercept_fd o env Hsp Hfrom Henv)
    as [HP HF].
  split; [exact HP|].
  intros Hfd e1 He1.
  assert (Hext : forall x, is_checked_fd P intercept_fd x = is_intercept_fd x).
  { intros x. unfold is_checked_fd.
    destruct (Z.eqb_spec intercept_fd (-1)); [done|]. cbn.
    destruct (is_preload P x) eqn:HxP; [|done]. cbn.
    destruct (is_intercept_fd x) eqn:HxI; [|done].
    destruct (keys_exclusive P x Hkeys HxP HxI). }
  rewrite <- (filter_ext_bool _ _ env Hext).
  apply HF. by rewrite (filter_ext_bool _ _ E Hext).
Qed.
End Builder.


Lemma preload_duplicates_collapse_witness :
  spaced elf 3 false false env_two_each = true
  /\ sudo_preload_dso elf always None (array_of env_two_each) "x.so" 3 ≫= returned_env
     = Some ["LD_PRELOAD=x.so:a"; "HOME=/"; "TERM=x"; "SUDO_INTERCEPT_FD=3"]
  /\ filter (is_preload elf)
       ["LD_PRELOAD=x.so:a"; "HOME=/"; "TERM=x"; "SUDO_INTERCEPT_FD=3"]
     = ["LD_PRELOAD=x.so:a"].
Proof.
  split; [reflexivity|]. split; [reflexivity|].
  destruct (sudo_preload_dso elf always None (array_of env_two_each) "x.so" 3)
    as [o|] eqn:Hrun; [|vm_compute in Hrun; discriminate].
  assert (Henv : returned_env o
            = Some ["LD_PRELOAD=x.so:a"; "HOME=/"; "TERM=x"; "SUDO_INTERCEPT_FD=3"]).
  { vm_compute in Hrun. injection Hrun as <-. reflexivity. }
  exact (proj1 (preload_duplicates_collapse elf always None eq_refl env_two_each
                  "x.so" 3%Z o _ eq_refl Hrun Henv) "LD_PRELOAD=a" eq_refl).
Defined.

(** C3 as stated fails: with the library already at the head of the
    first preload value, the one preload entry returned is that first
    entry, not the library followed by the delimiter and its value. *)
Lemma preload_value_kept_when_dso_first :
  let E := ["LD_PRELOAD=x.so:a"; "LD_PRELOAD=b"] in
  sudo_preload_dso elf always None (array_of E) "x.so" (-1) ≫= returned_env
    = Some ["LD_PRELOAD=x.so:a"]
  /\ head (filter (is_preload elf) E) = Some "LD_PRELOAD=x.so:a"
  /\ "LD_PRELOAD=x.so:a" <> fmt_preload elf "x.so" (value_of "LD_PRELOAD" "LD_PRELOAD=x.so:a").
Proof. vm_compute. split; [reflexivity|]. split; [reflexivity|discriminate]. Qed.

(** The entry behind a removed duplicate is not looked at: of three
    preload entries in a row two are returned. *)
Lemma preload_third_in_a_row_survives :
  sudo_preload_dso elf always None
    (array_of ["LD_PRELOAD=a"; "LD_PRELOAD=b"; "LD_PRELOAD=c"]) "x.so" (-1)
    ≫= returned_env
  = Some ["LD_PRELOAD=x.so:a"; "LD_PRELOAD=c"].
Proof. reflexivity. Qed.

(** C8. The failing input: five preload entries in a row.  The first
    call returns three of them, the second call on that result returns
    two. *)
Theorem build_twice_keeps_duplicates :
  sudo_preload_dso elf always None (array_of env_five_preloads) "x.so" (-1)
    ≫= returned_env
  = Some ["LD_PRELOAD=x.so:a"; "LD_PRELOAD=c"; "LD_PRELOAD=e"]
  /\ build_twice elf always None env_five_preloads "x.so" (-1) ≫= returned_env
     = Some ["LD_PRELOAD=x.so:a"; "LD_PRELOAD=e"]
  /\ length (filter (is_preload elf) ["LD_PRELOAD=x.so:a"; "LD_PRELOAD=e"]) = 2.
Proof. vm_compute. auto. Qed.

(** ** The counting loop on any environment *)

Section ScanAll.
Context (P : platform) (dso_file : string) (intercept_fd : Z).

Local Abbreviation isP := (is_preload P).
Local Abbreviation isF := (is_checked_fd P intercept_fd).
Local Abbreviation loop := (scan_loop P dso_file intercept_fd).
Local Abbreviation IK := (idx_ok P intercept_fd).

Lemma idx_ok_snoc s K r : IK s K -> IK s (K ++ [r]).
Proof.
  intros (Hp & Hf & Hd & Hfd). split_and!; try done.
  - intros p Hpi. destruct (Hp p Hpi) as (e & Hl & He). exists e. split; [|done].
    rewrite lookup_app_l; [done|]. by apply lookup_lt_Some in Hl.
  - intros q Hqi. destruct (Hf q Hqi) as (e & Hl & He). exists e. split; [|done].
    rewrite lookup_app_l; [done|]. by apply lookup_lt_Some in Hl.
Qed.

Lemma scan_any_stop pre k s fuel :
  envp s = map Some pre ++ map Some [] ++ replicate (S k) None ->
  env_len s = length pre -> IK s pre ->
  scan_any P intercept_fd pre [] k s (loop fuel s).
Proof.
  intros Ha Hlen HI.
  rewrite scan_loop_stop by (rewrite Ha, Hlen; apply rd_entries_nil).
  exists [], k, 0. rewrite app_nil_r. split_and!; auto; try lia.
  constructor.
Qed.

Lemma scan_loop_any (n : nat) : forall suf pre k s fuel,
  length suf <= n ->
  envp s = map Some pre ++ map Some suf ++ replicate (S k) None ->
  env_len s = length pre ->
  length suf < fuel ->
  IK s pre ->
  scan_any P intercept_fd pre suf k s (loop fuel s).
Proof.
  induction n as [|n IH]; intros suf pre k s fuel Hn Ha Hlen Hfuel HI.
  { destruct suf; [|simpl in Hn; lia]. by apply scan_any_stop. }
  destruct suf as [|e t]; [by apply scan_any_stop|].
  destruct fuel as [|fuel]; [lia|]. cbn [length] in Hn, Hfuel.
  rewrite (scan_loop_step P dso_file intercept_fd fuel s e)
    by (rewrite Ha, Hlen; apply rd_entries_cons).
  (* the entry is removed, and the one behind it passed by *)
  assert (Hrm : forall s1, envp s1 = remove_entry (envp s) (env_len s) ->
            env_len s1 = S (length pre) ->
            preload_idx s1 = preload_idx s -> intercept_idx s1 = intercept_idx s ->
            dso_present s1 = dso_present s -> fd_present s1 = fd_present s ->
            dso_enabled s1 = dso_enabled s ->
            managed P intercept_fd e = true ->
            scan_any P intercept_fd pre (e :: t) k s (loop fuel s1)).
  { intros s1 Ha1 Hlen1 Hp1 Hf1 Hdp1 Hfp1 Hen1 Hm.
    rewrite Ha, Hlen, remove_entry_entries in Ha1.
    assert (HI1 : IK s1 pre).
    { destruct HI as (? & ? & ? & ?). unfold idx_ok. by rewrite Hp1, Hf1, Hdp1, Hfp1. }
    destruct t as [|r t'].
    - rewrite scan_loop_stop by (rewrite Ha1, Hlen1; apply rd_past_entries).
      exists [], (S k), 1. rewrite app_nil_r. split_and!; auto; try lia.
      + by repeat constructor.
      + by rewrite Hen1.
      + rewrite Hen1. auto.
    - rewrite snoc_entries in Ha1.
      assert (Hlen1' : env_len s1 = length (pre ++ [r])) by (rewrite length_app; simpl; lia).
      destruct (IH t' (pre ++ [r]) (S k) s1 fuel) as (K' & k' & oc & HA & HL & Hoc & Hk & HKl & HR & HIK & He1 & He2);
        [cbn [length] in *; lia|done|done|cbn [length] in *; lia|by apply idx_ok_snoc|].
      exists (r :: K'), k', oc.
      rewrite <- app_assoc in HA, HL, HIK. cbn [app] in HA, HL, HIK.
      split_and!; auto; try (cbn [length] in *; lia).
      + apply removes_drop; [done|]. by apply removes_keep.
      + by rewrite <- Hen1.
      + intros Hs'. destruct (He2 Hs') as [?|Hex]; [left; by rewrite <- Hen1|].
        right. cbn [existsb]. rewrite Hex. by rewrite !orb_true_r. }
  (* the entry is kept *)
  assert (Hkeep : forall s1, envp s1 = envp s ->
            env_len s1 = S (length pre) ->
            IK s1 (pre ++ [e]) ->
            (dso_enabled s = true -> dso_enabled s1 = true) ->
            (dso_enabled s1 = true -> dso_enabled s = true \/ is_enable P e = true) ->
            scan_any P intercept_fd pre (e :: t) k s (loop fuel s1)).
  { intros s1 Ha1 Hlen1 HI1 Hen1 Hen2.
    rewrite Ha, snoc_entries in Ha1.
    assert (Hlen1' : env_len s1 = length (pre ++ [e])) by (rewrite length_app; simpl; lia).
    destruct (IH t (pre ++ [e]) k s1 fuel) as (K' & k' & oc & HA & HL & Hoc & Hk & HKl & HR & HIK & He1 & He2);
      [lia|done|done|lia|done|].
    exists (e :: K'), k', oc.
    rewrite <- app_assoc in HA, HL, HIK. cbn [app] in HA, HL, HIK.
    split_and!; auto; try (cbn [length] in *; lia).
    + by apply removes_keep.
    + intros Hs'. destruct (He2 Hs') as [Hs1|Hex].
      * destruct (Hen2 Hs1) as [?|Hex]; [by left|]. right. cbn [existsb]. by rewrite Hex.
      * right. cbn [existsb]. rewrite Hex. by rewrite orb_true_r. }
  pose proof HI as (HIp & HIf & HIdp & HIfp).
  unfold scan_entry. fold (is_preload P e).
  destruct (isP e) eqn:HeP.
  - (* a preload entry *)
    destruct (preload_idx s) as [p|] eqn:Hp.
    + apply Hrm; scan_simpl; try done; [by rewrite Hlen|].
      unfold managed. by rewrite HeP.
    + assert (HI1 : forall s1, preload_idx s1 = Some (length pre) ->
                intercept_idx s1 = intercept_idx s -> fd_present s1 = fd_present s ->
                IK s1 (pre ++ [e])).
      { intros s1 Hp1 Hf1 Hfp1. split_and!.
        - rewrite Hp1. intros ? [= <-]. exists e. split; [|done].
          by apply list_lookup_middle.
        - rewrite Hf1. intros q Hq. destruct (HIf q Hq) as (x & Hl & Hx). exists x.
          split; [|done]. rewrite lookup_app_l; [done|]. by apply lookup_lt_Some in Hl.
        - by rewrite Hp1.
        - by rewrite Hfp1, Hf1. }
      destruct (dso_is_first P dso_file (value_of (RTLD_PRELOAD_VAR P) e));
        apply Hkeep; scan_simpl; try done; try (by rewrite Hlen); auto;
        apply HI1; scan_simpl; by rewrite ?Hlen.
  - destruct (isF e) eqn:HeF.
    + assert (Hfd : negb (intercept_fd =? -1)%Z && has_key "SUDO_INTERCEPT_FD" e = true).
      { unfold is_checked_fd, is_intercept_fd in HeF. rewrite HeP in HeF. exact HeF. }
      rewrite Hfd.
      destruct (intercept_idx s) as [q|] eqn:Hq.
      * apply Hrm; scan_simpl; try done; [by rewrite Hlen|].
        unfold managed. by rewrite HeF, orb_true_r.
      * assert (HI1 : forall s1, intercept_idx s1 = Some (length pre) ->
                  preload_idx s1 = preload_idx s -> dso_present s1 = dso_present s ->
                  IK s1 (pre ++ [e])).
        { intros s1 Hf1 Hp1 Hdp1. split_and!.
          - rewrite Hp1. intros p Hpi. destruct (HIp p Hpi) as (x & Hl & Hx). exists x.
            split; [|done]. rewrite lookup_app_l; [done|]. by apply lookup_lt_Some in Hl.
          - rewrite Hf1. intros ? [= <-]. exists e. split; [|done].
            by apply list_lookup_middle.
          - by rewrite Hdp1, Hp1.
          - by rewrite Hf1. }
        destruct (fd_matches P (value_of "SUDO_INTERCEPT_FD" e) intercept_fd);
          apply Hkeep; scan_simpl; try done; try (by rewrite Hlen); auto;
          apply HI1; scan_simpl; by rewrite ?Hlen.
    + assert (Hfd : negb (intercept_fd =? -1)%Z && has_key "SUDO_INTERCEPT_FD" e = false).
      { unfold is_checked_fd, is_intercept_fd in HeF. rewrite HeP in HeF. exact HeF. }
      rewrite Hfd.
      pose proof (idx_ok_snoc s pre e HI) as HI'.
      unfold is_enable in Hkeep.
      destruct (RTLD_PRELOAD_ENABLE_VAR P) as [var|]; [destruct (has_key var e) eqn:Hen|];
        apply Hkeep; scan_simpl; try done; try (by rewrite Hlen); auto.
Qed.

(** The counting loop on the array of any environment. *)
Lemma scan_envp_any (E : list string) :
  scan_any P intercept_fd [] E 0 (scan_init P (array_of E))
    (scan_envp P dso_file intercept_fd (array_of E)).
Proof.
  unfold scan_envp.
  apply (scan_loop_any (length E) E [] 0); try done.
  unfold array_of. rewrite length_app, length_map. simpl. lia.
Qed.

End ScanAll.

Lemma removes_refl (m : string -> bool) l : removes m l l.
Proof. induction l as [|x l IH]; by constructor. Qed.

Section Failure.
Context (P : platform) (alloc_ok : alloc_site -> bool) (junk : cell).

Local Abbreviation isP := (is_preload P).

Lemma filter_length_le (f g : string -> bool) (l : list string) :
  (forall x, f x = true -> g x = true) ->
  length (filter f l) <= length (filter g l).
Proof.
  intros Hfg. induction l as [|x l IH]; [done|].
  destruct (f x) eqn:Hf.
  - rewrite !filter_cons_True by (rewrite ?Hfg; by rewrite ?Hf). simpl. lia.
  - rewrite (filter_cons_False f) by (rewrite Hf; exact id).
    destruct (g x) eqn:Hg.
    + rewrite filter_cons_True by (by rewrite Hg). simpl. lia.
    + rewrite filter_cons_False by (rewrite Hg; exact id). done.
Qed.

(** An environment with at most one entry of each variable has no
    duplicate to remove. *)
Lemma dedup_nothing intercept_fd E : forall sp sf : bool,
  length (filter isP E) <= (if sp then 0 else 1) ->
  length (filter (is_checked_fd P intercept_fd) E) <= (if sf then 0 else 1) ->
  spaced P intercept_fd sp sf E = true /\ dedup P intercept_fd sp sf E = E.
Proof.
  induction E as [|e E IH]; intros sp sf HP HF; [done|].
  cbn [spaced dedup].
  destruct (isP e) eqn:HeP.
  - rewrite filter_cons_True in HP by (by rewrite HeP).
    rewrite filter_cons_False in HF by (unfold is_checked_fd; rewrite HeP; exact id).
    cbn [length] in HP. destruct sp; [lia|].
    destruct (IH true sf) as [-> ->]; [lia|done|done].
  - rewrite filter_cons_False in HP by (rewrite HeP; exact id).
    destruct (is_checked_fd P intercept_fd e) eqn:HeF.
    + rewrite filter_cons_True in HF by (by rewrite HeF).
      cbn [length] in HF. destruct sf; [lia|].
      destruct (IH sp true) as [-> ->]; [done|lia|done].
    + rewrite filter_cons_False in HF by (rewrite HeF; exact id).
      destruct (IH sp sf) as [-> ->]; done.
Qed.

Lemma add_preload_alloc dso_file s b f :
  add_preload P alloc_ok dso_file s b = Some f ->
  match f with
  | Next b1 =>
      (b1 = b \/ In A_preload (b_allocated b1))
      /\ (forall x, In x (b_allocated b1) -> In x (b_allocated b) \/ x = A_preload)
  | Goto_oom b1 => b1 = b
  end.
Proof.
  unfold add_preload.
  destruct (dso_present s); [intros [= <-]; auto|].
  assert (Happ : forall v b', append_entry v [A_preload] b = Some b' ->
            (b' = b \/ In A_preload (b_allocated b'))
            /\ (forall x, In x (b_allocated b') -> In x (b_allocated b) \/ x = A_preload)).
  { unfold append_entry. intros v b' Hb.
    destruct (store _ _ _); [|done]. cbn in Hb. destruct (store _ _ _); [|done].
    injection Hb as <-. cbn. split; [right; apply in_app_iff; right; by left|].
    intros x Hx. apply in_app_iff in Hx as [?|[<-|[]]]; auto. }
  assert (Hov : forall i v b', overwrite_entry i v [A_preload] b = Some b' ->
            (b' = b \/ In A_preload (b_allocated b'))
            /\ (forall x, In x (b_allocated b') -> In x (b_allocated b) \/ x = A_preload)).
  { unfold overwrite_entry. intros i v b' Hb.
    destruct (store _ _ _); [|done].
    injection Hb as <-. cbn. split; [right; apply in_app_iff; right; by left|].
    intros x Hx. apply in_app_iff in Hx as [?|[<-|[]]]; auto. }
  destruct (preload_idx s) as [p|].
  - destruct (rd _ _); [|done]. destruct (alloc_ok A_preload); [|by intros [= <-]].
    destruct (overwrite_entry _ _ _ _) eqn:H; [|done]. intros [= <-]. by eapply Hov.
  - destruct (alloc_ok A_preload); [|by intros [= <-]].
    destruct (append_entry _ _ _) eqn:H; [|done]. intros [= <-]. by eapply Happ.
Qed.

Lemma add_enable_alloc s b b2 :
  add_enable P s b = Some b2 ->
  b_allocated b2 = b_allocated b /\ (dso_enabled s = true -> b2 = b).
Proof.
  unfold add_enable. destruct (RTLD_PRELOAD_ENABLE_VAR P); [|by intros [= <-]].
  destruct (dso_enabled s); [by intros [= <-]|].
  unfold append_entry. destruct (store _ _ _); [|done]. cbn.
  destruct (store _ _ _); [|done]. intros [= <-]. cbn. by rewrite app_nil_r.
Qed.

Lemma add_intercept_fd_oom intercept_fd s b b3 :
  add_intercept_fd alloc_ok intercept_fd s b = Some (Goto_oom b3) -> b3 = b.
Proof.
  unfold add_intercept_fd. destruct (_ && _); [|done].
  destruct (alloc_ok A_fdstr); [|by intros [= <-]].
  destruct (intercept_idx s); destruct (_ _ _ _); done.
Qed.

(** What a failed [finish] leaves: nothing allocated is kept, and the
    array it worked on is the one it got unless the preload entry had
    been stored. *)
Lemma finish_failure dso_file intercept_fd copied s b o :
  finish P alloc_ok dso_file intercept_fd copied s b = Some o ->
  out_ret o = Ret_NULL ->
  ~ In A_fdstr (b_allocated b) ->
  (copied = false -> dso_enabled s = true) ->
  (forall x, In x (out_allocated o) -> In x (out_freed o))
  /\ (forall x, In x (out_allocated o) -> In x (b_allocated b) \/ x = A_preload)
  /\ (out_envp o = (if copied then envp s else b_cur b)
      \/ (copied = false /\ In A_preload (out_allocated o))).
Proof.
  intros Hfin Hret Hno Hen. unfold finish in Hfin.
  assert (Hoom : forall b', ~ In A_fdstr (b_allocated b') ->
            forall x, In x (out_allocated (oom_out copied s b')) ->
                      In x (out_freed (oom_out copied s b'))).
  { intros b' Hno' x Hx. unfold oom_out in *. cbn [out_allocated out_freed] in *.
    unfold frees_at_oom.
    apply list_elem_of_In, list_elem_of_filter. apply list_elem_of_In in Hx.
    split; [done|]. destruct x; try (apply list_elem_of_In; simpl; tauto).
    by apply list_elem_of_In in Hx. }
  destruct (add_preload _ _ _ _ _) as [[b1|b1]|] eqn:H1; cbn in Hfin; [| |done].
  - apply add_preload_alloc in H1 as [H1 H1'].
    destruct (add_enable _ _ _) as [b2|] eqn:H2; cbn in Hfin; [|done].
    apply add_enable_alloc in H2 as [H2 H2'].
    destruct (add_intercept_fd _ _ _ _) as [[b3|b3]|] eqn:H3; cbn in Hfin; [| |done].
    { injection Hfin as <-. cbn in Hret. by destruct copied. }
    apply add_intercept_fd_oom in H3 as ->. injection Hfin as <-.
    assert (Hno2 : ~ In A_fdstr (b_allocated b2)).
    { rewrite H2. intros Hin. apply H1' in Hin as [?|?]; [done|discriminate]. }
    split; [by apply Hoom|]. split.
    + cbn. rewrite H2. exact H1'.
    + cbn. destruct copied; [by left|].
      rewrite H2, (H2' (Hen eq_refl)).
      destruct H1 as [->|Hin]; [by left|right; done].
  - apply add_preload_alloc in H1 as ->. injection Hfin as <-.
    split; [by apply Hoom|]. split; [cbn; auto|]. left. done.
Qed.

Lemma filter_none (f : string -> bool) (l : list string) :
  (forall x, f x = false) -> filter f l = [].
Proof.
  intros Hf. induction l as [|x l IH]; [done|].
  by rewrite filter_cons_False by (rewrite Hf; exact id).
Qed.

Lemma preload_from_scan_failure allocated E dso_file intercept_fd o :
  (forall x, In x allocated -> x = A_dso_buf) ->
  preload_from_scan P alloc_ok junk allocated (array_of E) dso_file intercept_fd = Some o ->
  out_ret o = Ret_NULL ->
  (allocated = [] -> forall x, In x (out_allocated o) -> In x (out_freed o))
  /\ (out_envp o = envp (scan_envp P dso_file intercept_fd (array_of E))
      \/ (In A_preload (out_allocated o) /\ ~ In A_nenvp (out_allocated o))).
Proof.
  intros Hal Hrun Hret. unfold preload_from_scan in Hrun.
  set (s := scan_envp P dso_file intercept_fd (array_of E)) in *.
  destruct (needs_copy s) eqn:Hneed.
  - destruct (alloc_ok A_nenvp).
    + apply finish_failure in Hrun as (Hfree & _ & Henvp); [| done | | done].
      * split; [auto|]. left. by destruct Henvp as [?|[? _]].
      * cbn. intros Hin. apply in_app_iff in Hin as [Hin|[?|[]]]; [|done].
        by apply Hal in Hin.
    + injection Hrun as <-. cbn. split; [by intros ->|by left].
  - apply finish_failure in Hrun as (Hfree & Hsub & Henvp); [| done | |].
    + split; [auto|]. destruct Henvp as [?|[_ Hin]]; [by left|right].
      split; [done|]. intros Hn. apply Hsub in Hn as [Hn|?]; [|done].
      cbn in Hn. by apply Hal in Hn.
    + cbn. intros Hin. by apply Hal in Hin.
    + intros _. unfold needs_copy in Hneed.
      destruct (dso_enabled s); [done|]. cbn in Hneed. by rewrite orb_true_r in Hneed.
Qed.

(** C2, amended. When [sudo_preload_dso] fails, every allocation of the
    call has been released in a build without the sanitizer's library.
    Unless the failure comes after the new preload entry was stored
    into the caller's own array (the case this statement leaves open),
    the caller's array has been changed by nothing but the removal of
    entries of the two variables during the scan: it keeps its length,
    is NULL-terminated, and holds the environment without some of its
    preload and (when a descriptor is given) SUDO_INTERCEPT_FD entries;
    it is as the caller passed it when the environment has at most one
    preload entry and at most one SUDO_INTERCEPT_FD entry; and in a
    build without the sanitizer's library, when no duplicate of either
    variable is directly followed by an entry of either variable, it
    holds the environment without its duplicates. *)
Theorem preload_failure_leaves E dso_file intercept_fd o :
  sudo_preload_dso P alloc_ok junk (array_of E) dso_file intercept_fd = Some o ->
  out_ret o = Ret_NULL ->
  (PATH_ASAN_LIB P = None -> forall x, In x (out_allocated o) -> In x (out_freed o))
  /\ ((In A_preload (out_allocated o) -> In A_nenvp (out_allocated o)) ->
      (length (filter isP E) <= 1 ->
       (intercept_fd <> (-1)%Z -> length (filter is_intercept_fd E) <= 1) ->
       out_envp o = array_of E)
      /\ (PATH_ASAN_LIB P = None ->
          spaced P intercept_fd false false E = true ->
          env_of (out_envp o) = dedup P intercept_fd false false E)
      /\ (exists K k,
            out_envp o = map Some K ++ replicate (S k) None
            /\ length (out_envp o) = length (array_of E)
            /\ removes (managed P intercept_fd) E K)).
Proof.
  intros Hrun Hret.
  assert (Hfrom : (out_allocated o = [] /\ out_envp o = array_of E)
    \/ exists allocated,
         (forall x, In x allocated -> x = A_dso_buf)
         /\ (PATH_ASAN_LIB P = None -> allocated = [])
         /\ preload_from_scan P alloc_ok junk allocated (array_of E)
              (effective_dso P dso_file) intercept_fd = Some o).
  { unfold sudo_preload_dso, effective_dso in *.
    destruct (PATH_ASAN_LIB P) as [asan|].
    - destruct (alloc_ok A_dso_buf).
      + right. exists [A_dso_buf]. split_and!; [|done|exact Hrun].
        by intros x [<-|[]].
      + left. by injection Hrun as <-.
    - right. exists []. split_and!; [by intros x []|done|exact Hrun]. }
  destruct Hfrom as [[Hal Henvp]|(allocated & Hal & Hasan & Hfrom)].
  { rewrite Hal, Henvp. split; [by intros _ x []|]. intros _. split; [done|].
    split; [|exists E, 0; split_and!; [done|done|apply removes_refl]].
    intros Hn. unfold sudo_preload_dso in Hrun. rewrite Hn in Hrun.
    destruct (preload_from_scan_failure [] _ _ _ _ (fun x (Hx : In x []) => match Hx with end)
                Hrun Hret) as [_ Henvp'].
    intros Hsp.
    pose proof (scan_envp_spaced P dso_file intercept_fd E Hsp) as Hpost.
    destruct Hpost as (oc & Ha & _).
    destruct Henvp' as [Hs|[Hin _]]; [|by rewrite Hal in Hin].
    rewrite <- Henvp, Hs, Ha. cbn. apply env_of_entries. }
  destruct (preload_from_scan_failure _ _ _ _ _ Hal Hfrom Hret) as [Hfree Henvp].
  split; [intros Hn; by apply Hfree, Hasan|].
  intros Hstored.
  assert (Hs : out_envp o
            = envp (scan_envp P (effective_dso P dso_file) intercept_fd (array_of E))).
  { destruct Henvp as [?|[Hin Hn]]; [done|]. by apply Hstored in Hin. }
  split.
  - intros HP HF.
    assert (HF' : length (filter (is_checked_fd P intercept_fd) E) <= 1).
    { destruct (decide (intercept_fd = (-1)%Z)) as [->|Hne].
      - rewrite filter_none; [simpl; lia|]. intros x. unfold is_checked_fd.
        cbn. by rewrite andb_false_r.
      - etrans; [|exact (HF Hne)]. apply filter_length_le.
        intros x Hx. unfold is_checked_fd in Hx. by apply andb_prop in Hx as [_ ?]. }
    destruct (dedup_nothing intercept_fd E false false HP HF') as [Hsp Hd].
    pose proof (scan_envp_spaced P (effective_dso P dso_file) intercept_fd E Hsp) as Hpost.
    cbv zeta in Hpost. rewrite Hd, Nat.sub_diag in Hpost.
    destruct Hpost as (oc & Ha & _). by rewrite Hs, Ha.
  - split.
    + intros _ Hsp.
      pose proof (scan_envp_spaced P (effective_dso P dso_file) intercept_fd E Hsp) as Hpost.
      destruct Hpost as (oc & Ha & _). rewrite Hs, Ha. cbn. apply env_of_entries.
    + destruct (scan_envp_any P (effective_dso P dso_file) intercept_fd E)
        as (K & k & oc & Ha & _ & _ & _ & Hlen & Hrem & _).
      exists K, k. rewrite Hs, Ha. split_and!; [done| |done].
      unfold array_of. cbn [app] in *.
      rewrite !length_app, !length_map, length_replicate. cbn [length] in *. lia.
Qed.
End Failure.

Lemma preload_failure_leaves_witness :
  let E := ["HOME=/"; "LD_PRELOAD=a"] in
  sudo_preload_dso elf (fails_at A_preload) None (array_of E) "x.so" 3
    ≫= (fun o => Some (out_ret o, out_allocated o, out_freed o))
  = Some (Ret_NULL, [A_nenvp], [A_nenvp])
  /\ (sudo_preload_dso elf (fails_at A_preload) None (array_of E) "x.so" 3
        ≫= (fun o => Some (out_envp o))) = Some (array_of E).
Proof.
  cbv zeta. split; [reflexivity|].
  destruct (sudo_preload_dso elf (fails_at A_preload) None
              (array_of ["HOME=/"; "LD_PRELOAD=a"]) "x.so" 3) as [o|] eqn:Hrun;
    [|vm_compute in Hrun; discriminate].
  assert (Hret : out_ret o = Ret_NULL)
    by (vm_compute in Hrun; injection Hrun as <-; reflexivity).
  assert (Hst : In A_preload (out_allocated o) -> In A_nenvp (out_allocated o))
    by (vm_compute in Hrun; injection Hrun as <-; intros _; left; reflexivity).
  cbn. f_equal.
  apply (proj1 (proj2 (preload_failure_leaves elf (fails_at A_preload) None
                         ["HOME=/"; "LD_PRELOAD=a"] "x.so" 3%Z o Hrun Hret) Hst)).
  - vm_compute. lia.
  - intros _. vm_compute. lia.
Defined.

(** C2 as stated fails: the duplicate is taken out of the caller's
    array during the scan, before the allocation that fails. *)
Lemma preload_failure_after_removal :
  let E := ["LD_PRELOAD=a"; "LD_PRELOAD=b"] in
  sudo_preload_dso elf (fails_at A_nenvp) None (array_of E) "x.so" 3
    ≫= (fun o => Some (out_ret o, out_envp o))
  = Some (Ret_NULL, [Some "LD_PRELOAD=a"; None; None])
  /\ [Some "LD_PRELOAD=a"; None; None] <> array_of E.
Proof. cbv zeta. split; [reflexivity|discriminate]. Qed.

(** The case left open above: no copy of the array is needed, the new
    preload entry is stored into the caller's array, the string for the
    descriptor cannot be allocated, and the [oom] label frees the
    preload string the caller's array now points to. *)
Lemma preload_failure_after_store :
  let E := ["LD_PRELOAD=a"; "SUDO_INTERCEPT_FD=4"] in
  sudo_preload_dso elf (fails_at A_fdstr) None (array_of E) "x.so" 3
  = Some {| out_ret := Ret_NULL;
            out_envp := [Some "LD_PRELOAD=x.so:a"; Some "SUDO_INTERCEPT_FD=4"; None];
            out_nenvp := None;
            out_allocated := [A_preload];
            out_freed := [A_preload] |}.
Proof. reflexivity. Qed.

(** With an enable toggle to add, the new array is one cell short:
    [env_size] counts [dso_enabled] where the toggle is added when
    [dso_enabled] is false, and the terminator is written past the
    end. *)
Lemma preload_enable_toggle_overflows :
  sudo_preload_dso dyld always None (array_of ["A=1"]) "x.so" 3 = None.
Proof. reflexivity. Qed.

(** * Further properties *)

(** ** [exec_wrapper]: the ways out *)

(** X1. When no other [execve] can be found ([fn] is NULL), [exec_wrapper]
    returns -1 without consulting the oracle and without executing
    anything, and for a command given with a directory separator [errno]
    is [EACCES]. *)
Theorem exec_wrapper_no_next_execve (H : host) cmnd argv envp is_execvp e0 :
  next_execve H = None ->
  let r := run (exec_wrapper H cmnd argv envp is_execvp) e0 in
  r.1 = Returns (-1)%Z /\ trace r.2 = []
  /\ (contains_char "/" (str_val cmnd) = true -> errno r.2 = EACCES).
Proof.
  intros Hfn. cbv zeta. exec_goal.
  destruct (resolve_cmnd_returns H cmnd is_execvp {| errno := e0; trace := [] |})
    as (r0 & w0 & Heq & Ht).
  rewrite Heq. destruct w0 as [e1 t1]; simpl in Ht; subst t1.
  unfold resolve_cmnd in Heq.
  destruct r0 as [c'|]; rewrite ?Hfn; simpl.
  - split_and!; done.
  - split_and!; try done. intros Hs. rewrite Hs in Heq. done.
Qed.

Lemma exec_wrapper_no_next_execve_witness :
  let r := run (exec_wrapper host_without_execve script_cmnd script_argv caller_envp true)
             ENOENT in
  r.1 = Returns (-1)%Z /\ trace r.2 = [] /\ errno r.2 = EACCES.
Proof.
  destruct (exec_wrapper_no_next_execve host_without_execve script_cmnd script_argv
              caller_envp true ENOENT eq_refl) as (Hr & Ht & He).
  split; [exact Hr|]. split; [exact Ht|]. apply He. reflexivity.
Defined.

(** X2. A command name without a directory separator is refused before
    the oracle is asked: a call that does not search PATH ([is_execvp]
    false, as [execve] and [execv] make it) returns -1 with [errno]
    [ENOENT], and a PATH-searching call whose search fails returns -1
    with the [errno] [resolve_path] left.  Nothing is executed. *)
Theorem exec_wrapper_unresolved (H : host) cmnd argv envp is_execvp e0 :
  contains_char "/" (str_val cmnd) = false ->
  let r := run (exec_wrapper H cmnd argv envp is_execvp) e0 in
  let found := resolve_path H (str_val cmnd) (PATH_MAX H) {| errno := e0; trace := [] |} in
  (is_execvp = false -> r.1 = Returns (-1)%Z /\ errno r.2 = ENOENT /\ trace r.2 = [])
  /\ (is_execvp = true -> found.1 = None ->
      r.1 = Returns (-1)%Z /\ errno r.2 = errno found.2 /\ trace r.2 = [])
  /\ (let r := run (execve H cmnd argv envp) e0 in
      r.1 = Returns (-1)%Z /\ errno r.2 = ENOENT /\ trace r.2 = [])
  /\ (let r := run (execv H cmnd argv) e0 in
      r.1 = Returns (-1)%Z /\ errno r.2 = ENOENT /\ trace r.2 = []).
Proof.
  intros Hs. cbv zeta.
  assert (Hno : forall ev, run (exec_wrapper H cmnd argv ev false) e0
            = (Returns (-1)%Z, {| errno := ENOENT; trace := [] |})).
  { intros ev. exec_goal. unfold resolve_cmnd. by rewrite Hs. }
  split; [intros ->; by rewrite Hno|].
  split; [|split; [unfold execve; by rewrite Hno | unfold execv, execve; by rewrite Hno]].
  intros -> Hnone. exec_goal. unfold resolve_cmnd. rewrite Hs. simpl.
  pose proof (resolve_path_trace H (str_val cmnd) (PATH_MAX H)
                {| errno := e0; trace := [] |}) as Ht.
  destruct (resolve_path _ _ _ _) as [[p|] w']; simpl in *; [done|].
  by rewrite Ht.
Qed.

Lemma exec_wrapper_unresolved_witness :
  let r := run (exec_wrapper (sample_host oracle_keep alloc_none) bare_cmnd script_argv
                  caller_envp false) ENOEXEC in
  r.1 = Returns (-1)%Z /\ errno r.2 = ENOENT /\ trace r.2 = [].
Proof.
  exact (proj1 (exec_wrapper_unresolved (sample_host oracle_keep alloc_none) bare_cmnd
                  script_argv caller_envp false ENOEXEC eq_refl) eq_refl).
Defined.

(** X3. After an approval the first thing [exec_wrapper] does is to call
    the real [execve] with the command, the arguments and the environment
    the oracle returned, whatever the caller passed; when that call
    succeeds the process image is replaced and nothing else happens. *)
Theorem exec_wrapper_runs_oracle_request
    (H : host) cmnd argv envp is_execvp e0 c w1 fn nc na ne :
  resolve_cmnd H cmnd is_execvp {| errno := e0; trace := [] |} = (Returns (Some c), w1) ->
  next_execve H = Some fn ->
  command_allowed H c argv envp = (true, (nc, na, ne)) ->
  let r := run (exec_wrapper H cmnd argv envp is_execvp) e0 in
  let request := Ev_execve (str_val <$> nc) (array_of <$> (vec_items <$> na)) ne in
  (exists rest, trace r.2 = Ev_command_allowed c argv envp true :: request :: rest)
  /\ (fn (str_val <$> nc) (array_of <$> (vec_items <$> na)) ne = None ->
      r.1 = Replaced /\ trace r.2 = [Ev_command_allowed c argv envp true; request]).
Proof.
  intros Hres Hfn Hor. cbv zeta.
  destruct (resolve_cmnd_returns H cmnd is_execvp {| errno := e0; trace := [] |})
    as (r0 & w0 & Heq & Ht). rewrite Hres in Heq. simplify_eq.
  destruct w0 as [e1 t1]; simpl in Ht; subst t1.
  exec_goal. rewrite Hres, Hfn, Hor. simpl. split.
  - repeat (case_match; simpl in *; simplify_eq); simpl; by eexists.
  - intros ->. done.
Qed.

Lemma exec_wrapper_runs_oracle_request_witness :
  let r := run (exec_wrapper running_host script_cmnd script_argv caller_envp false)
             ENOENT in
  r.1 = Replaced
  /\ trace r.2 =
     [Ev_command_allowed script_cmnd script_argv caller_envp true;
      Ev_execve (Some "/opt/policy/script")
        (Some (array_of ["script"; "--checked"; "y"])) (Some caller_envp)].
Proof.
  exact (proj2 (exec_wrapper_runs_oracle_request running_host script_cmnd script_argv
                  caller_envp false ENOENT script_cmnd {| errno := ENOENT; trace := [] |}
                  execve_runs
                  (Some {| str_addr := 11; str_val := "/opt/policy/script" |})
                  (Some {| vec_addr := 12; vec_items := ["script"; "--checked"; "y"] |})
                  (Some caller_envp) eq_refl eq_refl eq_refl) eq_refl).
Defined.

(** X4. When the approved real [execve] fails with anything but
    [ENOEXEC], no variant falls back to the shell: the call returns -1
    with that [errno], the real [execve] was called once and no array
    was allocated. *)
Theorem exec_wrapper_exec_failure
    (H : host) cmnd argv envp is_execvp e0 c w1 fn nc na ne e :
  resolve_cmnd H cmnd is_execvp {| errno := e0; trace := [] |} = (Returns (Some c), w1) ->
  next_execve H = Some fn ->
  command_allowed H c argv envp = (true, (nc, na, ne)) ->
  fn (str_val <$> nc) (array_of <$> (vec_items <$> na)) ne = Some e ->
  e <> ENOEXEC ->
  let r := run (exec_wrapper H cmnd argv envp is_execvp) e0 in
  r.1 = Returns (-1)%Z /\ errno r.2 = e
  /\ filter is_execve_event (trace r.2)
     = [Ev_execve (str_val <$> nc) (array_of <$> (vec_items <$> na)) ne]
  /\ filter is_alloc_event (trace r.2) = [].
Proof.
  intros Hres Hfn Hor Hex He. cbv zeta.
  destruct (resolve_cmnd_returns H cmnd is_execvp {| errno := e0; trace := [] |})
    as (r0 & w0 & Heq & Ht). rewrite Hres in Heq. simplify_eq.
  destruct w0 as [e1 t1]; simpl in Ht; subst t1.
  exec_goal. rewrite Hres, Hfn, Hor. simpl. rewrite Hex. simpl.
  rewrite bool_decide_eq_false_2 by done. simpl.
  repeat (case_match; simpl in *; simplify_eq); simpl; done.
Qed.

Lemma exec_wrapper_exec_failure_witness :
  let r := run (exec_wrapper (sample_host oracle_keep alloc_none) shell_cmnd script_argv
                  caller_envp true) ENOENT in
  r.1 = Returns (-1)%Z /\ errno r.2 = EACCES
  /\ filter is_execve_event (trace r.2)
     = [Ev_execve (Some "/bin/sh") (Some (array_of ["script"; "x"; "y"]))
          (Some caller_envp)]
  /\ filter is_alloc_event (trace r.2) = [].
Proof.
  apply (exec_wrapper_exec_failure (sample_host oracle_keep alloc_none) shell_cmnd
           script_argv caller_envp true ENOENT shell_cmnd
           {| errno := ENOENT; trace := [] |} execve_scripts_only
           (Some shell_cmnd) (Some script_argv) (Some caller_envp) EACCES);
    [reflexivity | reflexivity | reflexivity | reflexivity | discriminate].
Defined.

(** X5. The array for the shell is never leaked: a call of
    [exec_wrapper] that returns after allocating it is a PATH-searching
    call, allocated it once, handed it to the shell's [execve] and
    freed it right after that call returned. *)
Theorem exec_wrapper_releases_shargv (H : host) cmnd argv envp is_execvp e0 r w' a :
  run (exec_wrapper H cmnd argv envp is_execvp) e0 = (Returns r, w') ->
  In (Ev_alloc a) (trace w') ->
  is_execvp = true
  /\ reallocarray H (length (vec_items argv) + 2) = Some a
  /\ exists t1 sh ne t2,
       trace w' = t1 ++ [Ev_alloc a; Ev_execve (Some (PATH_SUDO_BSHELL H)) sh ne; Ev_free a]
                     ++ t2
       /\ filter is_alloc_event t1 = [] /\ filter is_alloc_event t2 = [].
Proof.
  exec_goal.
  destruct (resolve_cmnd_returns H cmnd is_execvp {| errno := e0; trace := [] |})
    as (r0 & w0 & Heq & Ht).
  rewrite Heq. destruct w0 as [e1 t1]; simpl in Ht; subst t1.
  destruct r0 as [c'|]; [|by intros [= <- <-] []].
  destruct (next_execve H) as [fn|]; [|by intros [= <- <-] []].
  destruct (command_allowed H c' argv envp) as [allowed [[nc na] ne]] eqn:Hor.
  simpl.
  destruct allowed; simpl.
  - destruct (fn _ _ _) as [e|] eqn:Hfn1; simpl; [|discriminate].
    destruct (bool_decide (e = ENOEXEC)) eqn:He; simpl.
    + destruct is_execvp; simpl.
      * destruct (reallocarray H _) as [a'|] eqn:Hra; simpl.
        2:{ intros [= <- <-]. simpl. intuition discriminate. }
        destruct (memcpy_cells _ _ _); simpl; [|discriminate].
        destruct (fn (Some (PATH_SUDO_BSHELL H)) _ _) as [e2|] eqn:Hfn2; simpl; [|discriminate].
        intros Hrun Hin.
        assert (a' = a) as ->.
        { repeat (case_match; simpl in *; simplify_eq); simpl in *;
            intuition (simplify_eq; done). }
        split; [done|]. split; [done|].
        repeat (case_match; simpl in *; simplify_eq); simpl;
          eexists [_; _], _, _, _; split_and!; reflexivity.
      * intros Hrun Hin. exfalso.
        repeat (case_match; simpl in *; simplify_eq); simpl in *; intuition discriminate.
    + intros Hrun Hin. exfalso.
      repeat (case_match; simpl in *; simplify_eq); simpl in *; intuition discriminate.
  - intros Hrun Hin. exfalso.
    repeat (case_match; simpl in *; simplify_eq); simpl in *; intuition discriminate.
Qed.

Lemma exec_wrapper_releases_shargv_witness :
  let w := (run (exec_wrapper (sample_host oracle_keep (alloc_at 500)) script_cmnd
                   script_argv caller_envp true) ENOENT).2 in
  In (Ev_alloc 500) (trace w)
  /\ exists t1 sh ne t2,
       trace w = t1 ++ [Ev_alloc 500; Ev_execve (Some "/bin/sh") sh ne; Ev_free 500] ++ t2
       /\ filter is_alloc_event t1 = [] /\ filter is_alloc_event t2 = [].
Proof.
  assert (Hin : In (Ev_alloc 500)
    (trace (run (exec_wrapper (sample_host oracle_keep (alloc_at 500)) script_cmnd
                   script_argv caller_envp true) ENOENT).2)).
  { vm_compute. right. right. left. reflexivity. }
  split; [exact Hin|].
  exact (proj2 (proj2 (exec_wrapper_releases_shargv (sample_host oracle_keep (alloc_at 500))
                         script_cmnd script_argv caller_envp true ENOENT (-1)%Z _ 500
                         eq_refl Hin))).
Defined.

(** X6. The oracle is asked about the command [exec_wrapper] would
    run: the caller's command when it has a directory separator, and
    otherwise, in a PATH-searching call only, the path [resolve_path]
    found, held in [cmnd_buf]. *)
Theorem exec_wrapper_asks_about_resolved (H : host) cmnd argv envp is_execvp e0 c a e v :
  In (Ev_command_allowed c a e v)
     (trace (run (exec_wrapper H cmnd argv envp is_execvp) e0).2) ->
  if contains_char "/" (str_val cmnd) then c = cmnd
  else is_execvp = true /\ str_addr c = cmnd_buf H
       /\ (resolve_path H (str_val cmnd) (PATH_MAX H) {| errno := e0; trace := [] |}).1
          = Some (str_val c).
Proof.
  intros Hin. apply exec_wrapper_oracle_event in Hin as (w1 & fn & Hres & _).
  unfold resolve_cmnd in Hres.
  destruct (contains_char _ _); [by injection Hres as ->|].
  destruct is_execvp; simpl in Hres; [|done].
  destruct (resolve_path _ _ _ _) as [[p|] w']; [|done].
  by injection Hres as <- <-.
Qed.

Lemma exec_wrapper_asks_about_resolved_witness :
  let H := path_host "/missing:/noperm:/ok" in
  In (Ev_command_allowed {| str_addr := 50; str_val := "/ok/cmd" |} script_argv
        caller_envp true)
     (trace (run (exec_wrapper H bare_cmnd script_argv caller_envp true) ENOENT).2)
  /\ (resolve_path H "cmd" (PATH_MAX H) {| errno := ENOENT; trace := [] |}).1
     = Some "/ok/cmd".
Proof.
  cbv zeta.
  assert (Hin : In (Ev_command_allowed {| str_addr := 50; str_val := "/ok/cmd" |}
                      script_argv caller_envp true)
    (trace (run (exec_wrapper (path_host "/missing:/noperm:/ok") bare_cmnd script_argv
                   caller_envp true) ENOENT).2)).
  { vm_compute. left. reflexivity. }
  split; [exact Hin|].
  exact (proj2 (proj2 (exec_wrapper_asks_about_resolved (path_host "/missing:/noperm:/ok")
                         bare_cmnd script_argv caller_envp true ENOENT _ _ _ _ Hin))).
Defined.

(** ** [resolve_path]: where the search ends *)

Section Stops.
Context (H : host) (cmnd : string) (out_size : nat).

Lemma try_dirs_fits dirs : forall errval w p,
  (try_dirs H cmnd out_size dirs errval w).1 = Some p ->
  String.length p < out_size /\ String.length p < PATH_MAX H /\ stat H p = None
  /\ exists dir, In dir dirs /\ p = candidate dir cmnd.
Proof.
  induction dirs as [|d dirs IH]; intros errval w p; [done|].
  cbn [try_dirs].
  assert (Hnext : forall errval' w',
    (try_dirs H cmnd out_size dirs errval' w').1 = Some p ->
    String.length p < out_size /\ String.length p < PATH_MAX H /\ stat H p = None
    /\ exists dir, In dir (d :: dirs) /\ p = candidate dir cmnd).
  { intros errval' w' Hp. destruct (IH _ _ _ Hp) as (? & ? & ? & dir & ? & ?).
    split_and!; try done. exists dir. split; [by right|done]. }
  destruct (Nat.leb_spec (PATH_MAX H) (String.length (candidate d cmnd))) as [Hle|Hlt].
  - apply Hnext.
  - destruct (stat H (candidate d cmnd)) as [e|] eqn:Hst.
    + destruct e; try done; apply Hnext.
    + destruct (Nat.leb_spec out_size (String.length (candidate d cmnd))); [done|].
      intros [= <-]. split_and!; try done. exists d. split; [by left|done].
Qed.

Lemma try_dirs_stops before : forall dir after errval w,
  forallb (passed_over H cmnd) before = true ->
  String.length (candidate dir cmnd) < PATH_MAX H ->
  (forall e, stat H (candidate dir cmnd) = Some e -> hard_error e = true ->
     try_dirs H cmnd out_size (before ++ dir :: after) errval w
     = (None, set_errno e (try_dirs H cmnd out_size before errval w).2))
  /\ (stat H (candidate dir cmnd) = None ->
      out_size <= String.length (candidate dir cmnd) ->
      (try_dirs H cmnd out_size (before ++ dir :: after) errval w).1 = None
      /\ errno (try_dirs H cmnd out_size (before ++ dir :: after) errval w).2
         = ENAMETOOLONG).
Proof.
  induction before as [|d before IH]; intros dir after errval w Hb Hlen.
  - cbn [app try_dirs].
    destruct (Nat.leb_spec (PATH_MAX H) (String.length (candidate dir cmnd))); [lia|].
    split.
    + intros e -> He. by destruct e.
    + intros -> Hout.
      destruct (Nat.leb_spec out_size (String.length (candidate dir cmnd))); [done|lia].
  - cbn [forallb] in Hb. apply andb_prop in Hb as [Hd Hb].
    cbn [app try_dirs]. unfold passed_over, too_long in Hd.
    destruct (PATH_MAX H <=? _)%nat; [by apply IH|].
    simpl in Hd. apply bool_decide_eq_true, list_elem_of_In in Hd. simpl in Hd.
    destruct (stat H (candidate d cmnd)) as [e|].
    + destruct e; try (by apply IH); intuition discriminate.
    + intuition discriminate.
Qed.

End Stops.

(** X7. A path [resolve_path] returns is never cut short: it is the
    whole candidate for one of the PATH components, [stat] accepted it,
    and it is shorter than both [PATH_MAX] and the size of the buffer it
    was copied to. *)
Theorem resolve_path_fits (H : host) cmnd out_size w path :
  (resolve_path H cmnd out_size w).1 = Some path ->
  String.length path < out_size /\ String.length path < PATH_MAX H
  /\ stat H path = None
  /\ exists value dir,
       find_PATH (vec_items (environ H)) = Some value
       /\ In dir (path_dirs value) /\ path = candidate dir cmnd.
Proof.
  rewrite resolve_path_try_dirs.
  destruct (find_PATH _) as [value|]; [|done].
  intros Hp. apply try_dirs_fits in Hp as (? & ? & ? & dir & ? & ?).
  split_and!; try done. by exists value, dir.
Qed.

Lemma resolve_path_fits_witness :
  let H := path_host "/missing:/noperm:/ok" in
  String.length "/ok/cmd" < 4096 /\ stat H "/ok/cmd" = None.
Proof.
  destruct (resolve_path_fits (path_host "/missing:/noperm:/ok") "cmd" 4096
              {| errno := ENOEXEC; trace := [] |} "/ok/cmd" eq_refl)
    as (Hlen & _ & Hst & _).
  split; [exact Hlen|exact Hst].
Defined.

(** X8. A [stat] failure other than [EACCES], [ELOOP], [ENOTDIR] and
    [ENOENT] ends the search at once: [resolve_path] fails with that
    [errno], whatever the components behind it hold. *)
Theorem resolve_path_hard_error (H : host) cmnd out_size w value before dir after e :
  find_PATH (vec_items (environ H)) = Some value ->
  path_dirs value = before ++ dir :: after ->
  forallb (passed_over H cmnd) before = true ->
  String.length (candidate dir cmnd) < PATH_MAX H ->
  stat H (candidate dir cmnd) = Some e ->
  hard_error e = true ->
  (resolve_path H cmnd out_size w).1 = None
  /\ errno (resolve_path H cmnd out_size w).2 = e.
Proof.
  intros Hp Hd Hb Hlen Hst He. rewrite resolve_path_try_dirs, Hp, Hd.
  destruct (try_dirs_stops H cmnd out_size before dir after ENOENT w Hb Hlen) as [Hhard _].
  by rewrite (Hhard e Hst He).
Qed.

Lemma resolve_path_hard_error_witness :
  let H := path_host "/broken:/ok" in
  let r := resolve_path H "cmd" (PATH_MAX H) {| errno := ENOENT; trace := [] |} in
  stat H "/ok/cmd" = None /\ r.1 = None /\ errno r.2 = EOTHER 5.
Proof.
  split; [reflexivity|].
  apply (resolve_path_hard_error (path_host "/broken:/ok") "cmd" _
           {| errno := ENOENT; trace := [] |} "/broken:/ok" [] "/broken" ["/ok"] (EOTHER 5));
    [reflexivity | reflexivity | reflexivity | vm_compute; lia | reflexivity | reflexivity].
Defined.

(** X9. A candidate [stat] accepts but [out_cmnd] cannot hold ends the
    search as well: [resolve_path] fails with [ENAMETOOLONG] and tries
    no further component. *)
Theorem resolve_path_found_too_long (H : host) cmnd out_size w value before dir after :
  find_PATH (vec_items (environ H)) = Some value ->
  path_dirs value = before ++ dir :: after ->
  forallb (passed_over H cmnd) before = true ->
  String.length (candidate dir cmnd) < PATH_MAX H ->
  stat H (candidate dir cmnd) = None ->
  out_size <= String.length (candidate dir cmnd) ->
  (resolve_path H cmnd out_size w).1 = None
  /\ errno (resolve_path H cmnd out_size w).2 = ENAMETOOLONG.
Proof.
  intros Hp Hd Hb Hlen Hst Hout. rewrite resolve_path_try_dirs, Hp, Hd.
  destruct (try_dirs_stops H cmnd out_size before dir after ENOENT w Hb Hlen) as [_ Hfit].
  by apply Hfit.
Qed.

Lemma resolve_path_found_too_long_witness :
  let H := path_host "/ok:/missing" in
  let r := resolve_path H "cmd" 3 {| errno := ENOENT; trace := [] |} in
  r.1 = None /\ errno r.2 = ENAMETOOLONG.
Proof.
  apply (resolve_path_found_too_long (path_host "/ok:/missing") "cmd" 3
           {| errno := ENOENT; trace := [] |} "/ok:/missing" [] "/ok" ["/missing"]);
    [reflexivity | reflexivity | reflexivity | vm_compute; lia | reflexivity
    | vm_compute; lia].
Defined.

Lemma path_dirs_trailing_colon dirs :
  forallb (fun d => negb (contains_char ":" d)) dirs = true ->
  path_dirs (join_colon (dirs ++ [EmptyString])) = dirs.
Proof.
  induction dirs as [|d dirs IH]; intros Hc; [done|].
  cbn [forallb] in Hc. apply andb_prop in Hc as [Hd Hc].
  apply negb_true_iff in Hd.
  assert (Hj : join_colon ((d :: dirs) ++ [""])
               = (d ++ String ":" (join_colon (dirs ++ [""])))%string).
  { destruct dirs; reflexivity. }
  rewrite Hj, (path_dirs_cons _ _ Hd). f_equal. by apply IH.
Qed.

(** X10. A colon at the end of PATH adds no component: the loop ends
    when the text is used up, so the empty component behind the last
    colon is not tried, while an empty component anywhere else is tried
    as the current directory. *)
Theorem resolve_path_trailing_colon (H : host) cmnd out_size w dirs :
  forallb (fun d => negb (contains_char ":" d)) dirs = true ->
  path_dirs (join_colon (dirs ++ [EmptyString])) = dirs
  /\ (find_PATH (vec_items (environ H)) = Some (join_colon (dirs ++ [EmptyString])) ->
      resolve_path H cmnd out_size w = try_dirs H cmnd out_size dirs ENOENT w).
Proof.
  intros Hc. split; [by apply path_dirs_trailing_colon|].
  intros Hp. by rewrite resolve_path_try_dirs, Hp, path_dirs_trailing_colon.
Qed.

Lemma resolve_path_trailing_colon_witness :
  let H := path_host "/missing:/ok:" in
  path_dirs "/missing:/ok:" = ["/missing"; "/ok"]
  /\ resolve_path H "cmd" 4096 {| errno := ENOENT; trace := [] |}
     = try_dirs H "cmd" 4096 ["/missing"; "/ok"] ENOENT {| errno := ENOENT; trace := [] |}.
Proof.
  destruct (resolve_path_trailing_colon (path_host "/missing:/ok:") "cmd" 4096
              {| errno := ENOENT; trace := [] |} ["/missing"; "/ok"] eq_refl) as [Hd Hr].
  split; [exact Hd|exact (Hr eq_refl)].
Defined.

(** X11. [resolve_path] searches the value of the first entry of
    [environ] that begins with [PATH=]; entries behind it are not looked
    at. *)
Theorem resolve_path_first_PATH_entry (H : host) cmnd out_size w pre value post :
  vec_items (environ H) = pre ++ ("PATH=" ++ value)%string :: post ->
  forallb (fun e => negb (has_key "PATH" e)) pre = true ->
  find_PATH (vec_items (environ H)) = Some value
  /\ resolve_path H cmnd out_size w
     = path_loop H cmnd out_size (S (String.length value)) value ENOENT w.
Proof.
  intros Henv Hpre.
  assert (Hf : find_PATH (vec_items (environ H)) = Some value)
    by (rewrite Henv; by apply find_PATH_first).
  split; [done|]. unfold resolve_path. by rewrite Hf.
Qed.

Lemma resolve_path_first_PATH_entry_witness :
  find_PATH (vec_items (environ (sample_host oracle_keep alloc_none)))
  = Some "/missing:/noperm:/ok".
Proof.
  exact (proj1 (resolve_path_first_PATH_entry (sample_host oracle_keep alloc_none) "cmd" 4096
                  {| errno := ENOENT; trace := [] |} ["HOME=/root"] "/missing:/noperm:/ok" []
                  eq_refl eq_refl)).
Defined.

(** ** [exec_wrapper]: the order of its calls *)

Section CallFrame.
Context (H : host).

Lemma path_loop_frame cmnd out_size fuel : forall cp errval w,
  path_loop H cmnd out_size fuel cp errval w =
  ((path_loop H cmnd out_size fuel cp errval {| errno := errno w; trace := [] |}).1,
   {| errno := errno (path_loop H cmnd out_size fuel cp errval
                        {| errno := errno w; trace := [] |}).2;
      trace := trace w |}).
Proof.
  induction fuel as [|fuel IH]; intros cp errval w; simpl; [by destruct w|].
  destruct cp as [|c cp]; [done|].
  destruct (split_colon (String c cp)) as [dir colon].
  destruct (PATH_MAX H <=? _)%nat; [by rewrite IH|].
  destruct (stat H _) as [e|].
  - destruct e; simpl; try done; by rewrite IH.
  - destruct (out_size <=? _)%nat; [done|by destruct w].
Qed.

Lemma resolve_cmnd_frame cmnd is_execvp w :
  resolve_cmnd H cmnd is_execvp w =
  ((resolve_cmnd H cmnd is_execvp {| errno := errno w; trace := [] |}).1,
   {| errno := errno (resolve_cmnd H cmnd is_execvp {| errno := errno w; trace := [] |}).2;
      trace := trace w |}).
Proof.
  unfold resolve_cmnd.
  destruct (contains_char _ _); [by destruct w|].
  destruct is_execvp; simpl; [|done].
  unfold resolve_path. destruct (find_PATH _) as [cp|]; [|done].
  rewrite path_loop_frame.
  by destruct (path_loop _ _ _ _ _ _ _) as [[p|] w'].
Qed.

(** A call of [exec_wrapper] reads nothing of the state but [errno],
    and adds its calls to the record. *)
Lemma exec_wrapper_frame cmnd argv envp is_execvp w :
  exec_wrapper H cmnd argv envp is_execvp w =
  ((run (exec_wrapper H cmnd argv envp is_execvp) (errno w)).1,
   {| errno := errno (run (exec_wrapper H cmnd argv envp is_execvp) (errno w)).2;
      trace := trace w ++ trace (run (exec_wrapper H cmnd argv envp is_execvp) (errno w)).2 |}).
Proof.
  exec_goal. rewrite (resolve_cmnd_frame cmnd is_execvp w).
  destruct (resolve_cmnd_returns H cmnd is_execvp {| errno := errno w; trace := [] |})
    as (r0 & w0 & Heq & Ht).
  rewrite Heq. destruct w0 as [e1 t1]; simpl in Ht; subst t1. simpl.
  destruct r0 as [c'|]; [|by rewrite app_nil_r].
  destruct (next_execve H) as [fn|]; [|simpl; by rewrite app_nil_r].
  destruct (command_allowed H c' argv envp) as [allowed [[nc na] ne]] eqn:Hor.
  simpl.
  repeat (case_match; simpl in *; simplify_eq); unfold log, set_errno; simpl;
    rewrite <- ?app_assoc, ?app_nil_r; simpl; done.
Qed.

End CallFrame.

(** What a call of [exec_wrapper] records: nothing when it returns
    before the oracle is reached, and otherwise the oracle's answer
    first and once. *)
Lemma exec_wrapper_shape (H : host) cmnd argv envp is_execvp e0 :
  let r := run (exec_wrapper H cmnd argv envp is_execvp) e0 in
  (r.1 = Returns (-1)%Z /\ trace r.2 = [])
  \/ exists c rest,
       trace r.2 = Ev_command_allowed c argv envp (command_allowed H c argv envp).1 :: rest
       /\ filter is_oracle_event rest = []
       /\ ((command_allowed H c argv envp).1 = false ->
           forallb is_free_event rest = true
           /\ r.1 = Returns (-1)%Z /\ errno r.2 = EACCES).
Proof.
  cbv zeta. exec_goal.
  destruct (resolve_cmnd_returns H cmnd is_execvp {| errno := e0; trace := [] |})
    as (r0 & w0 & Heq & Ht).
  rewrite Heq. destruct w0 as [e1 t1]; simpl in Ht; subst t1.
  destruct r0 as [c'|]; [|by left].
  destruct (next_execve H) as [fn|]; [|by left].
  right. exists c'.
  destruct (command_allowed H c' argv envp) as [allowed [[nc na] ne]] eqn:Hor.
  simpl.
  repeat (case_match; simpl in *; simplify_eq); simpl;
    eexists; split_and!; try reflexivity; try done.
Qed.

(** X12. In a call of [exec_wrapper] the oracle is consulted at most
    once and before anything else the call does: whatever is executed,
    allocated or freed comes after its answer, and after a denial
    nothing follows but the release of what the oracle returned. *)
Theorem exec_wrapper_oracle_first (H : host) cmnd argv envp is_execvp e0 :
  let t := trace (run (exec_wrapper H cmnd argv envp is_execvp) e0).2 in
  t = [] \/
  exists c rest,
    t = Ev_command_allowed c argv envp (command_allowed H c argv envp).1 :: rest
    /\ filter is_oracle_event rest = []
    /\ ((command_allowed H c argv envp).1 = false -> forallb is_free_event rest = true).
Proof.
  cbv zeta.
  destruct (exec_wrapper_shape H cmnd argv envp is_execvp e0) as [[_ Ht]|(c & rest & Ht & Ho & Hd)].
  - by left.
  - right. exists c, rest. split_and!; try done. intros Hv. by apply Hd.
Qed.

(** ** The variadic entry points *)

Lemma store_middle (pre : list cell) c rest v :
  store (pre ++ c :: rest) (length pre) v = Some (pre ++ v :: rest).
Proof.
  unfold store. destruct (decide _) as [_|Hn].
  - rewrite insert_app_r_alt by lia. by rewrite Nat.sub_diag.
  - rewrite length_app in Hn. simpl in Hn. lia.
Qed.

Lemma va_count_args args tail : forall argc,
  va_count (va_args args tail) argc = Some (argc + length args).
Proof.
  induction args as [|s args IH]; intros argc; cbn.
  - f_equal. lia.
  - fold (va_args args tail). rewrite IH. f_equal. lia.
Qed.

Lemma va_fill_args args tail : forall (pre : list string) (rest : list cell),
  length rest = S (length args) ->
  va_fill (va_args args tail) (map Some pre ++ rest) (length pre)
  = Some (map Some (pre ++ args) ++ [None], tail).
Proof.
  induction args as [|s args IH]; intros pre rest Hlen.
  - destruct rest as [|c [|? ?]]; try done. cbn.
    rewrite <- (length_map Some pre) at 1. rewrite store_middle. cbn.
    by rewrite app_nil_r.
  - destruct rest as [|c rest]; [done|]. injection Hlen as Hlen.
    cbn. fold (va_args args tail).
    rewrite <- (length_map Some pre) at 1. rewrite store_middle. cbn.
    pose proof (IH (pre ++ [s]) rest Hlen) as IH'.
    rewrite map_app, length_app, Nat.add_1_r in IH'. cbn [map length] in IH'.
    rewrite <- !app_assoc in IH'. exact IH'.
Qed.

Lemma va_fill_first args tail a0 (junk : cell) :
  va_fill (va_args args tail) (Some a0 :: replicate (S (length args)) junk) 1
  = Some (Some a0 :: map Some args ++ [None], tail).
Proof. exact (va_fill_args args tail [a0] _ (length_replicate _ _)). Qed.

(** X13. The variadic arguments reach [exec_wrapper] as they were
    written: [arg] and the arguments before the terminator, in their
    order, in an array of their number plus one cells; the environment
    is [environ], and for [execle] the one that follows the terminator;
    PATH is searched for [execlp] only.  The array is freed when
    [exec_wrapper] returns. *)
Theorem execl_wrapper_marshals (H : host) junk type name a0 args tail block envp w :
  reallocarray H (length args + 2) = Some block ->
  (if Z.eqb type SUDO_EXECLE then exists tail', tail = VA_env envp :: tail'
   else envp = environ H) ->
  execl_wrapper H junk type name (Some a0) (va_args args tail) w
  = (_ ← emit (Ev_alloc block);
     _ ← exec_wrapper H name {| vec_addr := block; vec_items := a0 :: args |} envp
           (Z.eqb type SUDO_EXECLP);
     _ ← free (Some block);
     mret (-1)%Z) w.
Proof.
  intros Hra Henv. unfold execl_wrapper.
  rewrite va_count_args.
  replace (1 + length args + 1) with (length args + 2) by lia. rewrite Hra.
  replace (length args + 2) with (S (S (length args))) by lia.
  change (replicate (S (S (length args))) junk)
    with (junk :: replicate (S (length args)) junk).
  unfold store at 1. cbn [length].
  destruct (decide _) as [_|Hn]; [|lia].
  change (<[0:=Some a0]> (junk :: replicate (S (length args)) junk))
    with (Some a0 :: replicate (S (length args)) junk).
  cbn [mbind option_bind].
  rewrite (va_fill_first args tail a0 junk).
  replace (env_of (Some a0 :: map Some args ++ [None])) with (a0 :: args)
    by (cbn; by rewrite env_of_entries).
  destruct (Z.eqb type SUDO_EXECLE).
  - destruct Henv as [tail' ->]. done.
  - by subst envp.
Qed.

Lemma execl_wrapper_marshals_witness :
  trace (run (execl_wrapper (sample_host oracle_deny (alloc_at 500)) None SUDO_EXECLE
                script_cmnd (Some "script") (va_args ["x"; "y"] [VA_env caller_envp]))
           ENOENT).2
  = [Ev_alloc 500;
     Ev_command_allowed script_cmnd {| vec_addr := 500; vec_items := ["script"; "x"; "y"] |}
       caller_envp false;
     Ev_free 500].
Proof.
  unfold run.
  rewrite (execl_wrapper_marshals (sample_host oracle_deny (alloc_at 500)) None SUDO_EXECLE
             script_cmnd "script" ["x"; "y"] [VA_env caller_envp] 500 caller_envp
             {| errno := ENOENT; trace := [] |} eq_refl
             (ex_intro _ [] eq_refl)).
  reflexivity.
Defined.

(** X14. A call of [execl_wrapper] that returns has returned -1, and
    either the array could not be allocated and nothing else was done,
    or the array was allocated first and freed last, around one call of
    [exec_wrapper], also when that call left early. *)
Theorem execl_wrapper_releases_argv (H : host) junk type name arg ap e0 r w' :
  run (execl_wrapper H junk type name arg ap) e0 = (Returns r, w') ->
  r = (-1)%Z
  /\ ((trace w' = [] /\ errno w' = ENOMEM)
      \/ exists block items envp,
           let argv := {| vec_addr := block; vec_items := items |} in
           let inner := run (exec_wrapper H name argv envp (Z.eqb type SUDO_EXECLP)) e0 in
           (exists argc, reallocarray H argc = Some block)
           /\ (Z.eqb type SUDO_EXECLE = false -> envp = environ H)
           /\ inner.1 = Returns (-1)%Z
           /\ trace w' = Ev_alloc block :: trace inner.2 ++ [Ev_free block]
           /\ errno w' = errno inner.2).
Proof.
  unfold run, execl_wrapper.
  destruct (va_count ap 1) as [argc|]; [|done].
  destruct (reallocarray H (argc + 1)) as [block|] eqn:Hra.
  2:{ intros [= <- <-]. split; [done|]. by left. }
  unfold mbind at 1, M_bind at 1, emit at 1.
  destruct (_ ≫= _) as [[cells ap']|]; [|done].
  destruct (if Z.eqb type SUDO_EXECLE then _ else _) as [envp|] eqn:Henvp; [|done].
  unfold mbind, M_bind, free, emit, mret, M_ret.
  rewrite exec_wrapper_frame. cbn [errno trace log].
  set (inner := run (exec_wrapper H name _ envp _) e0).
  destruct (inner.1) as [z| |] eqn:Hin; [|done|done].
  intros [= <- <-]. split; [done|]. right.
  exists block, (env_of cells), envp. cbv zeta. fold inner.
  assert (Hz : z = (-1)%Z).
  { clear -Hin. revert Hin. unfold inner. exec_goal.
    destruct (resolve_cmnd_returns H name (Z.eqb type SUDO_EXECLP) {| errno := e0; trace := [] |})
      as (r0 & w0 & Heq & Ht). rewrite Heq.
    repeat (case_match; simpl in *; simplify_eq); simpl; congruence. }
  subst z. split_and!; try done.
  - by eexists.
  - intros Hle. rewrite Hle in Henvp. by injection Henvp as <-.
Qed.

Lemma execl_wrapper_releases_argv_witness :
  let H := sample_host oracle_keep (alloc_at 500) in
  let w := (run (execl_wrapper H None SUDO_EXECLP script_cmnd (Some "script")
                   (va_args ["x"] [])) ENOENT).2 in
  head (trace w) = Some (Ev_alloc 500) /\ last (trace w) = Some (Ev_free 500)
  /\ exists block items envp,
       let argv := {| vec_addr := block; vec_items := items |} in
       let inner := run (exec_wrapper H script_cmnd argv envp (Z.eqb SUDO_EXECLP SUDO_EXECLP))
                      ENOENT in
       (exists argc, reallocarray H argc = Some block)
       /\ (Z.eqb SUDO_EXECLP SUDO_EXECLE = false -> envp = environ H)
       /\ inner.1 = Returns (-1)%Z
       /\ trace w = Ev_alloc block :: trace inner.2 ++ [Ev_free block]
       /\ errno w = errno inner.2.
Proof.
  cbv zeta. split; [reflexivity|]. split; [reflexivity|].
  destruct (execl_wrapper_releases_argv (sample_host oracle_keep (alloc_at 500)) None
              SUDO_EXECLP script_cmnd (Some "script") (va_args ["x"] []) ENOENT
              (-1)%Z _ eq_refl) as [_ [[Ht _]|Hright]].
  - vm_compute in Ht. discriminate.
  - exact Hright.
Defined.

Lemma frees_no_execve (l : list event) :
  forallb is_free_event l = true -> filter is_execve_event l = [].
Proof.
  induction l as [|ev l IH]; [done|]. cbn [forallb]. intros Hl.
  apply andb_prop in Hl as [Hev Hl]. destruct ev; try done.
  rewrite filter_cons_False by exact id. by apply IH.
Qed.

Lemma filter_none_in (f : event -> bool) (l : list event) :
  (forall ev, In ev l -> f ev = false) -> filter f l = [].
Proof.
  induction l as [|ev l IH]; [done|]. intros Hl.
  rewrite filter_cons_False by (rewrite (Hl ev) by (by left); exact id).
  apply IH. intros ev' Hev'. apply Hl. by right.
Qed.

Lemma filter_oracle_in (l : list event) c a e v :
  filter is_oracle_event l = [] -> ~ In (Ev_command_allowed c a e v) l.
Proof.
  intros Hf Hin. apply list_elem_of_In in Hin.
  assert (Ev_command_allowed c a e v ∈ filter is_oracle_event l) as Hin'
    by (by apply list_elem_of_filter).
  rewrite Hf in Hin'. by apply elem_of_nil in Hin'.
Qed.

Lemma execl_wrapper_denial (H : host) junk type name arg ap e0 c a e r :
  r = run (execl_wrapper H junk type name arg ap) e0 ->
  In (Ev_command_allowed c a e false) (trace r.2) ->
  r.1 = Returns (-1)%Z /\ errno r.2 = EACCES
  /\ filter is_execve_event (trace r.2) = [].
Proof.
  unfold run, execl_wrapper.
  destruct (va_count ap 1) as [argc|]; [|by intros -> []].
  destruct (reallocarray H (argc + 1)) as [block|] eqn:Hra; [|by intros -> []].
  unfold mbind at 1, M_bind at 1, emit at 1. cbn [log errno trace app].
  destruct (_ ≫= _) as [[cells ap']|]; [|intros ->; cbn; intuition discriminate].
  destruct (if Z.eqb type SUDO_EXECLE then _ else _) as [envp|];
    [|intros ->; cbn; intuition discriminate].
  unfold mbind, M_bind, free, emit, mret, M_ret.
  rewrite exec_wrapper_frame. cbn [errno trace log].
  set (argv := {| vec_addr := block; vec_items := env_of cells |}).
  destruct (exec_wrapper_shape H name argv envp (Z.eqb type SUDO_EXECLP) e0)
    as [[Hr Ht]|(c' & rest & Ht & Ho & Hd)]; cbv zeta in *.
  - rewrite Hr, Ht. intros ->. cbn. intuition discriminate.
  - rewrite Ht. intros -> Hin.
    assert (Hv : (command_allowed H c' argv envp).1 = false).
    { destruct (run _ _).1; cbn in Hin; rewrite ?in_app_iff in Hin; cbn in Hin;
        destruct Hin as [?|Hin]; try discriminate;
        repeat (destruct Hin as [Hin|Hin]; try discriminate; try (by simplify_eq));
        try (by apply (filter_oracle_in _ _ _ _ _ Ho) in Hin); done. }
    destruct (Hd Hv) as (Hfree & Hr & He). rewrite Hr, He. cbn.
    split; [done|]. split; [done|].
    apply filter_none_in. intros ev Hev.
    rewrite in_app_iff in Hev. cbn in Hev.
    destruct Hev as [Hev|[<-|[]]]; try done.
    rewrite forallb_forall in Hfree. apply Hfree in Hev. by destruct ev.
Qed.

(** X15. A denial reaches the caller of [execl], [execle] and [execlp]
    as it reaches the caller of [exec_wrapper]: nothing was executed, the
    call returns -1 and [errno] is [EACCES]. *)
Theorem execl_family_denied (H : host) junk name arg ap e0 c a e
    (f : host -> cell -> cstr -> cell -> list va_item -> M Z) :
  In f [execl; execle; execlp] ->
  In (Ev_command_allowed c a e false) (trace (run (f H junk name arg ap) e0).2) ->
  (run (f H junk name arg ap) e0).1 = Returns (-1)%Z
  /\ errno (run (f H junk name arg ap) e0).2 = EACCES
  /\ filter is_execve_event (trace (run (f H junk name arg ap) e0).2) = [].
Proof.
  assert (Hw : forall type r,
    r = run (_ ← execl_wrapper H junk type name arg ap; mret (-1)%Z) e0 ->
    In (Ev_command_allowed c a e false) (trace r.2) ->
    r.1 = Returns (-1)%Z /\ errno r.2 = EACCES /\ filter is_execve_event (trace r.2) = []).
  { intros type r.
    pose proof (execl_wrapper_denial H junk type name arg ap e0 c a e _ eq_refl) as Hd.
    unfold run in *. unfold mbind, M_bind, mret, M_ret.
    destruct (execl_wrapper H junk type name arg ap {| errno := e0; trace := [] |})
      as [[z| |] w']; cbn in *; intros -> Hin; destruct (Hd Hin) as (? & ? & ?); done. }
  intros [<-|[<-|[<-|[]]]]; by eapply Hw.
Qed.

Lemma execl_family_denied_witness :
  let H := sample_host oracle_deny (alloc_at 500) in
  let r := run (execlp H None script_cmnd (Some "script") (va_args ["x"] [])) ENOENT in
  In (Ev_command_allowed script_cmnd {| vec_addr := 500; vec_items := ["script"; "x"] |}
        (environ H) false) (trace r.2)
  /\ r.1 = Returns (-1)%Z /\ errno r.2 = EACCES
  /\ filter is_execve_event (trace r.2) = [].
Proof.
  cbv zeta.
  assert (Hin : In (Ev_command_allowed script_cmnd
                      {| vec_addr := 500; vec_items := ["script"; "x"] |}
                      (environ (sample_host oracle_deny (alloc_at 500))) false)
    (trace (run (execlp (sample_host oracle_deny (alloc_at 500)) None script_cmnd
                   (Some "script") (va_args ["x"] [])) ENOENT).2)).
  { vm_compute. right. left. reflexivity. }
  split; [exact Hin|].
  exact (execl_family_denied (sample_host oracle_deny (alloc_at 500)) None script_cmnd
           (Some "script") (va_args ["x"] []) ENOENT _ _ _ execlp
           (or_intror (or_intror (or_introl eq_refl))) Hin).
Defined.

(** ** [sudo_shl_get_next] *)

Lemma shl_loop_spec (S : shl_host) symbol type libs : forall fn,
  shl_loop S (sudo_basename S (PATH_SUDO_INTERCEPT S)) symbol type libs fn
  = match head (omap (fun d => shl_findsym d symbol type) (filter (other_library S) libs)) with
    | Some f => Some f
    | None => fn
    end.
Proof.
  induction libs as [|d libs IH]; intros fn; [done|].
  cbn [shl_loop]. unfold other_library at 1.
  destruct (String.eqb _ _) eqn:Heq.
  - rewrite filter_cons_False by (unfold other_library; rewrite Heq; exact id). apply IH.
  - rewrite filter_cons_True by (unfold other_library; by rewrite Heq).
    cbn [omap list_omap]. destruct (shl_findsym d symbol type); [done|]. apply IH.
Qed.

(** X16. [sudo_shl_get_next] answers with the symbol of the first loaded
    library, in the order [shl_get] numbers them, that is not the
    intercept library itself (by base name) and defines the symbol, and
    with NULL when there is none: what the intercept library itself
    defines is never the answer. *)
Theorem sudo_shl_get_next_skips_self (S : shl_host) symbol type :
  sudo_shl_get_next S symbol type
  = head (omap (fun d => shl_findsym d symbol type) (filter (other_library S) (shl_libs S))).
Proof.
  unfold sudo_shl_get_next. rewrite shl_loop_spec.
  by destruct (head _).
Qed.

(** X17. Under [HAVE___INTERPOSE], [my_execv] hands the caller's
    request to the function [exec_wrapper] uses as the real [execve]
    without asking the oracle: a command that [my_execve] does not
    execute because the oracle denies it is executed by [my_execv]. *)
Theorem my_execv_skips_oracle (H : host) fn cmnd argv e0 :
  next_execve H = Some fn ->
  contains_char "/" (str_val cmnd) = true ->
  (command_allowed H cmnd argv (environ H)).1 = false ->
  filter is_execve_event (trace (run (my_execve H cmnd argv (environ H)) e0).2) = []
  /\ trace (run (my_execv H fn cmnd argv) e0).2
     = [Ev_execve (Some (str_val cmnd)) (Some (array_of (vec_items argv)))
          (Some (environ H))].
Proof.
  intros Hfn Hs Hdeny. split.
  - unfold my_execve. exec_goal. unfold resolve_cmnd. rewrite Hs, Hfn. simpl.
    destruct (command_allowed H cmnd argv (environ H)) as [allowed [[nc na] ne]].
    simpl in Hdeny. subst allowed. simpl.
    repeat (case_match; simpl in *; simplify_eq); simpl; done.
  - unfold my_execv, run, call_execve, mbind, M_bind, mret, M_ret.
    by destruct (fn _ _ _).
Qed.

Lemma my_execv_skips_oracle_witness :
  let H := sample_host oracle_deny alloc_none in
  filter is_execve_event (trace (run (my_execve H script_cmnd script_argv (environ H))
                                   ENOENT).2) = []
  /\ trace (run (my_execv H execve_scripts_only script_cmnd script_argv) ENOENT).2
     = [Ev_execve (Some "/usr/bin/script") (Some (array_of ["script"; "x"; "y"]))
          (Some sample_environ)].
Proof.
  exact (my_execv_skips_oracle (sample_host oracle_deny alloc_none) execve_scripts_only
           script_cmnd script_argv ENOENT eq_refl eq_refl eq_refl).
Defined.

(** ** [sudo_preload_dso] on any environment *)

Section Bounds.
Context (P : platform) (alloc_ok : alloc_site -> bool) (junk : cell).

Lemma rd_insert_ne (a : list cell) i j v : i <> j -> rd (<[j:=v]> a) i = rd a i.
Proof. intros Hne. unfold rd. by rewrite list_lookup_insert_ne. Qed.

Lemma filled_insert n (a : list cell) j v : filled n a -> filled n (<[j:=Some v]> a).
Proof.
  intros Hf i Hi. destruct (decide (i = j)) as [->|Hne].
  - unfold rd. specialize (Hf j Hi). unfold rd in Hf.
    destruct (a !! j) as [c|] eqn:Hl; [|done].
    rewrite list_lookup_insert_eq by (by apply lookup_lt_Some in Hl). done.
  - rewrite rd_insert_ne by done. by apply Hf.
Qed.

Lemma filled_insert_above n (a : list cell) j v : n <= j -> filled n a -> filled n (<[j:=v]> a).
Proof. intros Hj Hf i Hi. rewrite rd_insert_ne by lia. by apply Hf. Qed.

Lemma filled_inside n (a : list cell) i : filled n a -> i < n -> i < length a.
Proof.
  intros Hf Hi. specialize (Hf i Hi). unfold rd in Hf.
  destruct (a !! i) eqn:Hl; [by apply lookup_lt_Some in Hl|done].
Qed.

Lemma append_entry_some v extra b n :
  S (b_len b) < length (b_cur b) -> n <= b_len b -> filled n (b_cur b) ->
  exists b', append_entry v extra b = Some b'
    /\ b_len b' = S (b_len b) /\ length (b_cur b') = length (b_cur b)
    /\ filled n (b_cur b') /\ b_allocated b' = b_allocated b ++ extra.
Proof.
  intros Hroom Hn Hf. unfold append_entry, store.
  destruct (decide (b_len b < length (b_cur b))) as [_|?]; [|lia]. cbn.
  rewrite length_insert.
  destruct (decide (S (b_len b) < length (b_cur b))) as [_|?]; [|lia]. cbn.
  eexists. split; [reflexivity|]. cbn. rewrite !length_insert. split_and!; try done.
  apply filled_insert_above; [lia|]. apply filled_insert_above; [lia|done].
Qed.

Lemma append_entry_none v extra b :
  length (b_cur b) <= S (b_len b) -> append_entry v extra b = None.
Proof.
  intros Hroom. unfold append_entry, store.
  destruct (decide (b_len b < length (b_cur b))) as [_|?]; [|done]. cbn.
  rewrite length_insert.
  destruct (decide (S (b_len b) < length (b_cur b))) as [?|_]; [lia|done].
Qed.

Lemma overwrite_entry_some idx v extra b n :
  idx < length (b_cur b) -> filled n (b_cur b) ->
  exists b', overwrite_entry idx v extra b = Some b'
    /\ b_len b' = b_len b /\ length (b_cur b') = length (b_cur b)
    /\ filled n (b_cur b') /\ b_allocated b' = b_allocated b ++ extra.
Proof.
  intros Hidx Hf. unfold overwrite_entry, store.
  destruct (decide _) as [_|?]; [|lia]. cbn.
  eexists. split; [reflexivity|]. cbn. rewrite length_insert. split_and!; try done.
  by apply filled_insert.
Qed.

Lemma add_preload_bounds dso_file s b n :
  n <= b_len b -> filled n (b_cur b) ->
  (forall p, preload_idx s = Some p -> p < n) ->
  (dso_present s = true -> preload_idx s <> None) ->
  (preload_idx s = None -> S (b_len b) < length (b_cur b)) ->
  exists f, add_preload P alloc_ok dso_file s b = Some f
    /\ match f with
       | Next b1 =>
           filled n (b_cur b1) /\ length (b_cur b1) = length (b_cur b)
           /\ b_len b1 = b_len b + b2n (bool_decide (preload_idx s = None))
       | Goto_oom _ => alloc_ok A_preload = false
       end.
Proof.
  intros Hn Hf Hp Hdp Hroom. unfold add_preload.
  destruct (dso_present s).
  { eexists. split; [reflexivity|]. cbn.
    rewrite bool_decide_eq_false_2 by (by apply Hdp). cbn. split_and!; auto; lia. }
  destruct (preload_idx s) as [p|].
  - specialize (Hp p eq_refl). pose proof (Hf p Hp) as Hrd.
    destruct (rd (b_cur b) p) as [entry|]; [|done].
    destruct (alloc_ok A_preload); [|by eexists].
    destruct (overwrite_entry_some p (fmt_preload P dso_file (value_of (RTLD_PRELOAD_VAR P) entry))
                [A_preload] b n) as (b' & -> & Hl & Hlen & Hf' & _); [|done|].
    { by apply (filled_inside n). }
    eexists. split; [reflexivity|]. cbn. split_and!; auto; lia.
  - destruct (alloc_ok A_preload); [|by eexists].
    destruct (append_entry_some
                (match RTLD_PRELOAD_DEFAULT P with
                 | Some dflt => fmt_preload P dso_file dflt
                 | None => sudo_new_key_val (RTLD_PRELOAD_VAR P) dso_file
                 end) [A_preload] b n) as (b' & -> & Hl & Hlen & Hf' & _); auto.
    eexists. split; [reflexivity|]. cbn. split_and!; auto; lia.
Qed.

Lemma add_enable_bounds s b n :
  n <= b_len b -> filled n (b_cur b) ->
  (forall var, RTLD_PRELOAD_ENABLE_VAR P = Some var -> dso_enabled s = false ->
     S (b_len b) < length (b_cur b)) ->
  exists b2, add_enable P s b = Some b2
    /\ filled n (b_cur b2) /\ length (b_cur b2) = length (b_cur b)
    /\ b_len b2 = b_len b + match RTLD_PRELOAD_ENABLE_VAR P with
                            | Some _ => b2n (negb (dso_enabled s))
                            | None => 0
                            end.
Proof.
  intros Hn Hf Hroom. unfold add_enable.
  destruct (RTLD_PRELOAD_ENABLE_VAR P) as [var|].
  - destruct (dso_enabled s).
    + eexists. split; [reflexivity|]. cbn. split_and!; auto; lia.
    + destruct (append_entry_some (var ++ "=")%string [] b n)
        as (b' & -> & Hl & Hlen & Hf' & _); eauto.
      eexists. split; [reflexivity|]. cbn. split_and!; auto; lia.
  - eexists. split; [reflexivity|]. cbn. split_and!; auto; lia.
Qed.

Lemma add_intercept_fd_bounds intercept_fd s b n :
  n <= b_len b -> filled n (b_cur b) ->
  (forall q, intercept_idx s = Some q -> q < n) ->
  (intercept_idx s = None -> intercept_fd <> (-1)%Z -> S (b_len b) < length (b_cur b)) ->
  exists f, add_intercept_fd alloc_ok intercept_fd s b = Some f
    /\ match f with Next _ => True | Goto_oom _ => alloc_ok A_fdstr = false end.
Proof.
  intros Hn Hf Hq Hroom. unfold add_intercept_fd.
  destruct (fd_present s); cbn; [by eexists|].
  destruct (Z.eqb_spec intercept_fd (-1)); cbn; [by eexists|].
  destruct (alloc_ok A_fdstr); [|by eexists].
  destruct (intercept_idx s) as [q|].
  - destruct (overwrite_entry_some q (fmt_fd intercept_fd) [A_fdstr] b n)
      as (b' & -> & _); [|done|by eexists].
    apply (filled_inside n); auto.
  - destruct (append_entry_some (fmt_fd intercept_fd) [A_fdstr] b n)
      as (b' & -> & _); auto. by eexists.
Qed.

Lemma finish_bounds dso_file intercept_fd copied s b n :
  n <= b_len b -> filled n (b_cur b) ->
  (forall p, preload_idx s = Some p -> p < n) ->
  (forall q, intercept_idx s = Some q -> q < n) ->
  (dso_present s = true -> preload_idx s <> None) ->
  b_len b + appends P intercept_fd s < length (b_cur b) ->
  is_Some (finish P alloc_ok dso_file intercept_fd copied s b).
Proof.
  intros Hn Hf Hp Hq Hdp Hroom. unfold finish, appends in *.
  set (a1 := b2n (bool_decide (preload_idx s = None))) in *.
  set (a2 := match RTLD_PRELOAD_ENABLE_VAR P with
             | Some _ => b2n (negb (dso_enabled s))
             | None => 0
             end) in *.
  set (a3 := b2n (bool_decide (intercept_idx s = None) && negb (intercept_fd =? -1)%Z)) in *.
  assert (H1 : preload_idx s = None -> a1 = 1).
  { intros Hnone. unfold a1. by rewrite bool_decide_eq_true_2. }
  assert (H2 : forall var, RTLD_PRELOAD_ENABLE_VAR P = Some var -> dso_enabled s = false ->
            a2 = 1).
  { intros var Hv Hen. unfold a2. by rewrite Hv, Hen. }
  assert (H3 : intercept_idx s = None -> intercept_fd <> (-1)%Z -> a3 = 1).
  { intros Hnone Hfd. unfold a3. rewrite bool_decide_eq_true_2 by done.
    by destruct (Z.eqb_spec intercept_fd (-1)). }
  destruct (add_preload_bounds dso_file s b n) as (f1 & -> & Hb1); auto.
  { intros Hnone. specialize (H1 Hnone). lia. }
  destruct f1 as [b1|b1]; cbn; [|done].
  destruct Hb1 as (Hf1 & Hlen1 & Hl1). fold a1 in Hl1.
  destruct (add_enable_bounds s b1 n) as (b2 & -> & Hf2 & Hlen2 & Hl2); auto; [lia| |].
  { intros var Hv Hen. specialize (H2 var Hv Hen). lia. }
  fold a2 in Hl2. cbn.
  destruct (add_intercept_fd_bounds intercept_fd s b2 n) as (f3 & -> & Hb3); auto; [lia| |].
  { intros Hnone Hfd. specialize (H3 Hnone Hfd). lia. }
  cbn. by destruct f3.
Qed.

End Bounds.

Section Safety.
Context (P : platform) (alloc_ok : alloc_site -> bool) (junk : cell).

Lemma take_entries (K : list string) oc k :
  oc <= S k ->
  take (length K + oc) (map Some K ++ replicate (S k) None)
  = map Some K ++ replicate oc (None : cell).
Proof.
  intros Hoc. rewrite take_app_ge by (rewrite length_map; lia).
  rewrite length_map. replace (length K + oc - length K) with oc by lia.
  rewrite take_replicate. f_equal. f_equal. lia.
Qed.

Lemma filled_entries (K : list string) (rest : list cell) :
  filled (length K) (map Some K ++ rest).
Proof.
  intros i Hi. unfold rd. rewrite lookup_app_l by (by rewrite length_map).
  change (map Some K) with (Some <$> K). rewrite list_lookup_fmap.
  destruct (K !! i) eqn:Hl; [done|]. apply lookup_ge_None in Hl. lia.
Qed.

Lemma idx_ok_no_fd s K :
  idx_ok P (-1) s K -> intercept_idx s = None.
Proof.
  intros (_ & Hq & _). destruct (intercept_idx s) as [q|]; [|done].
  destruct (Hq q eq_refl) as (e & _ & He). unfold is_checked_fd in He.
  cbn in He. by rewrite andb_false_r in He.
Qed.

Lemma preload_from_scan_bounds allocated E dso_file intercept_fd :
  RTLD_PRELOAD_ENABLE_VAR P = None \/ intercept_fd = (-1)%Z ->
  is_Some (preload_from_scan P alloc_ok junk allocated (array_of E) dso_file intercept_fd).
Proof.
  intros Hcfg.
  destruct (scan_envp_any P dso_file intercept_fd E)
    as (K & k & oc & Ha & Hl & Hoc & Hk & HKl & HR & HI & He1 & He2).
  cbn [app] in *. unfold preload_from_scan.
  set (s := scan_envp P dso_file intercept_fd (array_of E)) in *.
  pose proof HI as (Hp & Hq & Hdp & Hfp).
  assert (Hpn : forall p, preload_idx s = Some p -> p < length K).
  { intros p Hpi. destruct (Hp p Hpi) as (e & Hle & _). by apply lookup_lt_Some in Hle. }
  assert (Hqn : forall q, intercept_idx s = Some q -> q < length K).
  { intros q Hqi. destruct (Hq q Hqi) as (e & Hle & _). by apply lookup_lt_Some in Hle. }
  assert (Hen : RTLD_PRELOAD_ENABLE_VAR P = None -> dso_enabled s = true).
  { intros Hn. apply He1. unfold scan_init. cbn. by rewrite Hn. }
  assert (Hfd : intercept_fd = (-1)%Z -> intercept_idx s = None).
  { intros ->. by apply (idx_ok_no_fd s K). }
  destruct (needs_copy s) eqn:Hneed.
  - destruct (alloc_ok A_nenvp); [|done].
    apply (finish_bounds P alloc_ok dso_file intercept_fd true s _ (length K));
      cbn [b_cur b_len]; auto; try lia.
    + unfold copy_envp. rewrite Ha, Hl, take_entries by lia.
      rewrite <- app_assoc. apply filled_entries.
    + unfold copy_envp. rewrite Ha, Hl, take_entries by lia.
      rewrite !length_app, length_map, !length_replicate. cbn [length].
      rewrite length_replicate. unfold env_size, appends. rewrite Hl.
      destruct Hcfg as [Hn|Hm1].
      * rewrite Hn, (Hen Hn). destruct (bool_decide (preload_idx s = None)),
          (bool_decide (intercept_idx s = None)), (negb _); cbn; lia.
      * rewrite (Hfd Hm1). subst intercept_fd. cbn.
        destruct (RTLD_PRELOAD_ENABLE_VAR P), (dso_enabled s),
          (bool_decide (preload_idx s = None)); cbn; lia.
  - unfold needs_copy in Hneed.
    apply orb_false_elim in Hneed as [Hneed Hi]. apply orb_false_elim in Hneed as [Hpi Hd].
    apply negb_false_iff in Hd.
    apply (finish_bounds P alloc_ok dso_file intercept_fd false s _ (length K));
      cbn [b_cur b_len]; auto; try lia.
    + rewrite Ha. apply filled_entries.
    + rewrite Ha, Hl, length_app, length_map, length_replicate.
      unfold appends. rewrite Hpi, Hi, Hd. cbn.
      destruct (RTLD_PRELOAD_ENABLE_VAR P); cbn; lia.
Qed.

End Safety.

(** X18. What the builder appends and overwrites stays inside its
    arrays: on a platform without an enable toggle, and on any platform
    when no descriptor is given, for every NULL-terminated environment,
    whatever its entries and whichever allocations fail, each entry
    appended or overwritten after the copy, and each terminator written
    behind an appended entry, is stored inside the array it goes to, and
    the cell read at [preload_idx] for the old value holds an entry. *)
Theorem preload_in_bounds (P : platform) alloc_ok junk E dso_file intercept_fd :
  RTLD_PRELOAD_ENABLE_VAR P = None \/ intercept_fd = (-1)%Z ->
  is_Some (sudo_preload_dso P alloc_ok junk (array_of E) dso_file intercept_fd).
Proof.
  intros Hcfg. unfold sudo_preload_dso.
  destruct (PATH_ASAN_LIB P) as [asan|]; [destruct (alloc_ok A_dso_buf); [|done]|];
    by apply preload_from_scan_bounds.
Qed.

Lemma preload_in_bounds_witness :
  is_Some (sudo_preload_dso elf (fails_at A_fdstr) None (array_of env_five_preloads)
             "x.so" 3).
Proof.
  exact (preload_in_bounds elf (fails_at A_fdstr) None env_five_preloads "x.so" 3
           (or_introl eq_refl)).
Defined.

Section Overflow.
Context (P : platform) (alloc_ok : alloc_site -> bool) (junk : cell).

Lemma preload_from_scan_overflow allocated E dso_file intercept_fd var :
  RTLD_PRELOAD_ENABLE_VAR P = Some var ->
  intercept_fd <> (-1)%Z ->
  existsb (is_enable P) E = false ->
  (forall x, alloc_ok x = true) ->
  preload_from_scan P alloc_ok junk allocated (array_of E) dso_file intercept_fd = None.
Proof.
  intros Hvar Hfd Hno Halloc.
  destruct (scan_envp_any P dso_file intercept_fd E)
    as (K & k & oc & Ha & Hl & Hoc & Hk & HKl & HR & HI & He1 & He2).
  cbn [app] in *. unfold preload_from_scan.
  set (s := scan_envp P dso_file intercept_fd (array_of E)) in *.
  pose proof HI as (Hp & Hq & Hdp & Hfp).
  assert (Hpn : forall p, preload_idx s = Some p -> p < length K).
  { intros p Hpi. destruct (Hp p Hpi) as (e & Hle & _). by apply lookup_lt_Some in Hle. }
  assert (Hen : dso_enabled s = false).
  { destruct (dso_enabled s); [|done]. destruct (He2 eq_refl) as [Hinit|Hex].
    - unfold scan_init in Hinit. cbn in Hinit. by rewrite Hvar in Hinit.
    - congruence. }
  assert (Hneed : needs_copy s = true).
  { unfold needs_copy. rewrite Hen. cbn. by rewrite orb_true_r. }
  rewrite Hneed, Halloc. unfold finish.
  set (b0 := {| b_cur := copy_envp junk s; b_len := env_len s;
                b_allocated := allocated ++ [A_nenvp] |}).
  assert (Hlen0 : length (b_cur b0)
            = env_len s + 1 + b2n (bool_decide (preload_idx s = None))
              + b2n (bool_decide (intercept_idx s = None))).
  { cbn. unfold copy_envp. rewrite Ha, Hl, take_entries by lia.
    rewrite !length_app, length_map, !length_replicate. cbn [length].
    rewrite length_replicate. unfold env_size. rewrite Hl, Hen. cbn. lia. }
  assert (Hf0 : filled (length K) (b_cur b0)).
  { cbn. unfold copy_envp. rewrite Ha, Hl, take_entries by lia.
    rewrite <- app_assoc. apply filled_entries. }
  destruct (add_preload_bounds P alloc_ok dso_file s b0 (length K)) as (f1 & -> & H1); auto.
  { cbn. lia. }
  { intros Hnone. rewrite Hlen0, Hnone. cbn. lia. }
  destruct f1 as [b1|b1]; [|by rewrite Halloc in H1].
  destruct H1 as (Hf1 & Hlen1 & Hl1). cbn [mbind option_bind].
  unfold add_enable. rewrite Hvar, Hen.
  destruct (intercept_idx s) as [q|] eqn:Hqi.
  - rewrite append_entry_none; [done|].
    rewrite Hlen1, Hlen0, Hl1. cbn. lia.
  - destruct (append_entry_some (var ++ "=")%string [] b1 (length K))
      as (b2 & -> & Hl2 & Hlen2 & Hf2 & _); auto.
    { rewrite Hlen1, Hlen0, Hl1. cbn. lia. }
    { rewrite Hl1. cbn. lia. }
    cbn [mbind option_bind]. unfold add_intercept_fd.
    assert (Hfpf : fd_present s = false).
    { destruct (fd_present s); [|done]. by destruct (Hfp eq_refl). }
    rewrite Hfpf, Halloc, Hqi.
    destruct (Z.eqb_spec intercept_fd (-1)); [done|]. cbn.
    rewrite append_entry_none; [done|].
    rewrite Hlen2, Hlen1, Hlen0, Hl2, Hl1. cbn. lia.
Qed.

End Overflow.

(** X19. On a platform with an enable toggle the new array is one cell
    short: whenever a descriptor is given and the environment has no
    entry of the toggle, a call whose allocations all succeed writes
    past the end of the array it allocated. *)
Theorem preload_toggle_overflow (P : platform) alloc_ok junk E dso_file intercept_fd var :
  RTLD_PRELOAD_ENABLE_VAR P = Some var ->
  intercept_fd <> (-1)%Z ->
  existsb (is_enable P) E = false ->
  (forall x, alloc_ok x = true) ->
  sudo_preload_dso P alloc_ok junk (array_of E) dso_file intercept_fd = None.
Proof.
  intros Hvar Hfd Hno Halloc. unfold sudo_preload_dso.
  destruct (PATH_ASAN_LIB P) as [asan|]; rewrite ?Halloc;
    by eapply preload_from_scan_overflow.
Qed.

Lemma preload_toggle_overflow_witness :
  sudo_preload_dso dyld always None
    (array_of ["A=1"; "DYLD_INSERT_LIBRARIES=a"; "SUDO_INTERCEPT_FD=3"]) "x.so" 3 = None.
Proof.
  apply (preload_toggle_overflow dyld always None
           ["A=1"; "DYLD_INSERT_LIBRARIES=a"; "SUDO_INTERCEPT_FD=3"] "x.so" 3
           "DYLD_FORCE_FLAT_NAMESPACE");
    [reflexivity | discriminate | reflexivity | intros x; reflexivity].
Defined.

Lemma removes_filter (m f : string -> bool) l l' :
  removes m l l' -> (forall x, m x = true -> f x = false) ->
  filter f l' = filter f l.
Proof.
  intros Hr Hm. induction Hr as [|x l l' Hr IH|x l l' Hx Hr IH]; [done| |].
  - destruct (f x) eqn:Hf.
    + rewrite !filter_cons_True by (by rewrite Hf). by rewrite IH.
    + rewrite !filter_cons_False by (rewrite Hf; exact id). done.
  - rewrite (filter_cons_False f x l) by (rewrite (Hm x Hx); exact id). done.
Qed.

Lemma removes_nothing (m : string -> bool) l l' :
  removes m l l' -> (forall x, In x l -> m x = false) -> l' = l.
Proof.
  intros Hr Hm. induction Hr as [|x l l' Hr IH|x l l' Hx Hr IH]; [done| |].
  - f_equal. apply IH. intros y Hy. apply Hm. by right.
  - rewrite (Hm x) in Hx by (by left). done.
Qed.

Section Unmanaged.
Context (P : platform) (alloc_ok : alloc_site -> bool) (dso_file : string)
        (intercept_fd : Z).

Local Abbreviation isP := (is_preload P).
Local Abbreviation isF := (is_checked_fd P intercept_fd).

Lemma cur_ok_copy junk (K : list string) k oc s allocated :
  envp s = map Some K ++ replicate (S k) None ->
  env_len s = length K + oc -> oc <= 1 ->
  cur_ok K {| b_cur := copy_envp junk s; b_len := env_len s; b_allocated := allocated |}.
Proof.
  intros Ha Hl Hoc. unfold cur_ok, copy_envp. cbn.
  rewrite Ha, Hl, take_entries by lia.
  destruct oc as [|[|oc]]; [| |lia]; cbn.
  - rewrite app_nil_r. eexists. split; [reflexivity|lia].
  - rewrite <- app_assoc. cbn. eexists. split; [reflexivity|lia].
Qed.

Lemma cur_ok_scan (K : list string) k oc s allocated :
  envp s = map Some K ++ replicate (S k) None ->
  env_len s = length K + oc ->
  cur_ok K {| b_cur := envp s; b_len := env_len s; b_allocated := allocated |}.
Proof.
  intros Ha Hl. unfold cur_ok. cbn. rewrite Ha, Hl. cbn.
  eexists. split; [reflexivity|lia].
Qed.

Lemma add_preload_keeps s b K b1 :
  cur_ok K b ->
  (forall p, preload_idx s = Some p -> exists e, K !! p = Some e /\ isP e = true) ->
  add_preload P alloc_ok dso_file s b = Some (Next b1) ->
  exists K1, cur_ok K1 b1
    /\ (forall f : string -> bool, (forall x, isP x = true -> f x = false) -> keeps f K K1).
Proof.
  intros Hc Hp. unfold add_preload.
  destruct (dso_present s).
  { intros [= <-]. exists K. split; auto using keeps_refl. }
  destruct (preload_idx s) as [p|].
  - destruct (Hp p eq_refl) as (e & Hl & HeP).
    rewrite (rd_cur_ok K b p e Hc Hl).
    destruct (alloc_ok A_preload); [|done].
    destruct (overwrite_entry _ _ _ _) as [b'|] eqn:Hov; [|done].
    intros [= <-].
    apply overwrite_entry_ok with (K := K) in Hov as [Hc' _];
      [|done|by apply lookup_lt_Some in Hl].
    eexists. split; [exact Hc'|].
    intros f Hf'. apply (keeps_insert f K p e); auto.
    apply Hf'. apply has_key_intro.
  - destruct (alloc_ok A_preload); [|done].
    destruct (append_entry _ _ _) as [b'|] eqn:Hap; [|done].
    intros [= <-].
    apply append_entry_ok with (K := K) in Hap as (K' & Hc' & HK' & _); [|done].
    exists K'. split; [done|].
    intros f Hf'. destruct HK' as [->| ->]; [apply keeps_refl|].
    apply keeps_snoc, Hf'.
    destruct (RTLD_PRELOAD_DEFAULT P); apply has_key_intro.
Qed.

Lemma add_enable_keeps s b K b2 :
  cur_ok K b -> add_enable P s b = Some b2 ->
  exists K2, cur_ok K2 b2
    /\ (forall f : string -> bool, (forall x, is_enable P x = true -> f x = false) ->
        keeps f K K2)
    /\ extends K K2.
Proof.
  intros Hc. unfold add_enable, is_enable.
  destruct (RTLD_PRELOAD_ENABLE_VAR P) as [var|].
  - destruct (dso_enabled s).
    + intros [= <-]. exists K. split_and!; auto using keeps_refl. by intros i x.
    + intros Hap. apply append_entry_ok with (K := K) in Hap as (K' & Hc' & HK' & _); [|done].
      exists K'. split; [done|]. split.
      * intros f Hf. destruct HK' as [->| ->]; [apply keeps_refl|].
        apply keeps_snoc, Hf. apply has_key_intro.
      * destruct HK' as [->| ->]; intros i x Hl; [done|].
        rewrite lookup_app_l; [done|]. by apply lookup_lt_Some in Hl.
  - intros [= <-]. exists K. split_and!; auto using keeps_refl. by intros i x.
Qed.

Lemma add_intercept_fd_keeps s b K b3 :
  cur_ok K b ->
  (forall q, intercept_idx s = Some q -> exists e, K !! q = Some e /\ isF e = true) ->
  add_intercept_fd alloc_ok intercept_fd s b = Some (Next b3) ->
  exists K3, cur_ok K3 b3
    /\ (forall f : string -> bool,
          (forall x, is_intercept_fd x = true -> f x = false) -> keeps f K K3).
Proof.
  intros Hc Hq. unfold add_intercept_fd.
  destruct (negb (fd_present s) && negb (intercept_fd =? -1)%Z).
  2:{ intros [= <-]. exists K. split; auto using keeps_refl. }
  destruct (alloc_ok A_fdstr); [|done].
  assert (Hnew : is_intercept_fd (fmt_fd intercept_fd) = true)
    by apply (has_key_intro "SUDO_INTERCEPT_FD").
  destruct (intercept_idx s) as [q|].
  - destruct (Hq q eq_refl) as (e & Hl & HeF).
    destruct (overwrite_entry _ _ _ _) as [b'|] eqn:Hov; [|done].
    intros [= <-].
    apply overwrite_entry_ok with (K := K) in Hov as [Hc' _];
      [|done|by apply lookup_lt_Some in Hl].
    eexists. split; [exact Hc'|].
    intros f Hf'. apply (keeps_insert f K q e); auto.
    apply Hf'. unfold is_checked_fd in HeF. by apply andb_prop in HeF as [_ ?].
  - destruct (append_entry _ _ _) as [b'|] eqn:Hap; [|done].
    intros [= <-].
    apply append_entry_ok with (K := K) in Hap as (K' & Hc' & HK' & _); [|done].
    exists K'. split; [done|].
    intros f Hf'. destruct HK' as [->| ->]; [apply keeps_refl|].
    by apply keeps_snoc, Hf'.
Qed.

(** A successful [finish] changes and adds entries of the three
    variables only. *)
Lemma finish_keeps copied s b K o :
  cur_ok K b -> idx_ok P intercept_fd s K ->
  finish P alloc_ok dso_file intercept_fd copied s b = Some o ->
  out_ret o <> Ret_NULL ->
  exists K3, returned_env o = Some K3
    /\ filter (unmanaged P) K3 = filter (unmanaged P) K.
Proof.
  intros Hc (Hp & Hq & _ & _). unfold finish.
  destruct (add_preload _ _ _ _ _) as [[b1|b1]|] eqn:H1; cbn; [|by intros [= <-]|done].
  destruct (add_enable _ _ _) as [b2|] eqn:H2; cbn; [|done].
  destruct (add_intercept_fd _ _ _ _) as [[b3|b3]|] eqn:H3; cbn; [|by intros [= <-]|done].
  intros [= <-] _.
  destruct (add_preload_keeps s b K b1 Hc Hp H1) as (K1 & Hc1 & Hk1).
  destruct (add_enable_keeps s b1 K1 b2 Hc1 H2) as (K2 & Hc2 & Hk2 & Hx2).
  assert (Hq2 : forall q, intercept_idx s = Some q ->
            exists e, K2 !! q = Some e /\ isF e = true).
  { intros q Hqi. destruct (Hq q Hqi) as (e & Hl & HeF). exists e. split; [|done].
    apply Hx2. destruct (Hk1 isF (isP_not_isF P intercept_fd)) as [_ Hl1]. by apply Hl1. }
  destruct (add_intercept_fd_keeps s b2 K2 b3 Hc2 Hq2 H3) as (K3 & Hc3 & Hk3).
  exists K3. split.
  - destruct Hc3 as (rest & Hcur & _). unfold returned_env, done_out. cbn.
    destruct copied; cbn; by rewrite Hcur, env_of_entries.
  - destruct (Hk3 (unmanaged P)) as [-> _].
    { intros x Hx. unfold unmanaged. by rewrite Hx, andb_false_r. }
    destruct (Hk2 (unmanaged P)) as [-> _].
    { intros x Hx. unfold unmanaged. by rewrite Hx, andb_false_r. }
    destruct (Hk1 (unmanaged P)) as [-> _]; [|done].
    intros x Hx. unfold unmanaged. by rewrite Hx.
Qed.

Lemma preload_from_scan_keeps junk allocated E o env :
  preload_from_scan P alloc_ok junk allocated (array_of E) dso_file intercept_fd = Some o ->
  returned_env o = Some env ->
  filter (unmanaged P) env = filter (unmanaged P) E.
Proof.
  intros Hrun Henv.
  destruct (scan_envp_any P dso_file intercept_fd E)
    as (K & k & oc & Ha & Hl & Hoc & Hk & HKl & HR & HI & He1 & He2).
  cbn [app] in *. unfold preload_from_scan in Hrun.
  set (s := scan_envp P dso_file intercept_fd (array_of E)) in *.
  assert (Hret : out_ret o <> Ret_NULL).
  { intros Hn. unfold returned_env in Henv. by rewrite Hn in Henv. }
  assert (Hfin : exists copied b, cur_ok K b
            /\ finish P alloc_ok dso_file intercept_fd copied s b = Some o).
  { destruct (needs_copy s).
    - destruct (alloc_ok A_nenvp).
      + eexists _, _. split; [|exact Hrun]. by eapply cur_ok_copy.
      + injection Hrun as <-. by cbn in Hret.
    - eexists _, _. split; [|exact Hrun]. by eapply cur_ok_scan. }
  destruct Hfin as (copied & b & Hc & Hfin).
  destruct (finish_keeps copied s b K o Hc HI Hfin Hret) as (K3 & HK3 & Hf).
  rewrite Henv in HK3. injection HK3 as ->. rewrite Hf.
  apply (removes_filter (managed P intercept_fd)); [done|].
  intros x Hx. unfold managed in Hx. unfold unmanaged.
  destruct (is_preload P x) eqn:HxP; [done|]. cbn in Hx.
  unfold is_checked_fd in Hx. rewrite HxP in Hx. cbn in Hx.
  apply andb_prop in Hx as [_ ->]. done.
Qed.

End Unmanaged.

(** X20. Whatever the environment holds, a successful call returns the
    entries of all other variables as they were and in their order: the
    builder removes, rewrites and adds entries of the preload variable,
    of SUDO_INTERCEPT_FD and of the enable toggle only. *)
Theorem preload_keeps_unmanaged (P : platform) alloc_ok junk E dso_file intercept_fd o env :
  sudo_preload_dso P alloc_ok junk (array_of E) dso_file intercept_fd = Some o ->
  returned_env o = Some env ->
  filter (unmanaged P) env = filter (unmanaged P) E.
Proof.
  intros Hrun Henv. unfold sudo_preload_dso in Hrun.
  destruct (PATH_ASAN_LIB P) as [asan|].
  - destruct (alloc_ok A_dso_buf); [by eapply preload_from_scan_keeps|].
    injection Hrun as <-. done.
  - by eapply preload_from_scan_keeps.
Qed.

Lemma preload_keeps_unmanaged_witness :
  sudo_preload_dso elf always None (array_of env_mixed) "x.so" 3 ≫= returned_env
    = Some ["HOME=/"; "LD_PRELOAD=x.so:a"; "TERM=x"; "SUDO_INTERCEPT_FD=3";
            "LD_PRELOAD=d"; "SHELL=/bin/sh"]
  /\ filter (unmanaged elf) env_mixed = ["HOME=/"; "TERM=x"; "SHELL=/bin/sh"]
  /\ filter (unmanaged elf)
       ["HOME=/"; "LD_PRELOAD=x.so:a"; "TERM=x"; "SUDO_INTERCEPT_FD=3";
        "LD_PRELOAD=d"; "SHELL=/bin/sh"]
     = filter (unmanaged elf) env_mixed.
Proof.
  split; [reflexivity|]. split; [reflexivity|].
  destruct (sudo_preload_dso elf always None (array_of env_mixed) "x.so" 3)
    as [o|] eqn:Hrun; [|vm_compute in Hrun; discriminate].
  assert (Henv : returned_env o
            = Some ["HOME=/"; "LD_PRELOAD=x.so:a"; "TERM=x"; "SUDO_INTERCEPT_FD=3";
                    "LD_PRELOAD=d"; "SHELL=/bin/sh"]).
  { vm_compute in Hrun. injection Hrun as <-. reflexivity. }
  exact (preload_keeps_unmanaged elf always None env_mixed "x.so" 3%Z o _ Hrun Henv).
Defined.

Lemma store_at_entries (K : list string) (c : cell) rest v :
  store (map Some K ++ c :: rest) (length K) v = Some (map Some K ++ v :: rest).
Proof.
  unfold store. destruct (decide _) as [_|Hn].
  - rewrite insert_app_r_alt by (rewrite length_map; lia).
    by rewrite length_map, Nat.sub_diag.
  - rewrite length_app, length_map in Hn. simpl in Hn. lia.
Qed.

Lemma store_after_entries (K : list string) (c0 c1 : cell) rest v :
  store (map Some K ++ c0 :: c1 :: rest) (S (length K)) v
  = Some (map Some K ++ c0 :: v :: rest).
Proof.
  unfold store. destruct (decide _) as [_|Hn].
  - rewrite insert_app_r_alt by (rewrite length_map; lia).
    rewrite length_map. by replace (S (length K) - length K) with 1 by lia.
  - rewrite length_app, length_map in Hn. simpl in Hn. lia.
Qed.

(** Appending at the terminator, with a cell to spare behind it. *)
Lemma append_entry_exact (K : list string) (c0 c1 : cell) rest v extra allocated :
  append_entry v extra
    {| b_cur := map Some K ++ c0 :: c1 :: rest; b_len := length K;
       b_allocated := allocated |}
  = Some {| b_cur := map Some (K ++ [v]) ++ None :: rest; b_len := length (K ++ [v]);
            b_allocated := allocated ++ extra |}.
Proof.
  unfold append_entry. cbn [b_cur b_len b_allocated].
  rewrite store_at_entries. cbn [mbind option_bind].
  rewrite store_after_entries. cbn [mbind option_bind].
  rewrite map_app, length_app, Nat.add_1_r, <- app_assoc. done.
Qed.

Section Fresh.
Context (P : platform) (alloc_ok : alloc_site -> bool) (junk : cell).

Lemma preload_from_scan_fresh allocated E dso_file intercept_fd :
  RTLD_PRELOAD_ENABLE_VAR P = None ->
  (forall x, alloc_ok x = true) ->
  (forall e, In e E -> managed P intercept_fd e = false) ->
  exists o,
    preload_from_scan P alloc_ok junk allocated (array_of E) dso_file intercept_fd = Some o
    /\ out_ret o = Ret_nenvp /\ out_envp o = array_of E
    /\ returned_env o
       = Some (E ++ new_preload P dso_file
                 :: (if Z.eqb intercept_fd (-1) then [] else [fmt_fd intercept_fd])).
Proof.
  intros Hvar Halloc Hfresh.
  destruct (scan_envp_any P dso_file intercept_fd E)
    as (K & k & oc & Ha & Hl & Hoc & Hk & HKl & HR & HI & He1 & He2).
  cbn [app] in *. unfold preload_from_scan.
  set (s := scan_envp P dso_file intercept_fd (array_of E)) in *.
  pose proof HI as (Hp & Hq & Hdp & Hfp).
  assert (K = E) as -> by (by eapply removes_nothing).
  assert (k = 0) as -> by lia. assert (oc = 0) as -> by lia.
  rewrite Nat.add_0_r in Hl.
  assert (Hpi : preload_idx s = None).
  { destruct (preload_idx s) as [p|]; [|done].
    destruct (Hp p eq_refl) as (e & Hle & HeP).
    apply list_elem_of_lookup_2, list_elem_of_In, Hfresh in Hle.
    unfold managed in Hle. by rewrite HeP in Hle. }
  assert (Hqi : intercept_idx s = None).
  { destruct (intercept_idx s) as [q|]; [|done].
    destruct (Hq q eq_refl) as (e & Hle & HeF).
    apply list_elem_of_lookup_2, list_elem_of_In, Hfresh in Hle.
    unfold managed in Hle. by rewrite HeF, orb_true_r in Hle. }
  assert (Hdpf : dso_present s = false).
  { destruct (dso_present s); [|done]. by destruct (Hdp eq_refl). }
  assert (Hfpf : fd_present s = false).
  { destruct (fd_present s); [|done]. by destruct (Hfp eq_refl). }
  assert (Hen : dso_enabled s = true).
  { apply He1. unfold scan_init. cbn. by rewrite Hvar. }
  assert (Hcopy : copy_envp junk s = map Some E ++ None :: junk :: junk :: [junk]).
  { unfold copy_envp, env_size. rewrite Ha, Hl, Hpi, Hqi, Hen.
    replace (length E) with (length E + 0) at 1 by lia.
    rewrite take_entries by lia. cbn.
    replace (length E + 1 + 1 + 1 + 1 - S (length E)) with 3 by lia.
    by rewrite app_nil_r. }
  unfold needs_copy. rewrite Hpi. cbn. rewrite Halloc. unfold finish.
  unfold add_preload. rewrite Hdpf, Hpi, Halloc, Hcopy, Hl.
  fold (new_preload P dso_file). rewrite append_entry_exact. cbn [fmap option_fmap option_map mbind option_bind].
  unfold add_enable. rewrite Hvar. cbn [mbind option_bind].
  unfold add_intercept_fd. rewrite Hfpf, Hqi, Halloc.
  destruct (Z.eqb intercept_fd (-1)); cbn [negb andb].
  - cbn [mbind option_bind]. eexists. split; [reflexivity|]. unfold returned_env. cbn.
    split_and!; try done. by rewrite env_of_entries.
  - rewrite append_entry_exact. cbn [fmap option_fmap option_map mbind option_bind].
    eexists. split; [reflexivity|]. unfold returned_env. cbn.
    split_and!; try done. rewrite env_of_entries. by rewrite <- app_assoc.
Qed.

End Fresh.

(** X21. An environment in which neither variable occurs, on a platform
    without an enable toggle and with memory to spare: the caller's
    array is left as it is, and the new array holds the same entries
    followed by the new preload entry and, when a descriptor is given,
    by its SUDO_INTERCEPT_FD entry. *)
Theorem preload_fresh_env (P : platform) alloc_ok junk E dso_file intercept_fd :
  RTLD_PRELOAD_ENABLE_VAR P = None ->
  (forall x, alloc_ok x = true) ->
  forallb (fun e => negb (managed P intercept_fd e)) E = true ->
  exists o,
    sudo_preload_dso P alloc_ok junk (array_of E) dso_file intercept_fd = Some o
    /\ out_ret o = Ret_nenvp /\ out_envp o = array_of E
    /\ returned_env o
       = Some (E ++ new_preload P (effective_dso P dso_file)
                 :: (if Z.eqb intercept_fd (-1) then [] else [fmt_fd intercept_fd])).
Proof.
  intros Hvar Halloc Hfresh. unfold sudo_preload_dso, effective_dso.
  assert (Hfresh' : forall e, In e E -> managed P intercept_fd e = false).
  { intros e He. rewrite forallb_forall in Hfresh. by apply negb_true_iff, Hfresh. }
  destruct (PATH_ASAN_LIB P) as [asan|]; rewrite ?Halloc;
    by apply preload_from_scan_fresh.
Qed.

Lemma preload_fresh_env_witness :
  exists o,
    sudo_preload_dso elf always None (array_of ["HOME=/"; "TERM=x"]) "x.so" 3 = Some o
    /\ out_ret o = Ret_nenvp /\ out_envp o = array_of ["HOME=/"; "TERM=x"]
    /\ returned_env o
       = Some ["HOME=/"; "TERM=x"; "LD_PRELOAD=x.so"; "SUDO_INTERCEPT_FD=3"].
Proof.
  exact (preload_fresh_env elf always None ["HOME=/"; "TERM=x"] "x.so" 3
           eq_refl (fun _ => eq_refl) eq_refl).
Defined.

Lemma finish_null (P : platform) alloc_ok dso_file intercept_fd copied s b o :
  finish P alloc_ok dso_file intercept_fd copied s b = Some o ->
  out_ret o = Ret_NULL ->
  alloc_ok A_preload = false \/ alloc_ok A_fdstr = false.
Proof.
  unfold finish.
  destruct (add_preload _ _ _ _ _) as [[b1|b1]|] eqn:H1; cbn; [| |done].
  - destruct (add_enable _ _ _) as [b2|]; cbn; [|done].
    destruct (add_intercept_fd _ _ _ _) as [[b3|b3]|] eqn:H3; cbn; [| |done].
    + intros [= <-]. by destruct copied.
    + intros _ _. right. unfold add_intercept_fd in H3.
      destruct (_ && _); [|done]. destruct (alloc_ok A_fdstr); [|done].
      destruct (intercept_idx s); [destruct (overwrite_entry _ _ _ _)
                                  |destruct (append_entry _ _ _)]; done.
  - intros _ _. left. unfold add_preload in H1.
    destruct (dso_present s); [done|].
    destruct (preload_idx s).
    + destruct (rd _ _); [|done]. destruct (alloc_ok A_preload); [|done].
      by destruct (overwrite_entry _ _ _ _).
    + destruct (alloc_ok A_preload); [|done]. by destruct (append_entry _ _ _).
Qed.

(** X22. [sudo_preload_dso] returns NULL for no other reason than an
    allocation that failed. *)
Theorem preload_null_means_alloc_failed (P : platform) alloc_ok junk a dso_file
    intercept_fd o :
  sudo_preload_dso P alloc_ok junk a dso_file intercept_fd = Some o ->
  out_ret o = Ret_NULL ->
  exists x, alloc_ok x = false.
Proof.
  unfold sudo_preload_dso, preload_from_scan. intros Hrun Hret.
  assert (Hfin : forall copied s b,
    finish P alloc_ok (effective_dso P dso_file) intercept_fd copied s b = Some o ->
    exists x, alloc_ok x = false).
  { intros copied s b Hf. destruct (finish_null _ _ _ _ _ _ _ _ Hf Hret); eauto. }
  unfold effective_dso in Hfin.
  destruct (PATH_ASAN_LIB P) as [asan|].
  - destruct (alloc_ok A_dso_buf) eqn:Hd; [|eauto].
    destruct (needs_copy _); [destruct (alloc_ok A_nenvp) eqn:Hn; [|eauto]|]; eauto.
  - destruct (needs_copy _); [destruct (alloc_ok A_nenvp) eqn:Hn; [|eauto]|]; eauto.
Qed.

Lemma preload_null_means_alloc_failed_witness :
  exists x, fails_at A_nenvp x = false.
Proof.
  destruct (sudo_preload_dso elf (fails_at A_nenvp) None (array_of ["HOME=/"]) "x.so" 3)
    as [o|] eqn:Hrun; [|vm_compute in Hrun; discriminate].
  assert (Hret : out_ret o = Ret_NULL)
    by (vm_compute in Hrun; injection Hrun as <-; reflexivity).
  exact (preload_null_means_alloc_failed elf (fails_at A_nenvp) None (array_of ["HOME=/"])
           "x.so" 3%Z o Hrun Hret).
Defined.

Lemma string_app_assoc (a b c : string) : ((a ++ b) ++ c = a ++ b ++ c)%string.
Proof.
  induction a as [|x a IH]; [done|].
  change (String x ((a ++ b) ++ c) = String x (a ++ b ++ c))%string. by f_equal.
Qed.

Lemma skip_app (a x : string) : skip (String.length a) (a ++ x) = x.
Proof.
  induction a as [|c a IH]; [by destruct x|].
  change (skip (String.length a) (a ++ x) = x). exact IH.
Qed.

Lemma value_of_intro var x : value_of var (var ++ "=" ++ x) = x.
Proof. unfold value_of. rewrite <- (string_app_assoc var "=" x). apply skip_app. Qed.

Lemma get_app_length (a x : string) :
  String.get (String.length a) (a ++ x) = String.get 0 x.
Proof.
  induction a as [|c a IH]; [done|].
  change (String.get (String.length a) (a ++ x) = String.get 0 x). exact IH.
Qed.

Lemma string_app_nil_r (d : string) : (d ++ "")%string = d.
Proof.
  induction d as [|c d IH]; [done|].
  change (String c (d ++ "") = String c d)%string. by f_equal.
Qed.

Lemma dso_is_first_app (P : platform) dso x :
  dso_is_first P dso (dso ++ x)
  = match x with
    | EmptyString => true
    | String c _ => Ascii.eqb c (RTLD_PRELOAD_DELIM P)
    end.
Proof.
  unfold dso_is_first. rewrite prefix_app, get_app_length. by destruct x.
Qed.

(** X23. The entry the builder writes is one the counting loop of a
    later call takes for the first preload entry with the library
    already first, so that call does not put the library in front once
    more; a value that only begins with the library's name is not taken
    for it unless the delimiter follows. *)
Theorem fmt_preload_recognised (P : platform) dso_file intercept_fd old s :
  preload_idx s = None ->
  let s' := scan_entry P dso_file intercept_fd s (fmt_preload P dso_file old) in
  (preload_idx s' = Some (env_len s) /\ dso_present s' = true /\ envp s' = envp s)
  /\ dso_is_first P dso_file dso_file = true
  /\ (forall c rest, dso_is_first P dso_file (dso_file ++ String c rest)
                     = Ascii.eqb c (RTLD_PRELOAD_DELIM P)).
Proof.
  intros Hnone. cbv zeta. split; [|split].
  - unfold scan_entry, fmt_preload. rewrite has_key_intro, value_of_intro, Hnone.
    rewrite dso_is_first_app, Ascii.eqb_refl. done.
  - pose proof (dso_is_first_app P dso_file "") as Hd.
    by rewrite string_app_nil_r in Hd.
  - intros c rest. apply dso_is_first_app.
Qed.

Lemma fmt_preload_recognised_witness :
  let s := scan_entry elf "x.so" 3 (scan_init elf (array_of ["LD_PRELOAD=x.so:a"]))
             "LD_PRELOAD=x.so:a" in
  preload_idx s = Some 0 /\ dso_present s = true
  /\ envp s = array_of ["LD_PRELOAD=x.so:a"].
Proof.
  exact (proj1 (fmt_preload_recognised elf "x.so" 3 "a"
                  (scan_init elf (array_of ["LD_PRELOAD=x.so:a"])) eq_refl)).
Defined.

(** X24. The counting loop stops on a NULL cell inside the array after
    at most as many iterations as the array has cells, for every
    environment: the bound [scan_envp] gives it is never what ends it,
    and the array keeps its length. *)
Theorem scan_envp_terminates (P : platform) dso_file intercept_fd E :
  let s := scan_envp P dso_file intercept_fd (array_of E) in
  rd (envp s) (env_len s) = None
  /\ env_len s < length (envp s)
  /\ length (envp s) = length (array_of E)
  /\ (forall extra,
        scan_loop P dso_file intercept_fd (length (array_of E) + extra)
          (scan_init P (array_of E)) = s).
Proof.
  cbv zeta.
  destruct (scan_envp_any P dso_file intercept_fd E)
    as (K & k & oc & Ha & Hl & Hoc & Hk & HKl & _).
  cbn [app] in *.
  assert (Hlen : length (envp (scan_envp P dso_file intercept_fd (array_of E)))
                 = length (array_of E)).
  { rewrite Ha, array_of_length, length_app, length_map, length_replicate. lia. }
  split_and!.
  - apply scan_loop_exits. cbn. lia.
  - rewrite Hlen, Hl, array_of_length. lia.
  - done.
  - intros extra. apply scan_loop_more_fuel. cbn. lia.
Qed.

Section Plain.
Context (P : platform) (dso_file : string) (intercept_fd : Z).
Local Abbreviation loop := (scan_loop P dso_file intercept_fd).

Lemma scan_entry_plain s e :
  managed P intercept_fd e = false ->
  set_env_len (S (env_len (scan_entry P dso_file intercept_fd s e)))
    (scan_entry P dso_file intercept_fd s e)
  = advance 1 (is_enable P e) s.
Proof.
  unfold managed. intros Hm. apply orb_false_elim in Hm as [HeP HeF].
  unfold scan_entry. fold (is_preload P e). rewrite HeP.
  assert (Hfd : negb (intercept_fd =? -1)%Z && has_key "SUDO_INTERCEPT_FD" e = false).
  { unfold is_checked_fd, is_intercept_fd in HeF. rewrite HeP in HeF. exact HeF. }
  rewrite Hfd. unfold is_enable, advance.
  destruct s as [a n p q fp dp en]; cbn.
  destruct (RTLD_PRELOAD_ENABLE_VAR P) as [var|]; [destruct (has_key var e)|]; cbn;
    rewrite ?orb_true_r, ?orb_false_r, ?Nat.add_1_r; done.
Qed.

Lemma advance_advance n m a b s :
  advance n a (advance m b s) = advance (m + n) (b || a) s.
Proof. unfold advance. cbn. f_equal; [lia|by rewrite orb_assoc]. Qed.

(** A run of entries of other variables is counted and nothing else. *)
Lemma scan_loop_plain (mid : list string) : forall (pre : list string) (tl : list cell) s fuel,
  Forall (fun e => managed P intercept_fd e = false) mid ->
  envp s = map Some pre ++ map Some mid ++ tl ->
  env_len s = length pre ->
  loop (length mid + fuel) s
  = loop fuel (advance (length mid) (existsb (is_enable P) mid) s).
Proof.
  induction mid as [|e mid IH]; intros pre tl s fuel Hm Ha Hl.
  - cbn. f_equal. unfold advance. destruct s; cbn. f_equal; [lia|by rewrite orb_false_r].
  - apply Forall_cons in Hm as [He Hm]. cbn [length Nat.add].
    rewrite (scan_loop_step P dso_file intercept_fd _ s e).
    2:{ rewrite Ha, Hl. apply rd_app_length. }
    rewrite scan_entry_plain by done.
    rewrite (IH (pre ++ [e]) tl).
    + rewrite advance_advance. cbn [existsb length]. done.
    + done.
    + cbn. rewrite Ha. rewrite map_app. cbn. by rewrite <- app_assoc.
    + cbn. rewrite Hl, length_app. cbn. lia.
Qed.

End Plain.

Section Trailing.
Context (P : platform) (alloc_ok : alloc_site -> bool) (junk : cell).

Lemma array_of_app (A B : list string) : array_of (A ++ B) = map Some A ++ array_of B.
Proof. unfold array_of. by rewrite map_app, <- app_assoc. Qed.

Lemma scan_trailing_duplicate E1 p1 E2 d dso_file intercept_fd :
  RTLD_PRELOAD_ENABLE_VAR P = None ->
  Forall (fun e => managed P intercept_fd e = false) E1 ->
  Forall (fun e => managed P intercept_fd e = false) E2 ->
  is_preload P p1 = true -> is_preload P d = true ->
  scan_envp P dso_file intercept_fd (array_of (E1 ++ p1 :: E2 ++ [d]))
  = {| envp := map Some (E1 ++ p1 :: E2) ++ [None; None];
       env_len := S (length (E1 ++ p1 :: E2));
       preload_idx := Some (length E1); intercept_idx := None;
       fd_present := false;
       dso_present := dso_is_first P dso_file (value_of (RTLD_PRELOAD_VAR P) p1);
       dso_enabled := true |}.
Proof.
  intros Hvar H1 H2 Hp1 Hd. unfold scan_envp.
  set (a := array_of (E1 ++ p1 :: E2 ++ [d])).
  assert (Ha : a = map Some E1 ++ map Some (p1 :: E2 ++ [d]) ++ [None]).
  { unfold a. by rewrite array_of_app. }
  assert (Hfuel : length a = length E1 + S (length E2 + 2)).
  { unfold a. rewrite array_of_length, !length_app. cbn. rewrite length_app. cbn. lia. }
  rewrite Hfuel.
  rewrite (scan_loop_plain P dso_file intercept_fd E1 [] (map Some (p1 :: E2 ++ [d]) ++ [None]));
    [|done|by rewrite <- Ha|done].
  unfold scan_init, advance. rewrite Hvar. cbn [envp env_len preload_idx intercept_idx
    fd_present dso_present dso_enabled orb Nat.add].
  erewrite scan_loop_step.
  2:{ cbn [envp env_len]. rewrite Ha, rd_app_length. reflexivity. }
  unfold scan_entry at 1 2. unfold is_preload in Hp1. rewrite Hp1.
  cbn [preload_idx].
  destruct (dso_is_first P dso_file (value_of (RTLD_PRELOAD_VAR P) p1));
    unfold set_env_len, set_preload_idx, set_dso_present;
    cbn [envp env_len preload_idx intercept_idx fd_present dso_present dso_enabled].
  all: replace (length E2 + 2) with (length E2 + S 1) by lia.
  all: rewrite (scan_loop_plain P dso_file intercept_fd E2 (E1 ++ [p1])
                  (map Some [d] ++ [None]));
    [|done|cbn [envp]; rewrite Ha, map_app; cbn; by rewrite map_app, <- !app_assoc
     |cbn [env_len]; rewrite length_app; cbn; lia].
  all: unfold advance; cbn [envp env_len preload_idx intercept_idx
    fd_present dso_present dso_enabled orb].
  all: assert (Ha' : a = map Some (E1 ++ p1 :: E2) ++ map Some [d] ++ replicate 1 None)
    by (rewrite Ha, map_app; cbn; by rewrite map_app, <- !app_assoc).
  all: assert (Hlen : S (length E1) + length E2 = length (E1 ++ p1 :: E2))
    by (rewrite length_app; cbn; lia).
  all: rewrite Hlen.
  all: erewrite scan_loop_step;
    [|cbn [envp env_len]; rewrite Ha'; apply rd_entries_cons].
  all: unfold scan_entry; unfold is_preload in Hd; rewrite Hd.
  all: unfold set_env_len, set_envp;
    cbn [preload_idx envp env_len intercept_idx fd_present dso_present dso_enabled].
  all: rewrite Ha', remove_entry_entries.
  all: rewrite scan_loop_stop; [done|].
  all: cbn [envp env_len]; apply rd_past_entries.
Qed.

End Trailing.

Lemma store_entry (A B : list string) x (rest : list cell) v :
  store (map Some (A ++ x :: B) ++ rest) (length A) (Some v)
  = Some (map Some (A ++ v :: B) ++ rest).
Proof.
  rewrite !map_app. cbn [map]. rewrite <- !app_assoc. cbn [app].
  rewrite <- (length_map Some A). by rewrite store_middle.
Qed.

Lemma rd_entry (A B : list string) x (rest : list cell) :
  rd (map Some (A ++ x :: B) ++ rest) (length A) = Some x.
Proof.
  rewrite map_app. cbn [map]. rewrite <- app_assoc. by rewrite rd_app_length.
Qed.

(** Appending one cell behind the terminator. *)
Lemma append_entry_hidden (K : list string) (c1 c2 : cell) rest v extra allocated :
  append_entry v extra
    {| b_cur := map Some K ++ None :: c1 :: c2 :: rest; b_len := S (length K);
       b_allocated := allocated |}
  = Some {| b_cur := map Some K ++ None :: Some v :: None :: rest;
            b_len := S (S (length K)); b_allocated := allocated ++ extra |}.
Proof.
  unfold append_entry. cbn [b_cur b_len b_allocated].
  rewrite store_after_entries. cbn [mbind option_bind].
  pose proof (store_middle (map Some K ++ [None; Some v]) c2 rest None) as Hst.
  rewrite length_app, length_map in Hst. cbn [length] in Hst.
  rewrite <- !app_assoc in Hst. cbn [app] in Hst.
  replace (length K + 2) with (S (S (length K))) in Hst by lia.
  unfold cell in *. rewrite Hst. done.
Qed.

Lemma take_one_past (K : list string) :
  take (S (length K)) (map Some K ++ [None; None]) = map Some K ++ [None : cell].
Proof.
  rewrite take_app_ge by (rewrite length_map; lia).
  rewrite length_map. by replace (S (length K) - length K) with 1 by lia.
Qed.

Section Hidden.
Context (P : platform) (alloc_ok : alloc_site -> bool) (junk : cell).

Lemma preload_from_scan_trailing allocated E1 p1 E2 d dso_file intercept_fd :
  RTLD_PRELOAD_ENABLE_VAR P = None ->
  (forall x, alloc_ok x = true) ->
  intercept_fd <> (-1)%Z ->
  Forall (fun e => managed P intercept_fd e = false) E1 ->
  Forall (fun e => managed P intercept_fd e = false) E2 ->
  is_preload P p1 = true -> is_preload P d = true ->
  let p1' := if dso_is_first P dso_file (value_of (RTLD_PRELOAD_VAR P) p1) then p1
             else fmt_preload P dso_file (value_of (RTLD_PRELOAD_VAR P) p1) in
  exists o,
    preload_from_scan P alloc_ok junk allocated (array_of (E1 ++ p1 :: E2 ++ [d]))
      dso_file intercept_fd = Some o
    /\ returned_env o = Some (E1 ++ p1' :: E2)
    /\ out_nenvp o
       = Some (map Some (E1 ++ p1' :: E2) ++ [None; Some (fmt_fd intercept_fd); None; junk]).
Proof.
  intros Hvar Halloc Hfd H1 H2 Hp1 Hd. cbv zeta.
  unfold preload_from_scan.
  rewrite (scan_trailing_duplicate P E1 p1 E2 d dso_file intercept_fd) by done.
  set (K := E1 ++ p1 :: E2).
  unfold needs_copy. cbn [preload_idx intercept_idx dso_enabled]. cbn [negb orb].
  rewrite (bool_decide_eq_true_2 (@None nat = None)) by done. rewrite orb_true_r, Halloc.
  assert (Hcopy : copy_envp junk
            {| envp := map Some K ++ [None; None]; env_len := S (length K);
               preload_idx := Some (length E1); intercept_idx := None;
               fd_present := false;
               dso_present := dso_is_first P dso_file (value_of (RTLD_PRELOAD_VAR P) p1);
               dso_enabled := true |}
          = map Some K ++ None :: None :: junk :: [junk]).
  { unfold copy_envp, env_size. cbn [envp env_len preload_idx intercept_idx dso_enabled].
    rewrite take_one_past.
    rewrite (bool_decide_eq_false_2 (Some (length E1) = None)) by done.
    rewrite (bool_decide_eq_true_2 (@None nat = None)) by done. cbn [b2n].
    replace (S (length K) + 1 + 0 + 1 + 1 - S (S (length K))) with 2 by lia.
    rewrite <- app_assoc. done. }
  unfold finish, add_preload. rewrite Hcopy.
  cbn [dso_present preload_idx env_len b_cur b_len].
  unfold add_intercept_fd, add_enable. rewrite Hvar.
  cbn [fd_present intercept_idx negb andb]. rewrite !Halloc.
  destruct (Z.eqb_spec intercept_fd (-1)) as [?|_]; [done|]. cbn [negb].
  destruct (dso_is_first P dso_file (value_of (RTLD_PRELOAD_VAR P) p1)).
  - cbn [mbind option_bind]. rewrite append_entry_hidden.
    cbn [fmap option_fmap option_map mbind option_bind].
    eexists. split; [reflexivity|]. unfold returned_env. cbn. split; [|done].
    by rewrite env_of_entries.
  - subst K. unfold cell in *. rewrite rd_entry. unfold overwrite_entry.
    cbn [b_cur b_len b_allocated]. rewrite store_entry.
    cbn [fmap option_fmap option_map mbind option_bind].
    replace (length (E1 ++ p1 :: E2))
      with (length (E1 ++ fmt_preload P dso_file (value_of (RTLD_PRELOAD_VAR P) p1) :: E2))
      by (rewrite !length_app; done).
    rewrite append_entry_hidden.
    cbn [fmap option_fmap option_map mbind option_bind].
    eexists. split; [reflexivity|]. unfold returned_env. cbn. split; [|done].
    by rewrite env_of_entries.
Qed.

End Hidden.

(** X25. When the last entry of the environment is a second entry of
    the preload variable, the entry count comes out one too high and
    what the builder then appends lands behind the terminator: with a
    descriptor given and no SUDO_INTERCEPT_FD entry in the environment,
    the call succeeds and the environment it returns has no
    SUDO_INTERCEPT_FD entry. *)
Theorem preload_trailing_duplicate_hides_fd
    (P : platform) alloc_ok junk E1 p1 E2 d dso_file intercept_fd :
  RTLD_PRELOAD_ENABLE_VAR P = None ->
  (forall x, alloc_ok x = true) ->
  intercept_fd <> (-1)%Z ->
  forallb (fun e => negb (managed P intercept_fd e)) (E1 ++ E2) = true ->
  is_preload P p1 = true -> is_preload P d = true ->
  let dso := effective_dso P dso_file in
  let p1' := if dso_is_first P dso (value_of (RTLD_PRELOAD_VAR P) p1) then p1
             else fmt_preload P dso (value_of (RTLD_PRELOAD_VAR P) p1) in
  exists o,
    sudo_preload_dso P alloc_ok junk (array_of (E1 ++ p1 :: E2 ++ [d]))
      dso_file intercept_fd = Some o
    /\ returned_env o = Some (E1 ++ p1' :: E2)
    /\ out_nenvp o
       = Some (map Some (E1 ++ p1' :: E2) ++ [None; Some (fmt_fd intercept_fd); None; junk]).
Proof.
  intros Hvar Halloc Hfd H12 Hp1 Hd. cbv zeta. unfold sudo_preload_dso, effective_dso.
  rewrite forallb_app in H12. apply andb_prop in H12 as [H1 H2].
  assert (Hall : forall E, forallb (fun e => negb (managed P intercept_fd e)) E = true ->
            Forall (fun e => managed P intercept_fd e = false) E).
  { intros E HE. apply Forall_forall. intros e He. apply list_elem_of_In in He.
    rewrite forallb_forall in HE. by apply negb_true_iff, HE. }
  apply Hall in H1, H2.
  destruct (PATH_ASAN_LIB P) as [asan|]; rewrite ?Halloc;
    by apply preload_from_scan_trailing.
Qed.

Lemma preload_trailing_duplicate_hides_fd_witness :
  exists o,
    sudo_preload_dso elf always None
      (array_of ["HOME=/"; "LD_PRELOAD=a"; "TERM=x"; "LD_PRELOAD=b"]) "x.so" 3 = Some o
    /\ returned_env o = Some ["HOME=/"; "LD_PRELOAD=x.so:a"; "TERM=x"]
    /\ out_nenvp o
       = Some [Some "HOME=/"; Some "LD_PRELOAD=x.so:a"; Some "TERM=x"; None;
               Some "SUDO_INTERCEPT_FD=3"; None; None].
Proof.
  apply (preload_trailing_duplicate_hides_fd elf always None ["HOME=/"] "LD_PRELOAD=a"
           ["TERM=x"] "LD_PRELOAD=b" "x.so" 3);
    [reflexivity | intros x; reflexivity | discriminate | reflexivity | reflexivity
    | reflexivity].
Defined.
